(** * ambit: lumped-parameter (0D) circulation model and Newton solver

    A shallow embedding of
      - [modules/flow0d/cardiovascular0D.py]  (class [cardiovascular0Dbase])
      - [modules/solver/solver_nonlin.py]     (the [newton] loops)
    Python floats are idealised as exact numbers: rationals [Q] where the
    code only uses field operations and comparisons, reals [R] where it
    calls [np.cos].  Exceptions are modelled by an error monad. *)

From Stdlib Require Import ZArith QArith Qabs Qminmax Qround Qpower Reals Psatz Bool.
From Stdlib Require Import String Ascii.
From stdpp Require Import gmap strings list.

Set Default Proof Using "Type".

(** ** Python exceptions and the error monad *)

Inductive exn : Type :=
  | ZeroDivisionError
  | ValueError
  | IndexError
  | AttributeError
  | KeyError
  | NameError
  | FileNotFoundError
  | RuntimeError (it : Z)
  (* Not a Python exception.  A division by a zero float whose outcome
     depends on the kind of the dividend: a Python float raises
     [ZeroDivisionError], a numpy scalar gives [inf] or [nan] and the code
     goes on.  The rationals have neither value; the model stops here and
     does not say which of the two happens. *)
  | ZeroDivisor.

Inductive result (A : Type) : Type :=
  | Ok (a : A)
  | Raise (e : exn).
Arguments Ok {A} a.
Arguments Raise {A} e.

Global Instance result_ret : MRet result := fun A a => Ok a.
Global Instance result_bind : MBind result := fun A B k m =>
  match m with
  | Ok a => k a
  | Raise e => Raise e
  end.

(** [for i in range(lo, lo+n): s = body i s], stopping at the first exception. *)
Fixpoint for_range {S : Type} (lo n : nat) (body : nat -> S -> result S) (s : S)
  : result S :=
  match n with
  | O => Ok s
  | Datatypes.S n' => s' ← body lo s; for_range (Datatypes.S lo) n' body s'
  end.

(** ** Python float arithmetic on [Q] *)

Module PyFloat.

(** [a / b] on Python floats raises when the divisor is zero. *)
Definition truediv (a b : Q) : result Q :=
  if Qeq_bool b 0 then Raise ZeroDivisionError else Ok (a / b)%Q.

(** [a / b] where [a] is the value of a compiled expression: a numpy
    scalar or a Python number, according to the expression. *)
Definition truediv_compiled (a b : Q) : result Q :=
  if Qeq_bool b 0 then Raise ZeroDivisor else Ok (a / b)%Q.

Definition ltb (a b : Q) : bool := negb (Qle_bool b a).
Definition leb (a b : Q) : bool := Qle_bool a b.
Definition gtb (a b : Q) : bool := ltb b a.

(** [math.fabs] *)
Definition fabs (a : Q) : Q := Qabs a.

(** Truncation towards zero of a rational. *)
Definition trunc (a : Q) : Z := Z.quot (Qnum a) (Zpos (Qden a)).

(** [math.fmod x y]: [x - n*y] with [n] the quotient truncated towards
    zero; a zero modulus is a domain error. *)
Definition fmod (x y : Q) : result Q :=
  if Qeq_bool y 0 then Raise ValueError
  else Ok (x - inject_Z (trunc (x / y)) * y)%Q.

End PyFloat.

(** ** Text: [%.16E] formatting, [float()], [str.split()], line iteration *)

Module PyText.

(** [str.isspace] on the ASCII range. *)
Definition is_space (c : ascii) : bool :=
  let n := N_of_ascii c in
  ((9 <=? n) && (n <=? 13) || (28 <=? n) && (n <=? 32))%N.

Definition digit_char (d : Z) : ascii := ascii_of_N (48 + Z.to_N d).

Definition digit_val (c : ascii) : option Z :=
  let n := N_of_ascii c in
  if ((48 <=? n) && (n <=? 57))%N then Some (Z.of_N n - 48)%Z else None.

(** The [w] low decimal digits of [n], most significant first. *)
Fixpoint digits_fixed (w : nat) (n : Z) : string :=
  match w with
  | O => ""
  | S w' => String (digit_char ((n / 10 ^ Z.of_nat w') mod 10))
                   (digits_fixed w' n)
  end.

(** Number of decimal digits of [n >= 0] (at least one). *)
Fixpoint ndigits_go (fuel : nat) (n : Z) : nat :=
  match fuel with
  | O => 1
  | S fuel' => if (n <? 10)%Z then 1%nat else S (ndigits_go fuel' (n / 10))
  end.
Definition ndigits (n : Z) : nat := ndigits_go (Z.to_nat (Z.log2 n)) n.

(** Decimal exponent of the positive rational [n/d]: the [e] with
    [10^e <= n/d < 10^(e+1)].  [exp_up] searches upwards from [k] when
    [n/d >= 1], [exp_down] searches the first [k] with
    [n * 10^k >= d] otherwise. *)
Fixpoint exp_up (fuel : nat) (n d k : Z) : Z :=
  match fuel with
  | O => k
  | S fuel' => if (n <? d * 10 ^ (k + 1))%Z then k else exp_up fuel' n d (k + 1)
  end.

Fixpoint exp_down (fuel : nat) (n d k : Z) : Z :=
  match fuel with
  | O => k
  | S fuel' => if (d <=? n * 10 ^ k)%Z then k else exp_down fuel' n d (k + 1)
  end.

Definition dec_exponent (n d : Z) : Z :=
  if (d <=? n)%Z then exp_up (S (Z.to_nat (Z.log2 n))) n d 0
  else (- exp_down (S (S (Z.to_nat (Z.log2 d)))) n d 1)%Z.

(** Nearest integer to [N/D], ties to even. *)
Definition round_half_even (N D : Z) : Z :=
  let f := (N / D)%Z in
  let r := (N mod D)%Z in
  if (2 * r <? D)%Z then f
  else if (D <? 2 * r)%Z then (f + 1)%Z
  else if Z.even f then f else (f + 1)%Z.

(** Mantissa (17 significant digits, as an integer in [10^16, 10^17)) and
    decimal exponent of the positive rational [n/d]. *)
Definition sci_digits (n d : Z) : Z * Z :=
  let e := dec_exponent n d in
  let m := if (e <=? 16)%Z then round_half_even (n * 10 ^ (16 - e)) d
           else round_half_even n (d * 10 ^ (e - 16)) in
  if (m =? 10 ^ 17)%Z then (10 ^ 16, e + 1)%Z else (m, e).

(** ['%.16E' % q] *)
Definition format_16E (q : Q) : string :=
  if Qeq_bool q 0 then "0.0000000000000000E+00"
  else
    let '(m, e) := sci_digits (Z.abs (Qnum q)) (Zpos (Qden q)) in
    (if (Qnum q <? 0)%Z then "-" else "") +:+
    digits_fixed 1 (m / 10 ^ 16) +:+ "." +:+ digits_fixed 16 m +:+
    "E" +:+ (if (e <? 0)%Z then "-" else "+") +:+
    digits_fixed (Nat.max 2 (ndigits (Z.abs e))) (Z.abs e).

(** Reads a run of decimal digits: accumulated value, number of digits
    read, rest of the input. *)
Fixpoint read_digits (acc : Z) (cnt : nat) (s : string) : Z * nat * string :=
  match s with
  | "" => (acc, cnt, "")
  | String c s' =>
      match digit_val c with
      | Some d => read_digits (10 * acc + d) (S cnt) s'
      | None => (acc, cnt, s)
      end
  end.

Definition read_sign (s : string) : bool * string :=
  match s with
  | String "-"%char s' => (true, s')
  | String "+"%char s' => (false, s')
  | _ => (false, s)
  end.

Definition pow10 (k : Z) : Q := (10 ^ k)%Q.

Definition signed (neg : bool) (q : Q) : Q := if neg then (- q)%Q else q.

(** [float(s)] on a decimal literal
    [[sign] digits [. digits] [(e|E) [sign] digits]]; anything else is a
    [ValueError].  (Non-finite literals have no counterpart in [Q].) *)
Definition float (s : string) : result Q :=
  let '(neg, s1) := read_sign s in
  let '(ip, ni, s2) := read_digits 0 0 s1 in
  let '(m, nf, s3) :=
    match s2 with
    | String "."%char s' => read_digits ip 0 s'
    | _ => (ip, 0%nat, s2)
    end in
  if (ni + nf =? 0)%nat then Raise ValueError
  else
    match s3 with
    | "" => Ok (signed neg (inject_Z m * pow10 (- Z.of_nat nf)))
    | String c s4 =>
        if (Ascii.eqb c "e" || Ascii.eqb c "E")%char then
          let '(eneg, s5) := read_sign s4 in
          let '(ev, ne, s6) := read_digits 0 0 s5 in
          if (ne =? 0)%nat then Raise ValueError
          else
            match s6 with
            | "" => Ok (signed neg (inject_Z m *
                          pow10 ((if eneg then - ev else ev) - Z.of_nat nf)))
            | _ => Raise ValueError
            end
        else Raise ValueError
    end.

(** [s.split()]: the maximal runs of non-whitespace characters.  [cur] is
    the word being read. *)
Definition flush (cur : string) : list string :=
  match cur with "" => [] | _ => [cur] end.

Fixpoint split_go (cur : string) (s : string) : list string :=
  match s with
  | "" => flush cur
  | String c s' =>
      if is_space c then flush cur ++ split_go "" s'
      else split_go (cur +:+ String c "") s'
  end.
Definition split (s : string) : list string := split_go "" s.

(** [for line in fh]: the lines of a text, each with its newline. *)
Fixpoint lines_go (cur : string) (s : string) : list string :=
  match s with
  | "" => flush cur
  | String c s' =>
      if Ascii.eqb c "010"%char then (cur +:+ String c "") :: lines_go "" s'
      else lines_go (cur +:+ String c "") s'
  end.
Definition lines (s : string) : list string := lines_go "" s.

End PyText.

(** ** numpy arrays and distributed vectors *)

(** A state vector is either a dense [np.ndarray] or the locally owned part
    of a distributed vector: [PetscVec lo a] owns the global indices
    [lo .. lo + length a - 1]. *)
Inductive vec : Type :=
  | NdArray (a : list Q)
  | PetscVec (lo : nat) (a : list Q).

(** Dense two-dimensional array, row major. *)
Definition mat : Type := list (list Q).

Definition isinstance_ndarray (v : vec) : bool :=
  match v with NdArray _ => true | PetscVec _ _ => false end.

(** [len(v)] *)
Definition vec_len (v : vec) : nat :=
  match v with NdArray a => length a | PetscVec _ a => length a end.

(** [v.getOwnershipRange()]; an ndarray has no such method. *)
Definition getOwnershipRange (v : vec) : result (nat * nat) :=
  match v with
  | NdArray _ => Raise AttributeError
  | PetscVec lo a => Ok (lo, lo + length a)%nat
  end.

(** [l[i]] on a Python list, for [i >= 0]. *)
Definition list_getitem {A} (l : list A) (i : nat) : result A :=
  match l !! i with Some a => Ok a | None => Raise IndexError end.

(** [l[i] = a] on a Python list, for [i >= 0]. *)
Definition list_setitem {A} (l : list A) (i : nat) (a : A) : result (list A) :=
  if decide (i < length l)%nat then Ok (<[i:=a]> l) else Raise IndexError.

(** [v[i]] with a global index [i >= 0]. *)
Definition vec_getitem (v : vec) (i : nat) : result Q :=
  match v with
  | NdArray a => list_getitem a i
  | PetscVec lo a =>
      if decide (lo <= i)%nat then list_getitem a (i - lo) else Raise IndexError
  end.

(** [v[i] = q] with a global index [i >= 0]. *)
Definition vec_setitem (v : vec) (i : nat) (q : Q) : result vec :=
  match v with
  | NdArray a => a' ← list_setitem a i q; Ok (NdArray a')
  | PetscVec lo a =>
      if decide (lo <= i)%nat
      then a' ← list_setitem a (i - lo) q; Ok (PetscVec lo a')
      else Raise IndexError
  end.

(** [K[i,j]] and [K[i,j] = q]. *)
Definition mat_getitem (K : mat) (i j : nat) : result Q :=
  row ← list_getitem K i; list_getitem row j.

Definition mat_setitem (K : mat) (i j : nat) (q : Q) : result mat :=
  row ← list_getitem K i;
  row' ← list_setitem row j q;
  list_setitem K i row'.

(** [T[i][j]] and [T[i][j] = a] on a list of lists. *)
Definition table_getitem {A} (T : list (list A)) (i j : nat) : result A :=
  row ← list_getitem T i; list_getitem row j.

Definition table_setitem {A} (T : list (list A)) (i j : nat) (a : A)
  : result (list (list A)) :=
  row ← list_getitem T i;
  row' ← list_setitem row j a;
  list_setitem T i row'.

(** [vs, ve = 0, len(a)] for an ndarray [a], else [b.getOwnershipRange()]. *)
Definition ownership (a b : vec) : result (nat * nat) :=
  if isinstance_ndarray a then Ok (0%nat, vec_len a) else getOwnershipRange b.

(** ** External collaborators *)

(** A compiled expression: a function of [(x, c, t, fnc)]. *)
Definition callable : Type := list Q -> list Q -> Q -> list Q -> Q.

(** The symbolic engine (sympy): expressions, [sp.diff], [sp.lambdify]. *)
Class Sympy : Type := {
  expr : Type;
  sp_diff : expr -> expr -> expr;
  sp_lambdify : list expr * list expr * expr * list expr -> expr -> callable
}.

(** [mpiroutines.allgather_vec]: the full vector on every process. *)
Class Mpi : Type := {
  allgather_vec : vec -> list Q
}.

(** ** The model object: attributes of [cardiovascular0Dbase]

    [__init__] sets [T_cycl], [theta], [init], [have_induced_pert] and
    [comm]; the other attributes are set by the derived model classes
    ([setup_arrays], [set_solve_arrays]) before any method below runs.
    [comm] holds the rank of this process, [None] when no communicator
    was given. *)
Record cardiovascular0Dbase `{Sympy} : Type := {
  T_cycl : Q;
  theta : Q;
  init : bool;
  have_induced_pert : bool;
  comm : option Z;
  numdof : nat;
  (* symbolic tables *)
  x_ : list expr;
  c_ : list expr;
  t_ : expr;
  fnc_ : list expr;
  df_ : list expr;
  f_ : list expr;
  a_ : list expr;
  Kdf_ : list (list expr);
  Kf_ : list (list expr);
  (* compiled tables *)
  df__ : list callable;
  f__ : list callable;
  a__ : list callable;
  Kdf__ : list (list callable);
  Kf__ : list (list callable);
  (* valve resistances touched by the disease perturbations *)
  R_vin_l_max : Q;
  R_vin_l_min : Q;
  R_vout_l_max : Q;
  R_vout_l_min : Q;
  (* labelled output: name -> index, in insertion order *)
  varmap : list (string * nat);
  (* chamber interfaces *)
  chmodels : gmap string string;
  cq : string;
  switch_V : list Z;
  switch_p : list Z;
  elastarrays : list (list Q);
  eqtimearray : list Q;
  v_ids : list Z;
  c_ids : list Z;
  vindex_ch : list Z;
  cindex_ch : list Z;
  cname_prfx : list string;
  vname_prfx : list string;
  si : list Z
}.

(** Methods of the derived model classes and file readers the base class
    calls but does not define. *)
Class DerivedModel `{Sympy} : Type := {
  setup_arrays : cardiovascular0Dbase -> result cardiovascular0Dbase;
  equation_map : cardiovascular0Dbase -> result cardiovascular0Dbase;
  set_prescribed_elastance :
    cardiovascular0Dbase -> string -> result (list Q * list Q);
  (* returns the verdict and the updated [cyclerr] *)
  check_periodic :
    cardiovascular0Dbase -> vec -> vec -> Q -> string -> list Q ->
    result (bool * list Q)
}.

Section Flow0D.
Context {sympy_engine : Sympy} {mpi_comm : Mpi} {derived_model : DerivedModel}.

(** [x_sq] of [evaluate] and [write_initial]: the array itself, or the
    gathered distributed vector (which needs [self.comm]). *)
Definition squeeze (self : cardiovascular0Dbase) (x : vec) : result (list Q) :=
  match x with
  | NdArray a => Ok a
  | PetscVec _ _ =>
      match comm self with
      | Some _ => Ok (allgather_vec x)
      | None => Raise AttributeError
      end
  end.

(** One of the loops [for i in range(self.numdof): out[i] = tab[i](x_sq, c, t, fnc)]. *)
Definition fill_vec (self : cardiovascular0Dbase) (tab : list callable)
    (x_sq c : list Q) (t : Q) (fnc : list Q) (out : option vec)
  : result (option vec) :=
  match out with
  | None => Ok None
  | Some v =>
      v' ← for_range 0 (numdof self)
             (fun i v => g ← list_getitem tab i; vec_setitem v i (g x_sq c t fnc)) v;
      Ok (Some v')
  end.

(** [K[i,j] = Kdf__[i][j](..) / dt + Kf__[i][j](..) * theta].  The dividend
    is the value of a compiled expression, so at [dt = 0] the model stops
    with [ZeroDivisor]. *)
Definition fill_K_entry (self : cardiovascular0Dbase)
    (x_sq c : list Q) (t : Q) (fnc : list Q) (dt : Q) (i j : nat) (K : mat)
  : result mat :=
  kdf ← table_getitem (Kdf__ self) i j;
  d ← PyFloat.truediv_compiled (kdf x_sq c t fnc) dt;
  kf ← table_getitem (Kf__ self) i j;
  mat_setitem K i j (d + kf x_sq c t fnc * theta self)%Q.

(** evaluate model at current nonlinear iteration *)
Definition evaluate (self : cardiovascular0Dbase) (x : vec) (dt t : Q)
    (df f : option vec) (K : option mat) (c : list Q) (a : option vec)
    (fnc : list Q)
  : result (option vec * option vec * option mat * option vec) :=
  x_sq ← squeeze self x;
  df' ← fill_vec self (df__ self) x_sq c t fnc df;
  f' ← fill_vec self (f__ self) x_sq c t fnc f;
  K' ← match K with
       | None => Ok None
       | Some K0 =>
           K1 ← for_range 0 (numdof self)
                  (fun i => for_range 0 (numdof self)
                     (fun j => fill_K_entry self x_sq c t fnc dt i j)) K0;
           Ok (Some K1)
       end;
  a' ← fill_vec self (a__ self) x_sq c t fnc a;
  Ok (df', f', K', a').

(** Attribute assignment [self.<attr> = v]. *)
Definition set_have_induced_pert (self : cardiovascular0Dbase) v : cardiovascular0Dbase :=
  {| T_cycl := T_cycl self;
     theta := theta self;
     init := init self;
     have_induced_pert := v;
     comm := comm self;
     numdof := numdof self;
     x_ := x_ self;
     c_ := c_ self;
     t_ := t_ self;
     fnc_ := fnc_ self;
     df_ := df_ self;
     f_ := f_ self;
     a_ := a_ self;
     Kdf_ := Kdf_ self;
     Kf_ := Kf_ self;
     df__ := df__ self;
     f__ := f__ self;
     a__ := a__ self;
     Kdf__ := Kdf__ self;
     Kf__ := Kf__ self;
     R_vin_l_max := R_vin_l_max self;
     R_vin_l_min := R_vin_l_min self;
     R_vout_l_max := R_vout_l_max self;
     R_vout_l_min := R_vout_l_min self;
     varmap := varmap self;
     chmodels := chmodels self;
     cq := cq self;
     switch_V := switch_V self;
     switch_p := switch_p self;
     elastarrays := elastarrays self;
     eqtimearray := eqtimearray self;
     v_ids := v_ids self;
     c_ids := c_ids self;
     vindex_ch := vindex_ch self;
     cindex_ch := cindex_ch self;
     cname_prfx := cname_prfx self;
     vname_prfx := vname_prfx self;
     si := si self |}.
Definition set_Kdf_ (self : cardiovascular0Dbase) v : cardiovascular0Dbase :=
  {| T_cycl := T_cycl self;
     theta := theta self;
     init := init self;
     have_induced_pert := have_induced_pert self;
     comm := comm self;
     numdof := numdof self;
     x_ := x_ self;
     c_ := c_ self;
     t_ := t_ self;
     fnc_ := fnc_ self;
     df_ := df_ self;
     f_ := f_ self;
     a_ := a_ self;
     Kdf_ := v;
     Kf_ := Kf_ self;
     df__ := df__ self;
     f__ := f__ self;
     a__ := a__ self;
     Kdf__ := Kdf__ self;
     Kf__ := Kf__ self;
     R_vin_l_max := R_vin_l_max self;
     R_vin_l_min := R_vin_l_min self;
     R_vout_l_max := R_vout_l_max self;
     R_vout_l_min := R_vout_l_min self;
     varmap := varmap self;
     chmodels := chmodels self;
     cq := cq self;
     switch_V := switch_V self;
     switch_p := switch_p self;
     elastarrays := elastarrays self;
     eqtimearray := eqtimearray self;
     v_ids := v_ids self;
     c_ids := c_ids self;
     vindex_ch := vindex_ch self;
     cindex_ch := cindex_ch self;
     cname_prfx := cname_prfx self;
     vname_prfx := vname_prfx self;
     si := si self |}.
Definition set_Kf_ (self : cardiovascular0Dbase) v : cardiovascular0Dbase :=
  {| T_cycl := T_cycl self;
     theta := theta self;
     init := init self;
     have_induced_pert := have_induced_pert self;
     comm := comm self;
     numdof := numdof self;
     x_ := x_ self;
     c_ := c_ self;
     t_ := t_ self;
     fnc_ := fnc_ self;
     df_ := df_ self;
     f_ := f_ self;
     a_ := a_ self;
     Kdf_ := Kdf_ self;
     Kf_ := v;
     df__ := df__ self;
     f__ := f__ self;
     a__ := a__ self;
     Kdf__ := Kdf__ self;
     Kf__ := Kf__ self;
     R_vin_l_max := R_vin_l_max self;
     R_vin_l_min := R_vin_l_min self;
     R_vout_l_max := R_vout_l_max self;
     R_vout_l_min := R_vout_l_min self;
     varmap := varmap self;
     chmodels := chmodels self;
     cq := cq self;
     switch_V := switch_V self;
     switch_p := switch_p self;
     elastarrays := elastarrays self;
     eqtimearray := eqtimearray self;
     v_ids := v_ids self;
     c_ids := c_ids self;
     vindex_ch := vindex_ch self;
     cindex_ch := cindex_ch self;
     cname_prfx := cname_prfx self;
     vname_prfx := vname_prfx self;
     si := si self |}.
Definition set_df__ (self : cardiovascular0Dbase) v : cardiovascular0Dbase :=
  {| T_cycl := T_cycl self;
     theta := theta self;
     init := init self;
     have_induced_pert := have_induced_pert self;
     comm := comm self;
     numdof := numdof self;
     x_ := x_ self;
     c_ := c_ self;
     t_ := t_ self;
     fnc_ := fnc_ self;
     df_ := df_ self;
     f_ := f_ self;
     a_ := a_ self;
     Kdf_ := Kdf_ self;
     Kf_ := Kf_ self;
     df__ := v;
     f__ := f__ self;
     a__ := a__ self;
     Kdf__ := Kdf__ self;
     Kf__ := Kf__ self;
     R_vin_l_max := R_vin_l_max self;
     R_vin_l_min := R_vin_l_min self;
     R_vout_l_max := R_vout_l_max self;
     R_vout_l_min := R_vout_l_min self;
     varmap := varmap self;
     chmodels := chmodels self;
     cq := cq self;
     switch_V := switch_V self;
     switch_p := switch_p self;
     elastarrays := elastarrays self;
     eqtimearray := eqtimearray self;
     v_ids := v_ids self;
     c_ids := c_ids self;
     vindex_ch := vindex_ch self;
     cindex_ch := cindex_ch self;
     cname_prfx := cname_prfx self;
     vname_prfx := vname_prfx self;
     si := si self |}.
Definition set_f__ (self : cardiovascular0Dbase) v : cardiovascular0Dbase :=
  {| T_cycl := T_cycl self;
     theta := theta self;
     init := init self;
     have_induced_pert := have_induced_pert self;
     comm := comm self;
     numdof := numdof self;
     x_ := x_ self;
     c_ := c_ self;
     t_ := t_ self;
     fnc_ := fnc_ self;
     df_ := df_ self;
     f_ := f_ self;
     a_ := a_ self;
     Kdf_ := Kdf_ self;
     Kf_ := Kf_ self;
     df__ := df__ self;
     f__ := v;
     a__ := a__ self;
     Kdf__ := Kdf__ self;
     Kf__ := Kf__ self;
     R_vin_l_max := R_vin_l_max self;
     R_vin_l_min := R_vin_l_min self;
     R_vout_l_max := R_vout_l_max self;
     R_vout_l_min := R_vout_l_min self;
     varmap := varmap self;
     chmodels := chmodels self;
     cq := cq self;
     switch_V := switch_V self;
     switch_p := switch_p self;
     elastarrays := elastarrays self;
     eqtimearray := eqtimearray self;
     v_ids := v_ids self;
     c_ids := c_ids self;
     vindex_ch := vindex_ch self;
     cindex_ch := cindex_ch self;
     cname_prfx := cname_prfx self;
     vname_prfx := vname_prfx self;
     si := si self |}.
Definition set_a__ (self : cardiovascular0Dbase) v : cardiovascular0Dbase :=
  {| T_cycl := T_cycl self;
     theta := theta self;
     init := init self;
     have_induced_pert := have_induced_pert self;
     comm := comm self;
     numdof := numdof self;
     x_ := x_ self;
     c_ := c_ self;
     t_ := t_ self;
     fnc_ := fnc_ self;
     df_ := df_ self;
     f_ := f_ self;
     a_ := a_ self;
     Kdf_ := Kdf_ self;
     Kf_ := Kf_ self;
     df__ := df__ self;
     f__ := f__ self;
     a__ := v;
     Kdf__ := Kdf__ self;
     Kf__ := Kf__ self;
     R_vin_l_max := R_vin_l_max self;
     R_vin_l_min := R_vin_l_min self;
     R_vout_l_max := R_vout_l_max self;
     R_vout_l_min := R_vout_l_min self;
     varmap := varmap self;
     chmodels := chmodels self;
     cq := cq self;
     switch_V := switch_V self;
     switch_p := switch_p self;
     elastarrays := elastarrays self;
     eqtimearray := eqtimearray self;
     v_ids := v_ids self;
     c_ids := c_ids self;
     vindex_ch := vindex_ch self;
     cindex_ch := cindex_ch self;
     cname_prfx := cname_prfx self;
     vname_prfx := vname_prfx self;
     si := si self |}.
Definition set_Kdf__ (self : cardiovascular0Dbase) v : cardiovascular0Dbase :=
  {| T_cycl := T_cycl self;
     theta := theta self;
     init := init self;
     have_induced_pert := have_induced_pert self;
     comm := comm self;
     numdof := numdof self;
     x_ := x_ self;
     c_ := c_ self;
     t_ := t_ self;
     fnc_ := fnc_ self;
     df_ := df_ self;
     f_ := f_ self;
     a_ := a_ self;
     Kdf_ := Kdf_ self;
     Kf_ := Kf_ self;
     df__ := df__ self;
     f__ := f__ self;
     a__ := a__ self;
     Kdf__ := v;
     Kf__ := Kf__ self;
     R_vin_l_max := R_vin_l_max self;
     R_vin_l_min := R_vin_l_min self;
     R_vout_l_max := R_vout_l_max self;
     R_vout_l_min := R_vout_l_min self;
     varmap := varmap self;
     chmodels := chmodels self;
     cq := cq self;
     switch_V := switch_V self;
     switch_p := switch_p self;
     elastarrays := elastarrays self;
     eqtimearray := eqtimearray self;
     v_ids := v_ids self;
     c_ids := c_ids self;
     vindex_ch := vindex_ch self;
     cindex_ch := cindex_ch self;
     cname_prfx := cname_prfx self;
     vname_prfx := vname_prfx self;
     si := si self |}.
Definition set_Kf__ (self : cardiovascular0Dbase) v : cardiovascular0Dbase :=
  {| T_cycl := T_cycl self;
     theta := theta self;
     init := init self;
     have_induced_pert := have_induced_pert self;
     comm := comm self;
     numdof := numdof self;
     x_ := x_ self;
     c_ := c_ self;
     t_ := t_ self;
     fnc_ := fnc_ self;
     df_ := df_ self;
     f_ := f_ self;
     a_ := a_ self;
     Kdf_ := Kdf_ self;
     Kf_ := Kf_ self;
     df__ := df__ self;
     f__ := f__ self;
     a__ := a__ self;
     Kdf__ := Kdf__ self;
     Kf__ := v;
     R_vin_l_max := R_vin_l_max self;
     R_vin_l_min := R_vin_l_min self;
     R_vout_l_max := R_vout_l_max self;
     R_vout_l_min := R_vout_l_min self;
     varmap := varmap self;
     chmodels := chmodels self;
     cq := cq self;
     switch_V := switch_V self;
     switch_p := switch_p self;
     elastarrays := elastarrays self;
     eqtimearray := eqtimearray self;
     v_ids := v_ids self;
     c_ids := c_ids self;
     vindex_ch := vindex_ch self;
     cindex_ch := cindex_ch self;
     cname_prfx := cname_prfx self;
     vname_prfx := vname_prfx self;
     si := si self |}.
Definition set_R_vin_l_max (self : cardiovascular0Dbase) v : cardiovascular0Dbase :=
  {| T_cycl := T_cycl self;
     theta := theta self;
     init := init self;
     have_induced_pert := have_induced_pert self;
     comm := comm self;
     numdof := numdof self;
     x_ := x_ self;
     c_ := c_ self;
     t_ := t_ self;
     fnc_ := fnc_ self;
     df_ := df_ self;
     f_ := f_ self;
     a_ := a_ self;
     Kdf_ := Kdf_ self;
     Kf_ := Kf_ self;
     df__ := df__ self;
     f__ := f__ self;
     a__ := a__ self;
     Kdf__ := Kdf__ self;
     Kf__ := Kf__ self;
     R_vin_l_max := v;
     R_vin_l_min := R_vin_l_min self;
     R_vout_l_max := R_vout_l_max self;
     R_vout_l_min := R_vout_l_min self;
     varmap := varmap self;
     chmodels := chmodels self;
     cq := cq self;
     switch_V := switch_V self;
     switch_p := switch_p self;
     elastarrays := elastarrays self;
     eqtimearray := eqtimearray self;
     v_ids := v_ids self;
     c_ids := c_ids self;
     vindex_ch := vindex_ch self;
     cindex_ch := cindex_ch self;
     cname_prfx := cname_prfx self;
     vname_prfx := vname_prfx self;
     si := si self |}.
Definition set_R_vin_l_min (self : cardiovascular0Dbase) v : cardiovascular0Dbase :=
  {| T_cycl := T_cycl self;
     theta := theta self;
     init := init self;
     have_induced_pert := have_induced_pert self;
     comm := comm self;
     numdof := numdof self;
     x_ := x_ self;
     c_ := c_ self;
     t_ := t_ self;
     fnc_ := fnc_ self;
     df_ := df_ self;
     f_ := f_ self;
     a_ := a_ self;
     Kdf_ := Kdf_ self;
     Kf_ := Kf_ self;
     df__ := df__ self;
     f__ := f__ self;
     a__ := a__ self;
     Kdf__ := Kdf__ self;
     Kf__ := Kf__ self;
     R_vin_l_max := R_vin_l_max self;
     R_vin_l_min := v;
     R_vout_l_max := R_vout_l_max self;
     R_vout_l_min := R_vout_l_min self;
     varmap := varmap self;
     chmodels := chmodels self;
     cq := cq self;
     switch_V := switch_V self;
     switch_p := switch_p self;
     elastarrays := elastarrays self;
     eqtimearray := eqtimearray self;
     v_ids := v_ids self;
     c_ids := c_ids self;
     vindex_ch := vindex_ch self;
     cindex_ch := cindex_ch self;
     cname_prfx := cname_prfx self;
     vname_prfx := vname_prfx self;
     si := si self |}.
Definition set_R_vout_l_max (self : cardiovascular0Dbase) v : cardiovascular0Dbase :=
  {| T_cycl := T_cycl self;
     theta := theta self;
     init := init self;
     have_induced_pert := have_induced_pert self;
     comm := comm self;
     numdof := numdof self;
     x_ := x_ self;
     c_ := c_ self;
     t_ := t_ self;
     fnc_ := fnc_ self;
     df_ := df_ self;
     f_ := f_ self;
     a_ := a_ self;
     Kdf_ := Kdf_ self;
     Kf_ := Kf_ self;
     df__ := df__ self;
     f__ := f__ self;
     a__ := a__ self;
     Kdf__ := Kdf__ self;
     Kf__ := Kf__ self;
     R_vin_l_max := R_vin_l_max self;
     R_vin_l_min := R_vin_l_min self;
     R_vout_l_max := v;
     R_vout_l_min := R_vout_l_min self;
     varmap := varmap self;
     chmodels := chmodels self;
     cq := cq self;
     switch_V := switch_V self;
     switch_p := switch_p self;
     elastarrays := elastarrays self;
     eqtimearray := eqtimearray self;
     v_ids := v_ids self;
     c_ids := c_ids self;
     vindex_ch := vindex_ch self;
     cindex_ch := cindex_ch self;
     cname_prfx := cname_prfx self;
     vname_prfx := vname_prfx self;
     si := si self |}.
Definition set_R_vout_l_min (self : cardiovascular0Dbase) v : cardiovascular0Dbase :=
  {| T_cycl := T_cycl self;
     theta := theta self;
     init := init self;
     have_induced_pert := have_induced_pert self;
     comm := comm self;
     numdof := numdof self;
     x_ := x_ self;
     c_ := c_ self;
     t_ := t_ self;
     fnc_ := fnc_ self;
     df_ := df_ self;
     f_ := f_ self;
     a_ := a_ self;
     Kdf_ := Kdf_ self;
     Kf_ := Kf_ self;
     df__ := df__ self;
     f__ := f__ self;
     a__ := a__ self;
     Kdf__ := Kdf__ self;
     Kf__ := Kf__ self;
     R_vin_l_max := R_vin_l_max self;
     R_vin_l_min := R_vin_l_min self;
     R_vout_l_max := R_vout_l_max self;
     R_vout_l_min := v;
     varmap := varmap self;
     chmodels := chmodels self;
     cq := cq self;
     switch_V := switch_V self;
     switch_p := switch_p self;
     elastarrays := elastarrays self;
     eqtimearray := eqtimearray self;
     v_ids := v_ids self;
     c_ids := c_ids self;
     vindex_ch := vindex_ch self;
     cindex_ch := cindex_ch self;
     cname_prfx := cname_prfx self;
     vname_prfx := vname_prfx self;
     si := si self |}.
Definition set_switch_V (self : cardiovascular0Dbase) v : cardiovascular0Dbase :=
  {| T_cycl := T_cycl self;
     theta := theta self;
     init := init self;
     have_induced_pert := have_induced_pert self;
     comm := comm self;
     numdof := numdof self;
     x_ := x_ self;
     c_ := c_ self;
     t_ := t_ self;
     fnc_ := fnc_ self;
     df_ := df_ self;
     f_ := f_ self;
     a_ := a_ self;
     Kdf_ := Kdf_ self;
     Kf_ := Kf_ self;
     df__ := df__ self;
     f__ := f__ self;
     a__ := a__ self;
     Kdf__ := Kdf__ self;
     Kf__ := Kf__ self;
     R_vin_l_max := R_vin_l_max self;
     R_vin_l_min := R_vin_l_min self;
     R_vout_l_max := R_vout_l_max self;
     R_vout_l_min := R_vout_l_min self;
     varmap := varmap self;
     chmodels := chmodels self;
     cq := cq self;
     switch_V := v;
     switch_p := switch_p self;
     elastarrays := elastarrays self;
     eqtimearray := eqtimearray self;
     v_ids := v_ids self;
     c_ids := c_ids self;
     vindex_ch := vindex_ch self;
     cindex_ch := cindex_ch self;
     cname_prfx := cname_prfx self;
     vname_prfx := vname_prfx self;
     si := si self |}.
Definition set_switch_p (self : cardiovascular0Dbase) v : cardiovascular0Dbase :=
  {| T_cycl := T_cycl self;
     theta := theta self;
     init := init self;
     have_induced_pert := have_induced_pert self;
     comm := comm self;
     numdof := numdof self;
     x_ := x_ self;
     c_ := c_ self;
     t_ := t_ self;
     fnc_ := fnc_ self;
     df_ := df_ self;
     f_ := f_ self;
     a_ := a_ self;
     Kdf_ := Kdf_ self;
     Kf_ := Kf_ self;
     df__ := df__ self;
     f__ := f__ self;
     a__ := a__ self;
     Kdf__ := Kdf__ self;
     Kf__ := Kf__ self;
     R_vin_l_max := R_vin_l_max self;
     R_vin_l_min := R_vin_l_min self;
     R_vout_l_max := R_vout_l_max self;
     R_vout_l_min := R_vout_l_min self;
     varmap := varmap self;
     chmodels := chmodels self;
     cq := cq self;
     switch_V := switch_V self;
     switch_p := v;
     elastarrays := elastarrays self;
     eqtimearray := eqtimearray self;
     v_ids := v_ids self;
     c_ids := c_ids self;
     vindex_ch := vindex_ch self;
     cindex_ch := cindex_ch self;
     cname_prfx := cname_prfx self;
     vname_prfx := vname_prfx self;
     si := si self |}.
Definition set_elastarrays (self : cardiovascular0Dbase) v : cardiovascular0Dbase :=
  {| T_cycl := T_cycl self;
     theta := theta self;
     init := init self;
     have_induced_pert := have_induced_pert self;
     comm := comm self;
     numdof := numdof self;
     x_ := x_ self;
     c_ := c_ self;
     t_ := t_ self;
     fnc_ := fnc_ self;
     df_ := df_ self;
     f_ := f_ self;
     a_ := a_ self;
     Kdf_ := Kdf_ self;
     Kf_ := Kf_ self;
     df__ := df__ self;
     f__ := f__ self;
     a__ := a__ self;
     Kdf__ := Kdf__ self;
     Kf__ := Kf__ self;
     R_vin_l_max := R_vin_l_max self;
     R_vin_l_min := R_vin_l_min self;
     R_vout_l_max := R_vout_l_max self;
     R_vout_l_min := R_vout_l_min self;
     varmap := varmap self;
     chmodels := chmodels self;
     cq := cq self;
     switch_V := switch_V self;
     switch_p := switch_p self;
     elastarrays := v;
     eqtimearray := eqtimearray self;
     v_ids := v_ids self;
     c_ids := c_ids self;
     vindex_ch := vindex_ch self;
     cindex_ch := cindex_ch self;
     cname_prfx := cname_prfx self;
     vname_prfx := vname_prfx self;
     si := si self |}.
Definition set_eqtimearray (self : cardiovascular0Dbase) v : cardiovascular0Dbase :=
  {| T_cycl := T_cycl self;
     theta := theta self;
     init := init self;
     have_induced_pert := have_induced_pert self;
     comm := comm self;
     numdof := numdof self;
     x_ := x_ self;
     c_ := c_ self;
     t_ := t_ self;
     fnc_ := fnc_ self;
     df_ := df_ self;
     f_ := f_ self;
     a_ := a_ self;
     Kdf_ := Kdf_ self;
     Kf_ := Kf_ self;
     df__ := df__ self;
     f__ := f__ self;
     a__ := a__ self;
     Kdf__ := Kdf__ self;
     Kf__ := Kf__ self;
     R_vin_l_max := R_vin_l_max self;
     R_vin_l_min := R_vin_l_min self;
     R_vout_l_max := R_vout_l_max self;
     R_vout_l_min := R_vout_l_min self;
     varmap := varmap self;
     chmodels := chmodels self;
     cq := cq self;
     switch_V := switch_V self;
     switch_p := switch_p self;
     elastarrays := elastarrays self;
     eqtimearray := v;
     v_ids := v_ids self;
     c_ids := c_ids self;
     vindex_ch := vindex_ch self;
     cindex_ch := cindex_ch self;
     cname_prfx := cname_prfx self;
     vname_prfx := vname_prfx self;
     si := si self |}.
Definition set_v_ids (self : cardiovascular0Dbase) v : cardiovascular0Dbase :=
  {| T_cycl := T_cycl self;
     theta := theta self;
     init := init self;
     have_induced_pert := have_induced_pert self;
     comm := comm self;
     numdof := numdof self;
     x_ := x_ self;
     c_ := c_ self;
     t_ := t_ self;
     fnc_ := fnc_ self;
     df_ := df_ self;
     f_ := f_ self;
     a_ := a_ self;
     Kdf_ := Kdf_ self;
     Kf_ := Kf_ self;
     df__ := df__ self;
     f__ := f__ self;
     a__ := a__ self;
     Kdf__ := Kdf__ self;
     Kf__ := Kf__ self;
     R_vin_l_max := R_vin_l_max self;
     R_vin_l_min := R_vin_l_min self;
     R_vout_l_max := R_vout_l_max self;
     R_vout_l_min := R_vout_l_min self;
     varmap := varmap self;
     chmodels := chmodels self;
     cq := cq self;
     switch_V := switch_V self;
     switch_p := switch_p self;
     elastarrays := elastarrays self;
     eqtimearray := eqtimearray self;
     v_ids := v;
     c_ids := c_ids self;
     vindex_ch := vindex_ch self;
     cindex_ch := cindex_ch self;
     cname_prfx := cname_prfx self;
     vname_prfx := vname_prfx self;
     si := si self |}.
Definition set_c_ids (self : cardiovascular0Dbase) v : cardiovascular0Dbase :=
  {| T_cycl := T_cycl self;
     theta := theta self;
     init := init self;
     have_induced_pert := have_induced_pert self;
     comm := comm self;
     numdof := numdof self;
     x_ := x_ self;
     c_ := c_ self;
     t_ := t_ self;
     fnc_ := fnc_ self;
     df_ := df_ self;
     f_ := f_ self;
     a_ := a_ self;
     Kdf_ := Kdf_ self;
     Kf_ := Kf_ self;
     df__ := df__ self;
     f__ := f__ self;
     a__ := a__ self;
     Kdf__ := Kdf__ self;
     Kf__ := Kf__ self;
     R_vin_l_max := R_vin_l_max self;
     R_vin_l_min := R_vin_l_min self;
     R_vout_l_max := R_vout_l_max self;
     R_vout_l_min := R_vout_l_min self;
     varmap := varmap self;
     chmodels := chmodels self;
     cq := cq self;
     switch_V := switch_V self;
     switch_p := switch_p self;
     elastarrays := elastarrays self;
     eqtimearray := eqtimearray self;
     v_ids := v_ids self;
     c_ids := v;
     vindex_ch := vindex_ch self;
     cindex_ch := cindex_ch self;
     cname_prfx := cname_prfx self;
     vname_prfx := vname_prfx self;
     si := si self |}.
Definition set_cname_prfx (self : cardiovascular0Dbase) v : cardiovascular0Dbase :=
  {| T_cycl := T_cycl self;
     theta := theta self;
     init := init self;
     have_induced_pert := have_induced_pert self;
     comm := comm self;
     numdof := numdof self;
     x_ := x_ self;
     c_ := c_ self;
     t_ := t_ self;
     fnc_ := fnc_ self;
     df_ := df_ self;
     f_ := f_ self;
     a_ := a_ self;
     Kdf_ := Kdf_ self;
     Kf_ := Kf_ self;
     df__ := df__ self;
     f__ := f__ self;
     a__ := a__ self;
     Kdf__ := Kdf__ self;
     Kf__ := Kf__ self;
     R_vin_l_max := R_vin_l_max self;
     R_vin_l_min := R_vin_l_min self;
     R_vout_l_max := R_vout_l_max self;
     R_vout_l_min := R_vout_l_min self;
     varmap := varmap self;
     chmodels := chmodels self;
     cq := cq self;
     switch_V := switch_V self;
     switch_p := switch_p self;
     elastarrays := elastarrays self;
     eqtimearray := eqtimearray self;
     v_ids := v_ids self;
     c_ids := c_ids self;
     vindex_ch := vindex_ch self;
     cindex_ch := cindex_ch self;
     cname_prfx := v;
     vname_prfx := vname_prfx self;
     si := si self |}.
Definition set_vname_prfx (self : cardiovascular0Dbase) v : cardiovascular0Dbase :=
  {| T_cycl := T_cycl self;
     theta := theta self;
     init := init self;
     have_induced_pert := have_induced_pert self;
     comm := comm self;
     numdof := numdof self;
     x_ := x_ self;
     c_ := c_ self;
     t_ := t_ self;
     fnc_ := fnc_ self;
     df_ := df_ self;
     f_ := f_ self;
     a_ := a_ self;
     Kdf_ := Kdf_ self;
     Kf_ := Kf_ self;
     df__ := df__ self;
     f__ := f__ self;
     a__ := a__ self;
     Kdf__ := Kdf__ self;
     Kf__ := Kf__ self;
     R_vin_l_max := R_vin_l_max self;
     R_vin_l_min := R_vin_l_min self;
     R_vout_l_max := R_vout_l_max self;
     R_vout_l_min := R_vout_l_min self;
     varmap := varmap self;
     chmodels := chmodels self;
     cq := cq self;
     switch_V := switch_V self;
     switch_p := switch_p self;
     elastarrays := elastarrays self;
     eqtimearray := eqtimearray self;
     v_ids := v_ids self;
     c_ids := c_ids self;
     vindex_ch := vindex_ch self;
     cindex_ch := cindex_ch self;
     cname_prfx := cname_prfx self;
     vname_prfx := v;
     si := si self |}.
Definition set_si (self : cardiovascular0Dbase) v : cardiovascular0Dbase :=
  {| T_cycl := T_cycl self;
     theta := theta self;
     init := init self;
     have_induced_pert := have_induced_pert self;
     comm := comm self;
     numdof := numdof self;
     x_ := x_ self;
     c_ := c_ self;
     t_ := t_ self;
     fnc_ := fnc_ self;
     df_ := df_ self;
     f_ := f_ self;
     a_ := a_ self;
     Kdf_ := Kdf_ self;
     Kf_ := Kf_ self;
     df__ := df__ self;
     f__ := f__ self;
     a__ := a__ self;
     Kdf__ := Kdf__ self;
     Kf__ := Kf__ self;
     R_vin_l_max := R_vin_l_max self;
     R_vin_l_min := R_vin_l_min self;
     R_vout_l_max := R_vout_l_max self;
     R_vout_l_min := R_vout_l_min self;
     varmap := varmap self;
     chmodels := chmodels self;
     cq := cq self;
     switch_V := switch_V self;
     switch_p := switch_p self;
     elastarrays := elastarrays self;
     eqtimearray := eqtimearray self;
     v_ids := v_ids self;
     c_ids := c_ids self;
     vindex_ch := vindex_ch self;
     cindex_ch := cindex_ch self;
     cname_prfx := cname_prfx self;
     vname_prfx := vname_prfx self;
     si := v |}.

(** symbolic stiffness matrix contributions ddf_/dx, df_/dx *)
Definition set_stiffness_entry (i j : nat) (self : cardiovascular0Dbase)
  : result cardiovascular0Dbase :=
  dfi ← list_getitem (df_ self) i;
  xj ← list_getitem (x_ self) j;
  Kdf ← table_setitem (Kdf_ self) i j (sp_diff dfi xj);
  let self := set_Kdf_ self Kdf in
  fi ← list_getitem (f_ self) i;
  xj ← list_getitem (x_ self) j;
  Kf ← table_setitem (Kf_ self) i j (sp_diff fi xj);
  Ok (set_Kf_ self Kf).

Definition set_stiffness (self : cardiovascular0Dbase)
  : result cardiovascular0Dbase :=
  for_range 0 (numdof self)
    (fun i => for_range 0 (numdof self) (set_stiffness_entry i)) self.

(** The argument list [[self.x_, self.c_, self.t_, self.fnc_]] of [sp.lambdify]. *)
Definition lambdify_args (self : cardiovascular0Dbase) :=
  (x_ self, c_ self, t_ self, fnc_ self).

(** make Lambda functions out of symbolic Sympy expressions *)
Definition lambdify_vec_entry (i : nat) (self : cardiovascular0Dbase)
  : result cardiovascular0Dbase :=
  e ← list_getitem (df_ self) i;
  t ← list_setitem (df__ self) i (sp_lambdify (lambdify_args self) e);
  let self := set_df__ self t in
  e ← list_getitem (f_ self) i;
  t ← list_setitem (f__ self) i (sp_lambdify (lambdify_args self) e);
  let self := set_f__ self t in
  e ← list_getitem (a_ self) i;
  t ← list_setitem (a__ self) i (sp_lambdify (lambdify_args self) e);
  Ok (set_a__ self t).

Definition lambdify_mat_entry (i j : nat) (self : cardiovascular0Dbase)
  : result cardiovascular0Dbase :=
  e ← table_getitem (Kdf_ self) i j;
  T ← table_setitem (Kdf__ self) i j (sp_lambdify (lambdify_args self) e);
  let self := set_Kdf__ self T in
  e ← table_getitem (Kf_ self) i j;
  T ← table_setitem (Kf__ self) i j (sp_lambdify (lambdify_args self) e);
  Ok (set_Kf__ self T).

Definition lambdify_expressions (self : cardiovascular0Dbase)
  : result cardiovascular0Dbase :=
  self ← for_range 0 (numdof self) lambdify_vec_entry self;
  for_range 0 (numdof self)
    (fun i => for_range 0 (numdof self) (lambdify_mat_entry i)) self.

(** [index_prescribed in range(xs, xe)] *)
Definition in_range (idx : Z) (xs xe : nat) : bool :=
  (Z.of_nat xs <=? idx)%Z && (idx <? Z.of_nat xe)%Z.

(** set prescribed variable values *)
Definition set_prescribed_variables (self : cardiovascular0Dbase)
    (x r : vec) (K : mat) (val : Q) (index_prescribed : Z)
  : result (vec * mat) :=
  '(xs, xe) ← ownership x x;
  (* modification of rhs entry *)
  r' ← (if in_range index_prescribed xs xe
        then xi ← vec_getitem x (Z.to_nat index_prescribed);
             vec_setitem r (Z.to_nat index_prescribed) (xi - val)%Q
        else Ok r);
  (* modification of stiffness matrix *)
  K' ← for_range 0 (numdof self)
         (fun i K =>
            if (Z.of_nat i =? index_prescribed)%Z
            then for_range 0 (numdof self)
                   (fun j K =>
                      if negb (Z.of_nat j =? index_prescribed)%Z
                      then mat_setitem K i j 0%Q
                      else mat_setitem K i j 1%Q) K
            else Ok K) K;
  Ok (r', K').

(** compare A to B *)
Definition IsRelativeEqualTo (A B Ref : Q) : result bool :=
  q ← PyFloat.truediv (PyFloat.fabs (A - B)) Ref;
  Ok (PyFloat.ltb q (1 # 1000000000000)).

(** check of modulo is near zero *)
Definition ModuloIsRelativeZero (value modulo Ref : Q) : result bool :=
  m ← PyFloat.fmod (value + modulo / 2) modulo;
  IsRelativeEqualTo (m - modulo / 2) 0 Ref.

(** *** Initial-condition files

    The file system is a map from path to text content. *)

(** [list(self.varmap.keys())[i]] and [list(self.varmap.values())[i]] *)
Definition varmap_key (self : cardiovascular0Dbase) (i : nat) : result string :=
  list_getitem ((varmap self).*1) i.
Definition varmap_value (self : cardiovascular0Dbase) (i : nat) : result nat :=
  list_getitem ((varmap self).*2) i.

(** ['%s %.16E\n' % (name, value)] *)
Definition initial_line (name : string) (value : Q) : string :=
  name +:+ " " +:+ PyText.format_16E value +:+ String "010"%char "".

(** One round of the loop of [write_initial]; the state is the text
    written so far to [f1] and [f2]. *)
Definition write_initial_entry (self : cardiovascular0Dbase)
    (varTc_old_sq varTc_sq : vec) (i : nat) (f : string * string)
  : result (string * string) :=
  k1 ← varmap_key self i;
  j1 ← varmap_value self i;
  v1 ← vec_getitem varTc_old_sq j1;
  let f1 := f.1 +:+ initial_line (k1 +:+ "_0") v1 in
  k2 ← varmap_key self i;
  j2 ← varmap_value self i;
  v2 ← vec_getitem varTc_sq j2;
  let f2 := f.2 +:+ initial_line (k2 +:+ "_0") v2 in
  Ok (f1, f2).

(** to write initial conditions (i.e. after a model has reached periodcity) *)
Definition write_initial (self : cardiovascular0Dbase)
    (fs : gmap string string) (path : string) (varTc_old varTc : vec)
  : result (gmap string string) :=
  '(varTc_old_sq, varTc_sq) ←
    (if isinstance_ndarray varTc_old then Ok (varTc_old, varTc)
     else a ← squeeze self varTc_old; b ← squeeze self varTc;
          Ok (NdArray a, NdArray b));
  rank ← match comm self with Some r => Ok r | None => Raise AttributeError end;
  if (rank =? 0)%Z then
    let filename1 := path +:+ "/initial_data_Tstart.txt" in
    let filename2 := path +:+ "/initial_data_Tend.txt" in
    '(f1, f2) ← for_range 0 (length (varmap self))
                  (write_initial_entry self varTc_old_sq varTc_sq) ("", "");
    Ok (<[filename2 := f2]> (<[filename1 := f1]> fs))
  else Ok fs.

(** One round of the loop of [set_initial_from_file]:
    [(key, val) = line.split(); pini0D[key] = float(val)]. *)
Definition read_initial_line (pini0D : gmap string Q) (line : string)
  : result (gmap string Q) :=
  match PyText.split line with
  | [key; val] => v ← PyText.float val; Ok (<[key := v]> pini0D)
  | _ => Raise ValueError
  end.

Fixpoint read_initial_lines (pini0D : gmap string Q) (ls : list string)
  : result (gmap string Q) :=
  match ls with
  | [] => Ok pini0D
  | line :: ls' => d ← read_initial_line pini0D line; read_initial_lines d ls'
  end.

(** if we want to set the initial conditions from a txt file *)
Definition set_initial_from_file (fs : gmap string string) (initialdata : string)
  : result (gmap string Q) :=
  match fs !! initialdata with
  | None => Raise FileNotFoundError
  | Some text => read_initial_lines ∅ (PyText.lines text)
  end.

(** *** Cardiac cycle periodicity *)

(** The objects [cycle_check] mutates: the two snapshots, the one-element
    lists [cycle] and [cyclerr], and the file system. *)
Record cycle_state : Type := {
  cs_varTc : vec;
  cs_varTc_old : vec;
  cs_cycle : list Z;
  cs_cyclerr : list Q;
  cs_fs : gmap string string
}.

(** [for i in range(vs, ve): dst[i] = src[i]] *)
Definition copy_range (vs ve : nat) (src dst : vec) : result vec :=
  for_range vs (ve - vs)
    (fun i dst => x ← vec_getitem src i; vec_setitem dst i x) dst.

(** check for cardiac cycle periodcity *)
Definition cycle_check (self : cardiovascular0Dbase) (fs : gmap string string)
    (var varTc varTc_old : vec) (t : Q) (cycle : list Z) (cyclerr : list Q)
    (eps_periodic : Q) (check : string) (inioutpath : option string)
    (induce_pert_after_cycl : Z)
  : result (bool * cycle_state) :=
  '(vs, ve) ← ownership varTc var;
  let is_periodic := false in
  boundary ← (if PyFloat.gtb (T_cycl self) 0
              then ModuloIsRelativeZero t (T_cycl self) t
              else Ok false);
  if boundary : bool then
    varTc ← copy_range vs ve var varTc;
    '(is_periodic, cyclerr) ←
      check_periodic self varTc varTc_old eps_periodic check cyclerr;
    (* definitely should not be True if we've not yet surpassed the
       "disease induction" cycle *)
    c0 ← list_getitem cycle 0;
    let is_periodic :=
      if (c0 <=? induce_pert_after_cycl)%Z then false else is_periodic in
    fs ← match inioutpath with
         | Some path =>
             if is_periodic : bool
             then write_initial self fs path varTc_old varTc else Ok fs
         | None => Ok fs
         end;
    varTc_old ← copy_range vs ve varTc varTc_old;
    (* update cycle counter *)
    c0 ← list_getitem cycle 0;
    cycle ← list_setitem cycle 0 (c0 + 1)%Z;
    Ok (is_periodic,
        {| cs_varTc := varTc; cs_varTc_old := varTc_old; cs_cycle := cycle;
           cs_cyclerr := cyclerr; cs_fs := fs |})
  else
    Ok (is_periodic,
        {| cs_varTc := varTc; cs_varTc_old := varTc_old; cs_cycle := cycle;
           cs_cyclerr := cyclerr; cs_fs := fs |}).

(** *** Chamber interfaces and disease perturbation *)

(** [self.switch_V[i], self.switch_p[i] = a, b] *)
Definition set_switches (i : nat) (a b : Z) (self : cardiovascular0Dbase)
  : result cardiovascular0Dbase :=
  sV ← list_setitem (switch_V self) i a;
  let self := set_switch_V self sV in
  sp ← list_setitem (switch_p self) i b;
  Ok (set_switch_p self sp).

(** [self.cname_prfx[i] = c; self.vname_prfx[i] = v] *)
Definition set_prefixes (i : nat) (c v : string) (self : cardiovascular0Dbase)
  : result cardiovascular0Dbase :=
  cn ← list_setitem (cname_prfx self) i c;
  let self := set_cname_prfx self cn in
  vn ← list_setitem (vname_prfx self) i v;
  Ok (set_vname_prfx self vn).

(** The body of the loop over chambers of [set_chamber_interfaces]. *)
Definition set_chamber_interface (i : nat) (ch : string)
    (self : cardiovascular0Dbase) : result cardiovascular0Dbase :=
  model ← match chmodels self !! ch with
          | Some m => Ok m
          | None => Raise KeyError
          end;
  if bool_decide (model = "prescr_elast") then
    self ← set_switches i 1 0 self;
    '(ea, eqt) ← set_prescribed_elastance self ch;
    els ← list_setitem (elastarrays self) i ea;
    Ok (set_eqtimearray (set_elastarrays self els) eqt)
  else if bool_decide (model = "0D_elast") then
    set_switches i 1 0 self
  else if bool_decide (model = "3D_fem") then
    if bool_decide (cq self = "volume") then
      v ← list_getitem (vindex_ch self) i;
      let self := set_v_ids self (v_ids self ++ [v]) in
      c ← list_getitem (cindex_ch self) i;
      Ok (set_c_ids self (c_ids self ++ [c]))
    else if bool_decide (cq self = "flux") then
      self ← set_switches i 0 0 self;
      self ← set_prefixes i "Q" "p" self;
      v ← list_getitem (vindex_ch self) i;
      let self := set_v_ids self (v_ids self ++ [v]) in
      c ← list_getitem (cindex_ch self) i;
      Ok (set_c_ids self (c_ids self ++ [c]))
    else if bool_decide (cq self = "pressure") then
      self ← set_switches i 0 1 self;
      self ← set_prefixes i "p" "Q" self;
      (* switch indices of pressure / outflux *)
      s ← list_setitem (si self) i 1%Z;
      let self := set_si self s in
      v ← list_getitem (vindex_ch self) i;
      s ← list_getitem (si self) i;
      let self := set_v_ids self (v_ids self ++ [(v - s)%Z]) in
      Ok (set_c_ids self (c_ids self ++ [Z.of_nat i]))
    else Raise NameError
  else Raise NameError.

(** set chamber interfaces according to case and coupling quantity *)
Definition set_chamber_interfaces (self : cardiovascular0Dbase)
  : result cardiovascular0Dbase :=
  self ← set_chamber_interface 0 "lv" self;
  self ← set_chamber_interface 1 "rv" self;
  self ← set_chamber_interface 2 "la" self;
  set_chamber_interface 3 "ra" self.

(** What [induce_perturbation] does besides assigning attributes, in the
    order it does it. *)
Inductive call : Type :=
  | call_print (perturb_type : string)
  | call_setup_arrays
  | call_set_chamber_interfaces
  | call_equation_map
  | call_set_stiffness
  | call_lambdify_expressions.

#[global] Instance call_eq_dec : EqDecision call.
Proof. solve_decision. Defined.

(** Runs the method [m] and records the call. *)
Definition invoke (c : call)
    (m : cardiovascular0Dbase -> result cardiovascular0Dbase)
    (st : cardiovascular0Dbase * list call)
  : result (cardiovascular0Dbase * list call) :=
  self ← m st.1; Ok (self, st.2 ++ [c]).

(** The four [if perturb_type == ..: self.R_.. = ..] statements. *)
Definition perturb_parameters (perturb_type : string)
    (self : cardiovascular0Dbase) : cardiovascular0Dbase :=
  let self := if bool_decide (perturb_type = "mr")
              then set_R_vin_l_max self (1 # 100000) else self in
  let self := if bool_decide (perturb_type = "ms")
              then set_R_vin_l_min self (25 # 1000000) else self in
  let self := if bool_decide (perturb_type = "ar")
              then set_R_vout_l_max self (5 # 100000) else self in
  let self := if bool_decide (perturb_type = "as")
              then set_R_vout_l_min self (5 # 100000) else self in
  self.

(** some perturbations/diseases we want to simulate (mr: mitral
    regurgitation, ms: mitral stenosis, ar: aortic regurgitation,
    as: aortic stenosis) *)
Definition induce_perturbation (self : cardiovascular0Dbase)
    (perturb_type : string) (cycle induce_pert_after_cycl : Z)
  : result (cardiovascular0Dbase * list call) :=
  if (0 <? induce_pert_after_cycl)%Z && negb (have_induced_pert self) then
    if (induce_pert_after_cycl <? cycle)%Z then
      rank ← match comm self with Some r => Ok r | None => Raise AttributeError end;
      let log := if (rank =? 0)%Z then [call_print perturb_type] else [] in
      let self := perturb_parameters perturb_type self in
      (* arrays need re-initialization, expressions have to be re-set *)
      st ← invoke call_setup_arrays setup_arrays (self, log);
      st ← invoke call_set_chamber_interfaces set_chamber_interfaces st;
      st ← invoke call_equation_map equation_map st;
      st ← invoke call_set_stiffness set_stiffness st;
      st ← invoke call_lambdify_expressions lambdify_expressions st;
      Ok (set_have_induced_pert st.1 true, st.2)
    else Ok (self, [])
  else Ok (self, []).

End Flow0D.

(** time-varying elastance (on reals, because of [np.cos]) *)
Definition E_t (E_A E_min t t0 act_dur : R) : result R :=
  y ← (if Rle_dec t0 t then
         if Rle_dec t (t0 + act_dur) then
           if Req_EM_T act_dur 0 then Raise ZeroDivisionError
           else Ok (0.5 * (1 - cos (2 * PI * (t - t0) / act_dur)))%R
         else Ok 0%R
       else Ok 0%R);
  Ok (E_A * y + E_min)%R.

(** ** The Newton loop of [solver_nonlinear] and
       [solver_nonlinear_constraint_monolithic]

    Both [newton] methods share the control flow modelled here; they differ
    in the blocks they assemble, which is the collaborator's business. *)

(** Norms of one Newton iteration: [resnorms['res_u']], [incnorms['inc_u']]
    and the entries of the further blocks ([res_p], [res_0d], ...). *)
Record norms : Type := {
  res_u : Q;
  inc_u : Q;
  res_more : gmap string Q;
  inc_more : gmap string Q
}.

Definition resnorms (n : norms) : gmap string Q := <["res_u" := res_u n]> (res_more n).
Definition incnorms (n : norms) : gmap string Q := <["inc_u" := inc_u n]> (inc_more n).

(** What the loop needs from the finite-element side, from [sol_utils] and
    from [np.random]. *)
Class NewtonProblem : Type := {
  (* the solution vectors [u], [p], [s]: what [newton] duplicates on entry
     ([u_start], [p_start], [s_start]) and [reset_step] writes back *)
  vectors : Type;
  (* what a pass updates besides and no reset writes back: the Lagrange
     multipliers [self.pbc.lm], the local variables of [newton_local], and
     what the assembly stores on the solver object ([self.K_ss],
     [self.offsetp], [self.offset0D]) *)
  internals : Type;
  (* state of the random generator *)
  rng : Type;
  (* assemble residual and tangent (shifted by [k_PTC] when [PTC] is on),
     solve the linear system, update the vectors and the internals *)
  linearise_and_update :
    bool -> Q -> vectors * internals -> result (norms * (vectors * internals));
  (* [sol_utils.catch_solver_errors(resnorm, incnorm, maxval)] *)
  catch_solver_errors : Q -> Q -> Q -> bool;
  (* [sol_utils.check_converged(resnorms, incnorms, tolerances)] *)
  check_converged : gmap string Q -> gmap string Q -> gmap string Q -> bool;
  (* [np.random.uniform(low, high)] *)
  random_uniform : Q -> Q -> rng -> Q * rng
}.

(** Everything a pass reads and updates. *)
Definition unknowns `{NewtonProblem} : Type := (vectors * internals)%type.


(** The attributes of the solver object that steer the loop of [newton].
    What [newton] stores on the object while it assembles ([self.K_ss],
    [self.offsetp], [self.offset0D]) is not here: it belongs to the
    [internals] of the problem. *)
Record solver_nonlinear : Type := {
  maxiter : Z;
  divcont : option string;
  PTC : bool;
  k_PTC_initial : Q;
  PTC_randadapt_range : list Q;
  tolerances : gmap string Q
}.

Definition set_maxiter (self : solver_nonlinear) (v : Z) : solver_nonlinear :=
  {| maxiter := v; divcont := divcont self; PTC := PTC self;
     k_PTC_initial := k_PTC_initial self;
     PTC_randadapt_range := PTC_randadapt_range self;
     tolerances := tolerances self |}.

Definition set_PTC (self : solver_nonlinear) (v : bool) : solver_nonlinear :=
  {| maxiter := maxiter self; divcont := divcont self; PTC := v;
     k_PTC_initial := k_PTC_initial self;
     PTC_randadapt_range := PTC_randadapt_range self;
     tolerances := tolerances self |}.

Definition max_adapt : Z := 50.
Definition maxresval : Q := inject_Z (10 ^ 16).

Section Newton.
Context {problem : NewtonProblem}.

(** Local variables of [newton] and the objects it mutates.
    [struct_res_u_norm_last] is unbound until the first iteration has run. *)
Record newton_state : Type := {
  self_ : solver_nonlinear;
  u_ : unknowns;
  g_ : rng;
  it_ : Z;
  k_PTC_ : Q;
  counter_adapt_ : Z;
  struct_res_u_norm_last_ : option Q
}.

(** [self.divcont == 'PTC'] *)
Definition divcont_is_PTC (self : solver_nonlinear) : bool :=
  bool_decide (divcont self = Some "PTC").

(** [if self.PTC and it > 1 and struct_res_u_norm_last > 0.:
       k_PTC *= resnorms['res_u']/struct_res_u_norm_last]
    with [it] already incremented. *)
Definition ptc_update (self : solver_nonlinear) (it : Z) (k_PTC : Q)
    (struct_res_u_norm_last : option Q) (res : Q) : result Q :=
  if PTC self && (1 <? it)%Z then
    last ← match struct_res_u_norm_last with
           | Some l => Ok l
           | None => Raise NameError
           end;
    if PyFloat.gtb last 0 then
      ratio ← PyFloat.truediv res last; Ok (k_PTC * ratio)%Q
    else Ok k_PTC
  else Ok k_PTC.

(** [reset_step(vec, vec_start, ghosted)]:
    [vec.axpby(1.0, 0.0, vec_start)]. *)
Definition reset_step (vec vec_start : vectors) : vectors := vec_start.

(** The block [if err: ...]: reset Newton step.  The calls of
    [reset_step] are made on [u], [p] and [s] only. *)
Definition reset_newton (u_start : vectors) (st : newton_state)
  : result newton_state :=
  let self := set_PTC (self_ st) true in
  let k_PTC := k_PTC_initial self in
  low ← list_getitem (PTC_randadapt_range self) 0;
  high ← list_getitem (PTC_randadapt_range self) 1;
  let '(r, g) := random_uniform low high (g_ st) in
  Ok {| self_ := self; u_ := (reset_step (u_ st).1 u_start, (u_ st).2);
        g_ := g; it_ := 0;
        k_PTC_ := (k_PTC * r)%Q;
        counter_adapt_ := (counter_adapt_ st + 1)%Z;
        struct_res_u_norm_last_ := struct_res_u_norm_last_ st |}.

(** The block [if self.divcont=='PTC': ...]: adaptive PTC. *)
Definition adaptive_ptc (u_start : vectors) (n : norms) (st : newton_state)
  : result newton_state :=
  if divcont_is_PTC (self_ st) then
    let st := {| self_ := set_maxiter (self_ st) 250; u_ := u_ st; g_ := g_ st;
                 it_ := it_ st; k_PTC_ := k_PTC_ st;
                 counter_adapt_ := counter_adapt_ st;
                 struct_res_u_norm_last_ := struct_res_u_norm_last_ st |} in
    if catch_solver_errors (res_u n) (inc_u n) maxresval
    then reset_newton u_start st
    else Ok st
  else Ok st.

(** The block [if converged: ...] before [break]. *)
Definition on_converged (st : newton_state) : newton_state :=
  if divcont_is_PTC (self_ st) then
    {| self_ := set_PTC (self_ st) false; u_ := u_ st; g_ := g_ st;
       it_ := it_ st; k_PTC_ := k_PTC_ st; counter_adapt_ := 0;
       struct_res_u_norm_last_ := struct_res_u_norm_last_ st |}
  else st.

(** One pass through the body of the [while] loop; the boolean tells
    whether the pass ended in [break]. *)
Definition newton_iteration (u_start : vectors) (st : newton_state)
  : result (newton_state * bool) :=
  '(n, u) ← linearise_and_update (PTC (self_ st)) (k_PTC_ st) (u_ st);
  let it := (it_ st + 1)%Z in
  (* for PTC *)
  k_PTC ← ptc_update (self_ st) it (k_PTC_ st) (struct_res_u_norm_last_ st) (res_u n);
  let st := {| self_ := self_ st; u_ := u; g_ := g_ st; it_ := it;
               k_PTC_ := k_PTC; counter_adapt_ := counter_adapt_ st;
               struct_res_u_norm_last_ := Some (res_u n) |} in
  (* adaptive PTC (for 3D block K_uu only!) *)
  st ← adaptive_ptc u_start n st;
  (* check if converged *)
  if check_converged (resnorms n) (incnorms n) (tolerances (self_ st))
  then Ok (on_converged st, true)
  else Ok (st, false).

(** [while it < self.maxiter and counter_adapt < max_adapt: ... else: raise].
    [None] means the fuel ran out. *)
Fixpoint newton_loop (fuel : nat) (u_start : vectors) (st : newton_state)
  : option (result newton_state) :=
  if (it_ st <? maxiter (self_ st))%Z && (counter_adapt_ st <? max_adapt)%Z then
    match fuel with
    | O => None
    | S fuel' =>
        match newton_iteration u_start st with
        | Raise e => Some (Raise e)
        | Ok (st', true) => Some (Ok st')
        | Ok (st', false) => newton_loop fuel' u_start st'
        end
    end
  else Some (Raise (RuntimeError (it_ st))).

(** Passes through the loop body are bounded: [it] stays below the largest
    value [maxiter] can take and there are at most [max_adapt] resets. *)
Definition newton_fuel (self : solver_nonlinear) : nat :=
  Z.to_nat ((max_adapt + 1) * (Z.max (maxiter self) 250 + 1)).

Definition newton_init (self : solver_nonlinear) (u : unknowns) (g : rng)
  : newton_state :=
  {| self_ := self; u_ := u; g_ := g; it_ := 0;
     k_PTC_ := k_PTC_initial self; counter_adapt_ := 0;
     struct_res_u_norm_last_ := None |}.

(** [newton(u, p, ...)]: the start vectors are copies of the solution
    vectors on entry. *)
Definition newton (self : solver_nonlinear) (u : unknowns) (g : rng)
  : option (result newton_state) :=
  newton_loop (newton_fuel self) u.1 (newton_init self u g).

End Newton.

(** ** A small concrete instance

    A polynomial expression engine standing for sympy, a single process
    standing for MPI, and a two-unknown model: enough to run every method
    above on concrete data. *)

Module Demo.

Inductive sexpr : Type :=
  | SConst (q : Q)
  | SX (i : nat)
  | SC (i : nat)
  | ST
  | SFnc (i : nat)
  | SAdd (a b : sexpr)
  | SMul (a b : sexpr).

(** Partial derivative with respect to the unknown [x_k]. *)
Fixpoint sdiff (k : nat) (e : sexpr) : sexpr :=
  match e with
  | SX i => if (i =? k)%nat then SConst 1 else SConst 0
  | SAdd a b => SAdd (sdiff k a) (sdiff k b)
  | SMul a b => SAdd (SMul (sdiff k a) b) (SMul a (sdiff k b))
  | _ => SConst 0
  end.

Fixpoint seval (e : sexpr) (x c : list Q) (t : Q) (fnc : list Q) : Q :=
  match e with
  | SConst q => q
  | SX i => nth i x 0%Q
  | SC i => nth i c 0%Q
  | ST => t
  | SFnc i => nth i fnc 0%Q
  | SAdd a b => (seval a x c t fnc + seval b x c t fnc)%Q
  | SMul a b => (seval a x c t fnc * seval b x c t fnc)%Q
  end.

#[global] Instance sympy : Sympy := {|
  expr := sexpr;
  sp_diff e v := match v with SX k => sdiff k e | _ => SConst 0 end;
  sp_lambdify _ e := seval e
|}.

#[global] Instance mpi : Mpi := {|
  allgather_vec v := match v with NdArray a => a | PetscVec _ a => a end
|}.

(** Largest entry of [|a_i - b_i| / max(1, |b_i|)]. *)
Fixpoint max_rel_diff (a b : list Q) : Q :=
  match a, b with
  | x :: a', y :: b' =>
      Qmax (Qabs (x - y) / Qmax 1 (Qabs y)) (max_rel_diff a' b')
  | _, _ => 0
  end.

(** The governing equations of the demo model:
    [d(C x0)/dt + (x0 - x1)/R = 0] and [x1 - fnc0 = 0], with
    [1/R = R_vin_l_min].  *)
Definition demo_equation_map (self : cardiovascular0Dbase)
  : result cardiovascular0Dbase :=
  Ok {| T_cycl := T_cycl self; theta := theta self; init := init self;
        have_induced_pert := have_induced_pert self; comm := comm self;
        numdof := numdof self;
        x_ := [SX 0; SX 1]; c_ := []; t_ := ST; fnc_ := [SFnc 0];
        df_ := [SMul (SConst 2) (SX 0); SConst 0];
        f_ := [SMul (SConst (R_vin_l_min self))
                 (SAdd (SX 0) (SMul (SConst (-1)) (SX 1)));
               SAdd (SX 1) (SMul (SConst (-1)) (SFnc 0))];
        a_ := [SX 0; SX 1];
        Kdf_ := Kdf_ self; Kf_ := Kf_ self;
        df__ := df__ self; f__ := f__ self; a__ := a__ self;
        Kdf__ := Kdf__ self; Kf__ := Kf__ self;
        R_vin_l_max := R_vin_l_max self; R_vin_l_min := R_vin_l_min self;
        R_vout_l_max := R_vout_l_max self; R_vout_l_min := R_vout_l_min self;
        varmap := varmap self; chmodels := chmodels self; cq := cq self;
        switch_V := switch_V self; switch_p := switch_p self;
        elastarrays := elastarrays self; eqtimearray := eqtimearray self;
        v_ids := v_ids self; c_ids := c_ids self;
        vindex_ch := vindex_ch self; cindex_ch := cindex_ch self;
        cname_prfx := cname_prfx self; vname_prfx := vname_prfx self;
        si := si self |}.

#[global] Instance derived : DerivedModel := {|
  setup_arrays self := Ok self;
  equation_map := demo_equation_map;
  set_prescribed_elastance _ _ := Ok ([], []);
  check_periodic _ varTc varTc_old eps _ cyclerr :=
    let err := max_rel_diff (allgather_vec varTc) (allgather_vec varTc_old) in
    cyclerr' ← list_setitem cyclerr 0 err;
    Ok (Qle_bool err eps, cyclerr')
|}.

Definition zero_fn : callable := fun _ _ _ _ => 0%Q.

(** A freshly set up model: tables allocated, nothing built yet. *)
Definition blank : cardiovascular0Dbase :=
  {| T_cycl := 1; theta := 1 # 2; init := true;
     have_induced_pert := false; comm := Some 0%Z; numdof := 2;
     x_ := [SX 0; SX 1]; c_ := []; t_ := ST; fnc_ := [];
     df_ := [SConst 0; SConst 0]; f_ := [SConst 0; SConst 0];
     a_ := [SConst 0; SConst 0];
     Kdf_ := [[SConst 0; SConst 0]; [SConst 0; SConst 0]];
     Kf_ := [[SConst 0; SConst 0]; [SConst 0; SConst 0]];
     df__ := [zero_fn; zero_fn]; f__ := [zero_fn; zero_fn];
     a__ := [zero_fn; zero_fn];
     Kdf__ := [[zero_fn; zero_fn]; [zero_fn; zero_fn]];
     Kf__ := [[zero_fn; zero_fn]; [zero_fn; zero_fn]];
     R_vin_l_max := 3; R_vin_l_min := 4;
     R_vout_l_max := 5; R_vout_l_min := 6;
     varmap := [("q_vin_l", 0%nat); ("p_v_l", 1%nat)];
     chmodels := {["lv" := "0D_elast"; "rv" := "0D_elast";
                   "la" := "0D_elast"; "ra" := "0D_elast"]};
     cq := "volume";
     switch_V := [0; 0; 0; 0]%Z; switch_p := [0; 0; 0; 0]%Z;
     elastarrays := [[]; []; []; []]; eqtimearray := [];
     v_ids := []; c_ids := [];
     vindex_ch := [0; 1; 2; 3]%Z; cindex_ch := [0; 1; 2; 3]%Z;
     cname_prfx := ["V"; "V"; "V"; "V"]; vname_prfx := ["p"; "p"; "p"; "p"];
     si := [0; 0; 0; 0]%Z |}.

(** The model after its constructor has built and compiled the equations. *)
Definition model : cardiovascular0Dbase :=
  Eval vm_compute in
  match (s ← equation_map blank; s ← set_stiffness s; lambdify_expressions s) with
  | Ok s => s
  | Raise _ => blank
  end.

(** The model once [equation_map] has set the equations: the Jacobian
    tables and the compiled tables are still those of the allocation. *)
Definition equations_set : cardiovascular0Dbase :=
  Eval vm_compute in
  match equation_map blank with
  | Ok s => s
  | Raise _ => blank
  end.

(** The same after [set_stiffness]: nothing is compiled yet. *)
Definition differentiated : cardiovascular0Dbase :=
  Eval vm_compute in
  match set_stiffness equations_set with
  | Ok s => s
  | Raise _ => blank
  end.

(** A linear congruential stand-in for [np.random.uniform]. *)
Definition lcg_uniform (low high : Q) (g : Z) : Q * Z :=
  let g' := ((1103515245 * g + 12345) mod 2147483648)%Z in
  ((low + (high - low) * (g' # 2147483648))%Q, g').

(** A scalar Newton problem: [x^2 - 2 = 0]. *)
Definition scalar_step (ptc : bool) (k x : Q) : result (norms * Q) :=
  let r := (x * x - 2)%Q in
  let K := (2 * x + (if ptc then k else 0))%Q in
  d ← PyFloat.truediv (- r) K;
  Ok ({| res_u := Qabs r; inc_u := Qabs d; res_more := ∅; inc_more := ∅ |},
      Qred (x + d)%Q).

Definition scalar_converged (res inc tol : gmap string Q) : bool :=
  match res !! "res_u", inc !! "inc_u", tol !! "res_u", tol !! "inc_u" with
  | Some r, Some i, Some tr, Some ti => PyFloat.ltb r tr && PyFloat.ltb i ti
  | _, _, _, _ => false
  end.

#[global] Instance scalar_problem : NewtonProblem := {|
  vectors := Q;
  internals := unit;
  rng := Z;
  linearise_and_update ptc k u := '(n, x) ← scalar_step ptc k u.1; Ok (n, (x, u.2));
  catch_solver_errors res inc maxval := negb (PyFloat.ltb res maxval);
  check_converged := scalar_converged;
  random_uniform := lcg_uniform
|}.

Definition solver : solver_nonlinear :=
  {| maxiter := 25; divcont := None; PTC := false; k_PTC_initial := 1 # 10;
     PTC_randadapt_range := [85 # 100; 135 # 100];
     tolerances := {["res_u" := 1 # 100000000; "inc_u" := 1 # 100000000]} |}.


(** A solver with continuation and PTC switched on. *)
Definition ptc_solver : solver_nonlinear :=
  {| maxiter := 25; divcont := Some "PTC"; PTC := true; k_PTC_initial := 1 # 10;
     PTC_randadapt_range := [85 # 100; 135 # 100];
     tolerances := {["res_u" := 1 # 100000000; "inc_u" := 1 # 100000000]} |}.

(** A loop state of [ptc_solver] in its second pass, at the unknown [x]. *)
Definition second_pass (x : Q) : newton_state :=
  {| self_ := ptc_solver; u_ := (x, tt); g_ := 7%Z; it_ := 1; k_PTC_ := 1 # 10;
     counter_adapt_ := 0; struct_res_u_norm_last_ := Some 2%Q |}.

(** A second problem: Newton on [x^2 - 2 = 0] with the iterate kept to
    three decimals, and a counter that stands for the Lagrange
    multipliers: every pass updates it. *)
Definition three_decimals (q : Q) : Q := Qfloor (q * 1000) # 1000.

Definition coupled_step (ptc : bool) (k : Q) (u : Q * Z)
  : result (norms * (Q * Z)) :=
  '(n, x) ← scalar_step ptc k u.1;
  Ok (n, (three_decimals x, (u.2 + 1)%Z)).

Definition coupled_problem : NewtonProblem := {|
  vectors := Q;
  internals := Z;
  rng := Z;
  linearise_and_update := coupled_step;
  catch_solver_errors res inc maxval := negb (PyFloat.ltb res maxval);
  check_converged := scalar_converged;
  random_uniform := lcg_uniform
|}.

(** Continuation configured, PTC off until a pass is flagged. *)
Definition continuing_solver : solver_nonlinear :=
  {| maxiter := 25; divcont := Some "PTC"; PTC := false; k_PTC_initial := 1 # 10;
     PTC_randadapt_range := [85 # 100; 135 # 100];
     tolerances := {["res_u" := 1 # 100; "inc_u" := 1 # 100]} |}.


End Demo.

(** ** Time stepping of the 0D model *)

Section Flow0D_time_stepping.
Context {sympy_engine : Sympy}.

(** One round of the loop of [update]: the four assignments
    [var_old[i] = var[i]; df_old[i] = df[i]; f_old[i] = f[i];
     aux_old[i] = aux[i]]. *)
Definition update_entry (var df f aux : vec) (i : nat)
    (old : vec * vec * vec * vec) : result (vec * vec * vec * vec) :=
  let '(var_old, df_old, f_old, aux_old) := old in
  x ← vec_getitem var i;
  var_old ← vec_setitem var_old i x;
  x ← vec_getitem df i;
  df_old ← vec_setitem df_old i x;
  x ← vec_getitem f i;
  f_old ← vec_setitem f_old i x;
  x ← vec_getitem aux i;
  aux_old ← vec_setitem aux_old i x;
  Ok (var_old, df_old, f_old, aux_old).

(** time step update *)
Definition update (self : cardiovascular0Dbase)
    (var df f var_old df_old f_old aux aux_old : vec)
  : result (vec * vec * vec * vec) :=
  '(vs, ve) ← ownership var var;
  for_range vs (ve - vs) (update_entry var df f aux)
    (var_old, df_old, f_old, aux_old).

(** midpoint-averaging of state variables (for post-processing) *)
Definition midpoint_avg (self : cardiovascular0Dbase)
    (var var_old var_mid : vec) : result vec :=
  '(vs, ve) ← ownership var var;
  for_range vs (ve - vs)
    (fun i var_mid =>
       a ← vec_getitem var i;
       b ← vec_getitem var_old i;
       vec_setitem var_mid i (theta self * a + (1 - theta self) * b)%Q)
    var_mid.

End Flow0D_time_stepping.

(** * Properties *)

(** ** The error monad and bounded loops *)

Lemma bind_Ok {A B} (m : result A) (k : A -> result B) (b : B) :
  m ≫= k = Ok b -> exists a, m = Ok a /\ k a = Ok b.
Proof. destruct m as [a | e]; simpl; [eauto | discriminate]. Qed.

(** Loop invariant rule: the loop returns, and the invariant holds at exit,
    when every round started under the invariant returns and re-establishes it. *)
Lemma for_range_invariant {S} (P : nat -> S -> Prop)
    (body : nat -> S -> result S) n lo s :
  P lo s ->
  (forall i s, (lo <= i < lo + n)%nat -> P i s ->
     exists s', body i s = Ok s' /\ P (Datatypes.S i) s') ->
  exists s', for_range lo n body s = Ok s' /\ P (lo + n)%nat s'.
Proof.
  revert lo s. induction n as [| n IH]; intros lo s H0 Hstep.
  - exists s. rewrite Nat.add_0_r. split; [reflexivity | exact H0].
  - destruct (Hstep lo s ltac:(lia) H0) as (s1 & Hb & H1).
    destruct (IH (Datatypes.S lo) s1 H1) as (s2 & Hr & H2).
    { intros i s' Hi. apply Hstep. lia. }
    exists s2. simpl. rewrite Hb. simpl. rewrite Hr.
    replace (lo + Datatypes.S n)%nat with (Datatypes.S lo + n)%nat by lia.
    split; [reflexivity | exact H2].
Qed.

(** Partial-correctness variant: whatever the loop returns satisfies the
    invariant, when every returning round preserves it. *)
Lemma for_range_preserves {S} (P : nat -> S -> Prop)
    (body : nat -> S -> result S) n lo s s' :
  P lo s ->
  (forall i s s', (lo <= i < lo + n)%nat -> P i s -> body i s = Ok s' ->
     P (Datatypes.S i) s') ->
  for_range lo n body s = Ok s' -> P (lo + n)%nat s'.
Proof.
  revert lo s. induction n as [| n IH]; intros lo s H0 Hstep Hrun.
  - simpl in Hrun. injection Hrun as <-. rewrite Nat.add_0_r. exact H0.
  - simpl in Hrun. apply bind_Ok in Hrun as (s1 & Hb & Hr).
    replace (lo + Datatypes.S n)%nat with (Datatypes.S lo + n)%nat by lia.
    apply (IH (Datatypes.S lo) s1); [| | exact Hr].
    + apply (Hstep lo s s1); [lia | exact H0 | exact Hb].
    + intros i t t' Hi. apply Hstep. lia.
Qed.

(** A loop whose body acts at one index only. *)
Lemma for_range_single {S} (body : nat -> S -> result S) (k : nat) n lo s :
  (forall i s, i <> k -> body i s = Ok s) ->
  for_range lo n body s
  = if decide (lo <= k < lo + n)%nat then body k s else Ok s.
Proof.
  intros Hid. revert lo s. induction n as [| n IH]; intros lo s.
  - simpl. destruct (decide _); [lia | reflexivity].
  - simpl. destruct (decide (lo = k)) as [-> | Hne].
    + destruct (decide _); [| lia].
      destruct (body k s) as [s' | e]; simpl; [| reflexivity].
      rewrite IH. destruct (decide _); [lia | reflexivity].
    + rewrite (Hid lo s Hne). simpl. rewrite IH.
      destruct (decide _), (decide _); try lia; reflexivity.
Qed.

(** ** Python floats on [Q] *)

Lemma Qmult_comm_eq (x y : Q) : (x * y)%Q = (y * x)%Q.
Proof.
  unfold Qmult. f_equal; [apply Z.mul_comm | apply Pos.mul_comm].
Qed.

Lemma truediv_zero a b : (b == 0)%Q -> PyFloat.truediv a b = Raise ZeroDivisionError.
Proof.
  intros Hb. unfold PyFloat.truediv.
  apply Qeq_bool_iff in Hb. rewrite Hb. reflexivity.
Qed.

Lemma truediv_compiled_nonzero a b :
  ~ (b == 0)%Q -> PyFloat.truediv_compiled a b = Ok (a / b)%Q.
Proof.
  intros Hb. unfold PyFloat.truediv_compiled.
  destruct (Qeq_bool b 0) eqn:E; [| reflexivity].
  apply Qeq_bool_iff in E. contradiction.
Qed.

Lemma truediv_nonzero a b : ~ (b == 0)%Q -> PyFloat.truediv a b = Ok (a / b)%Q.
Proof.
  intros Hb. unfold PyFloat.truediv.
  destruct (Qeq_bool b 0) eqn:E; [| reflexivity].
  apply Qeq_bool_iff in E. contradiction.
Qed.

Lemma gtb_true a b : PyFloat.gtb a b = true <-> (b < a)%Q.
Proof.
  unfold PyFloat.gtb, PyFloat.ltb. rewrite negb_true_iff.
  split.
  - intros E. apply Qnot_le_lt. intros Hle.
    apply Qle_bool_iff in Hle. congruence.
  - intros Hlt. destruct (Qle_bool a b) eqn:E; [| reflexivity].
    apply Qle_bool_iff in E. apply Qlt_not_le in Hlt. contradiction.
Qed.

Lemma fmod_nonzero x y :
  ~ (y == 0)%Q -> exists m, PyFloat.fmod x y = Ok m.
Proof.
  intros Hy. unfold PyFloat.fmod.
  destruct (Qeq_bool y 0) eqn:E; [| eauto].
  apply Qeq_bool_iff in E. contradiction.
Qed.

(** ** Elastance *)

Lemma E_t_inactive_before E_A E_min t t0 act_dur :
  (t < t0)%R -> E_t E_A E_min t t0 act_dur = Ok E_min.
Proof.
  intros Hlt. unfold E_t.
  destruct (Rle_dec t0 t) as [Hle | _]; [lra |].
  simpl. f_equal. ring.
Qed.

Lemma E_t_inactive_after E_A E_min t t0 act_dur :
  (t0 + act_dur < t)%R -> E_t E_A E_min t t0 act_dur = Ok E_min.
Proof.
  intros Hlt. unfold E_t.
  destruct (Rle_dec t0 t) as [_ | _];
    [destruct (Rle_dec t (t0 + act_dur)) as [Hle | _]; [lra |] |];
    simpl; f_equal; ring.
Qed.

Lemma E_t_peak E_A E_min t0 act_dur :
  (0 < act_dur)%R ->
  E_t E_A E_min (t0 + act_dur / 2) t0 act_dur = Ok (E_min + E_A)%R.
Proof.
  intros Hpos. unfold E_t.
  destruct (Rle_dec t0 (t0 + act_dur / 2)) as [_ | Hn]; [| lra].
  destruct (Rle_dec (t0 + act_dur / 2) (t0 + act_dur)) as [_ | Hn]; [| lra].
  destruct (Req_EM_T act_dur 0) as [E | Hne]; [lra |].
  simpl. f_equal.
  replace (2 * PI * (t0 + act_dur / 2 - t0) / act_dur)%R with PI
    by (field; exact Hne).
  rewrite cos_PI. lra.
Qed.

(** C8: for [act_dur > 0], [E_t] returns exactly [E_min] for every
    [t < t0] and every [t > t0 + act_dur], and [E_min + E_A] at the peak
    [t = t0 + act_dur/2] of the half-cosine. *)
Theorem E_t_baseline_and_peak (E_A E_min t0 act_dur : R) :
  (0 < act_dur)%R ->
  (forall t, (t < t0)%R -> E_t E_A E_min t t0 act_dur = Ok E_min) /\
  (forall t, (t > t0 + act_dur)%R -> E_t E_A E_min t t0 act_dur = Ok E_min) /\
  E_t E_A E_min (t0 + act_dur / 2) t0 act_dur = Ok (E_min + E_A)%R.
Proof.
  intros Hpos. split; [| split].
  - intros t Ht. apply E_t_inactive_before, Ht.
  - intros t Ht. apply E_t_inactive_after. lra.
  - apply E_t_peak, Hpos.
Qed.

Lemma E_t_baseline_and_peak_witness :
  (0 < 3)%R /\
  E_t 7 2 0 1 3 = Ok 2%R /\ E_t 7 2 5 1 3 = Ok 2%R /\
  E_t 7 2 (1 + 3 / 2) 1 3 = Ok (2 + 7)%R.
Proof.
  assert (Hpos : (0 < 3)%R) by lra.
  destruct (E_t_baseline_and_peak 7 2 1 3 Hpos) as (Hb & Ha & Hp).
  split; [exact Hpos |].
  split; [apply Hb; lra |].
  split; [apply Ha; lra | exact Hp].
Defined.

(** ** The demo random generator *)



(** ** Lists, vectors and matrices *)

Lemma list_getitem_Ok {A} (l : list A) i a : list_getitem l i = Ok a <-> l !! i = Some a.
Proof.
  unfold list_getitem. destruct (l !! i); split; intros E; congruence.
Qed.

Lemma list_setitem_Ok {A} (l : list A) i a l' :
  list_setitem l i a = Ok l' <-> (i < length l)%nat /\ l' = <[i:=a]> l.
Proof.
  unfold list_setitem. destruct (decide _); split.
  - intros [= <-]. auto.
  - intros [_ ->]. reflexivity.
  - discriminate.
  - intros [? _]. lia.
Qed.

Lemma list_setitem_lt {A} (l : list A) i a :
  (i < length l)%nat -> list_setitem l i a = Ok (<[i:=a]> l).
Proof. intros Hi. apply list_setitem_Ok. auto. Qed.

(** The entry [(i, j)] of a list of lists, when it exists. *)
Definition entry {A} (T : list (list A)) (i j : nat) : option A :=
  T !! i ≫= fun row => row !! j.

Lemma table_getitem_Ok {A} (T : list (list A)) i j a :
  table_getitem T i j = Ok a <-> entry T i j = Some a.
Proof.
  unfold table_getitem, entry, list_getitem.
  destruct (T !! i) as [row |]; simpl; [| split; discriminate].
  destruct (row !! j); split; intros E; congruence.
Qed.

Lemma mat_getitem_Ok (K : mat) i j q :
  mat_getitem K i j = Ok q <-> entry K i j = Some q.
Proof. apply table_getitem_Ok. Qed.

(** Writing an existing entry returns; the written entry reads back, every
    other entry and the shape are unchanged. *)
Lemma table_setitem_spec {A} (T : list (list A)) i j a :
  is_Some (entry T i j) ->
  exists T', table_setitem T i j a = Ok T' /\
    entry T' i j = Some a /\
    (forall i' j', (i', j') <> (i, j) -> entry T' i' j' = entry T i' j') /\
    length <$> T' = length <$> T.
Proof.
  unfold entry, table_setitem. intros [x Hx].
  destruct (T !! i) as [row |] eqn:Hrow; [| discriminate]. simpl in Hx.
  assert (Hj : (j < length row)%nat) by (eapply lookup_lt_Some; eauto).
  assert (Hi : (i < length T)%nat) by (eapply lookup_lt_Some; eauto).
  exists (<[i := <[j := a]> row]> T).
  unfold list_getitem. rewrite Hrow. simpl.
  rewrite (list_setitem_lt row j a Hj). simpl.
  rewrite (list_setitem_lt T i _ Hi).
  split; [reflexivity |]. split; [| split].
  - rewrite list_lookup_insert_eq by exact Hi. simpl.
    apply list_lookup_insert_eq. exact Hj.
  - intros i' j' Hne. destruct (decide (i' = i)) as [-> | Hi'].
    + rewrite list_lookup_insert_eq by exact Hi. rewrite Hrow. simpl.
      apply list_lookup_insert_ne. congruence.
    + rewrite list_lookup_insert_ne by congruence. reflexivity.
  - apply list_eq. intros k. rewrite !list_lookup_fmap.
    destruct (decide (k = i)) as [-> | Hk].
    + rewrite list_lookup_insert_eq by exact Hi. rewrite Hrow. simpl.
      rewrite length_insert. reflexivity.
    + rewrite list_lookup_insert_ne by congruence. reflexivity.
Qed.

Lemma mat_setitem_spec (K : mat) i j q :
  is_Some (entry K i j) ->
  exists K', mat_setitem K i j q = Ok K' /\
    entry K' i j = Some q /\
    (forall i' j', (i', j') <> (i, j) -> entry K' i' j' = entry K i' j') /\
    length <$> K' = length <$> K.
Proof. apply table_setitem_spec. Qed.

(** Whether an entry exists depends on the shape only. *)
Lemma entry_is_Some_shape {A B} (T : list (list A)) (T' : list (list B)) i j :
  length <$> T' = length <$> T -> is_Some (entry T i j) -> is_Some (entry T' i j).
Proof.
  intros Hsh [x Hx]. unfold entry in *.
  destruct (T !! i) as [row |] eqn:Hrow; [| discriminate]. simpl in Hx.
  assert (Hl : (length <$> T') !! i = Some (length row))
    by (rewrite Hsh, list_lookup_fmap, Hrow; reflexivity).
  rewrite list_lookup_fmap in Hl.
  destruct (T' !! i) as [row' |]; [| discriminate]. simpl in *.
  injection Hl as Hl. apply lookup_lt_is_Some. rewrite Hl.
  eapply lookup_lt_Some; eauto.
Qed.

(** The value stored at global index [i], when the vector owns it. *)
Definition vec_lookup (v : vec) (i : nat) : option Q :=
  match v with
  | NdArray a => a !! i
  | PetscVec lo a => if decide (lo <= i)%nat then a !! (i - lo)%nat else None
  end.

Lemma vec_getitem_Ok v i q : vec_getitem v i = Ok q <-> vec_lookup v i = Some q.
Proof.
  destruct v as [a | lo a]; simpl.
  - apply list_getitem_Ok.
  - destruct (decide _); [apply list_getitem_Ok | split; discriminate].
Qed.

Lemma vec_setitem_spec v i q :
  is_Some (vec_lookup v i) ->
  exists v', vec_setitem v i q = Ok v' /\
    vec_lookup v' i = Some q /\
    (forall i', i' <> i -> vec_lookup v' i' = vec_lookup v i') /\
    isinstance_ndarray v' = isinstance_ndarray v /\
    vec_len v' = vec_len v /\
    getOwnershipRange v' = getOwnershipRange v.
Proof.
  destruct v as [a | lo a]; simpl; intros Hs.
  - apply lookup_lt_is_Some in Hs.
    exists (NdArray (<[i:=q]> a)). rewrite (list_setitem_lt a i q Hs). simpl.
    split; [reflexivity |]. split; [| split; [| split; [| split]]].
    + apply list_lookup_insert_eq, Hs.
    + intros i' Hne. apply list_lookup_insert_ne. congruence.
    + reflexivity.
    + apply length_insert.
    + reflexivity.
  - destruct (decide (lo <= i)%nat) as [Hlo |]; [| destruct Hs; discriminate].
    apply lookup_lt_is_Some in Hs.
    exists (PetscVec lo (<[(i - lo)%nat:=q]> a)).
    rewrite (list_setitem_lt a _ q Hs). simpl.
    split; [reflexivity |]. split; [| split; [| split; [| split]]].
    + destruct (decide _); [| lia]. apply list_lookup_insert_eq, Hs.
    + intros i' Hne. destruct (decide (lo <= i')%nat); [| reflexivity].
      apply list_lookup_insert_ne. lia.
    + reflexivity.
    + apply length_insert.
    + rewrite length_insert. reflexivity.
Qed.

Lemma vec_setitem_Ok_inv v i q v' :
  vec_setitem v i q = Ok v' -> is_Some (vec_lookup v i).
Proof.
  destruct v as [a | lo a]; simpl.
  - intros E. apply bind_Ok in E as (a' & E & _).
    apply list_setitem_Ok in E as [Hi _]. apply lookup_lt_is_Some, Hi.
  - destruct (decide _); [| discriminate].
    intros E. apply bind_Ok in E as (a' & E & _).
    apply list_setitem_Ok in E as [Hi _]. apply lookup_lt_is_Some, Hi.
Qed.

Lemma ownership_lookup (x : vec) xs xe i :
  ownership x x = Ok (xs, xe) -> (xs <= i < xe)%nat -> is_Some (vec_lookup x i).
Proof.
  unfold ownership. destruct x as [a | lo a]; simpl.
  - intros [= <- <-] Hi. apply lookup_lt_is_Some. lia.
  - intros [= <- <-] Hi. destruct (decide _); [| lia].
    apply lookup_lt_is_Some. lia.
Qed.

Section Flow0D_properties.
Context {sympy_engine : Sympy} {mpi_comm : Mpi} {derived_model : DerivedModel}.

(** ** Prescribed variables *)

(** The loop over [j] of [set_prescribed_variables] turns row [i] into the
    [i]-th unit row and touches nothing else. *)
Lemma unit_row_loop (n i : nat) (K : mat) :
  (forall j, (j < n)%nat -> is_Some (entry K i j)) ->
  exists K',
    for_range 0 n
      (fun j K => if negb (Z.of_nat j =? Z.of_nat i)%Z
                  then mat_setitem K i j 0%Q else mat_setitem K i j 1%Q) K
    = Ok K' /\
    (forall j, (j < n)%nat ->
       entry K' i j = Some (if decide (j = i) then 1%Q else 0%Q)) /\
    (forall i' j, i' <> i -> entry K' i' j = entry K i' j) /\
    length <$> K' = length <$> K.
Proof.
  intros Hin.
  pose (P := fun (m : nat) (K' : mat) =>
    (forall j, (j < m)%nat ->
       entry K' i j = Some (if decide (j = i) then 1%Q else 0%Q)) /\
    (forall i' j, i' <> i -> entry K' i' j = entry K i' j) /\
    length <$> K' = length <$> K).
  destruct (for_range_invariant P
    (fun j K => if negb (Z.of_nat j =? Z.of_nat i)%Z
                then mat_setitem K i j 0%Q else mat_setitem K i j 1%Q)
    n 0 K) as (K' & Hrun & HP).
  - split; [intros j Hj; lia | split; [reflexivity | reflexivity]].
  - intros j K1 Hj (Hrow & Hoth & Hsh).
    assert (Hs : is_Some (entry K1 i j)).
    { apply (entry_is_Some_shape K K1); [exact Hsh | apply Hin; lia]. }
    set (v := if negb (Z.of_nat j =? Z.of_nat i)%Z then 0%Q else 1%Q).
    destruct (mat_setitem_spec K1 i j v Hs) as (K2 & Hset & Hget & Hfr & Hsh2).
    exists K2. split.
    { subst v. destruct (negb (Z.of_nat j =? Z.of_nat i)%Z); exact Hset. }
    split; [| split].
    + intros j' Hj'. destruct (decide (j' = j)) as [-> | Hne].
      * rewrite Hget. subst v. f_equal.
        destruct (decide (j = i)) as [-> | Hji].
        -- rewrite Z.eqb_refl. reflexivity.
        -- destruct (Z.eqb_spec (Z.of_nat j) (Z.of_nat i)); [lia | reflexivity].
      * rewrite Hfr by congruence. apply Hrow. lia.
    + intros i' j' Hi'. rewrite Hfr by congruence. apply Hoth, Hi'.
    + rewrite Hsh2. exact Hsh.
  - exists K'. split; [exact Hrun | exact HP].
Qed.

(** C2: for [0 <= idx < numdof] inside the ownership range of [x], with
    [r] owning [idx] and row [idx] of [K] having [numdof] columns,
    [set_prescribed_variables] returns; afterwards row [idx] of [K] is the
    unit row and [r[idx]] is [x[idx] - val].  The other rows of [K] are
    untouched. *)
Theorem set_prescribed_variables_enforces
    (self : cardiovascular0Dbase) (x r : vec) (K : mat) (val : Q) (idx : Z)
    (xs xe : nat) :
  (0 <= idx < Z.of_nat (numdof self))%Z ->
  ownership x x = Ok (xs, xe) ->
  (Z.of_nat xs <= idx < Z.of_nat xe)%Z ->
  is_Some (vec_lookup r (Z.to_nat idx)) ->
  (forall j, (j < numdof self)%nat -> is_Some (entry K (Z.to_nat idx) j)) ->
  exists r' K' xi,
    set_prescribed_variables self x r K val idx = Ok (r', K') /\
    vec_lookup x (Z.to_nat idx) = Some xi /\
    vec_lookup r' (Z.to_nat idx) = Some (xi - val)%Q /\
    (forall j, (j < numdof self)%nat ->
       entry K' (Z.to_nat idx) j
       = Some (if decide (j = Z.to_nat idx) then 1%Q else 0%Q)) /\
    (forall i j, i <> Z.to_nat idx -> entry K' i j = entry K i j).
Proof.
  intros Hidx Hown Hrange Hr HK.
  set (k := Z.to_nat idx) in *.
  assert (Hk : Z.of_nat k = idx) by (subst k; lia).
  destruct (ownership_lookup x xs xe k Hown ltac:(lia)) as [xi Hxi].
  destruct (vec_setitem_spec r k (xi - val)%Q Hr) as (r' & Hset & Hget & _).
  destruct (unit_row_loop (numdof self) k K HK) as (K' & Hloop & Hrow & Hoth & _).
  exists r', K', xi.
  split; [| split; [exact Hxi | split; [exact Hget | split; [exact Hrow | exact Hoth]]]].
  unfold set_prescribed_variables. rewrite Hown. simpl.
  assert (Hin : in_range idx xs xe = true).
  { unfold in_range. apply andb_true_iff. split; [apply Z.leb_le | apply Z.ltb_lt]; lia. }
  rewrite Hin.
  apply vec_getitem_Ok in Hxi. fold k. rewrite Hxi. simpl. rewrite Hset. simpl.
  rewrite (for_range_single _ k).
  - destruct (decide _) as [_ | Hn]; [| lia].
    rewrite Hk, Z.eqb_refl. rewrite <- Hk. rewrite Hloop. reflexivity.
  - intros i K0 Hne. destruct (Z.eqb_spec (Z.of_nat i) idx); [lia | reflexivity].
Qed.

(** ** Evaluation of the Jacobian *)

(** The value the code stores in [K[i,j]]. *)
Definition K_value (self : cardiovascular0Dbase) (x_sq c : list Q) (t : Q)
    (fnc : list Q) (dt : Q) (i j : nat) : option Q :=
  match entry (Kdf__ self) i j, entry (Kf__ self) i j with
  | Some kdf, Some kf =>
      Some (kdf x_sq c t fnc / dt + kf x_sq c t fnc * theta self)%Q
  | _, _ => None
  end.

Lemma fill_K_entry_spec self x_sq c t fnc dt i j (K : mat) :
  ~ (dt == 0)%Q ->
  is_Some (K_value self x_sq c t fnc dt i j) ->
  is_Some (entry K i j) ->
  exists K', fill_K_entry self x_sq c t fnc dt i j K = Ok K' /\
    entry K' i j = K_value self x_sq c t fnc dt i j /\
    (forall i' j', (i', j') <> (i, j) -> entry K' i' j' = entry K i' j') /\
    length <$> K' = length <$> K.
Proof.
  intros Hdt [v Hv] HK. unfold K_value in *. unfold fill_K_entry.
  destruct (entry (Kdf__ self) i j) as [kdf |] eqn:Ekdf; [| discriminate].
  destruct (entry (Kf__ self) i j) as [kf |] eqn:Ekf; [| discriminate].
  apply table_getitem_Ok in Ekdf, Ekf. rewrite Ekdf. simpl.
  rewrite (truediv_compiled_nonzero _ _ Hdt). simpl. rewrite Ekf. simpl.
  destruct (mat_setitem_spec K i j
              (kdf x_sq c t fnc / dt + kf x_sq c t fnc * theta self)%Q HK)
    as (K' & Hset & Hget & Hfr & Hsh).
  exists K'. auto.
Qed.

Lemma fill_K_row self x_sq c t fnc dt (n i : nat) (K : mat) :
  ~ (dt == 0)%Q ->
  (forall j, (j < n)%nat -> is_Some (K_value self x_sq c t fnc dt i j)) ->
  (forall j, (j < n)%nat -> is_Some (entry K i j)) ->
  exists K', for_range 0 n (fun j => fill_K_entry self x_sq c t fnc dt i j) K = Ok K' /\
    (forall j, (j < n)%nat -> entry K' i j = K_value self x_sq c t fnc dt i j) /\
    (forall i' j, i' <> i -> entry K' i' j = entry K i' j) /\
    length <$> K' = length <$> K.
Proof.
  intros Hdt Hval HK.
  pose (P := fun (m : nat) (K' : mat) =>
    (forall j, (j < m)%nat -> entry K' i j = K_value self x_sq c t fnc dt i j) /\
    (forall i' j, i' <> i -> entry K' i' j = entry K i' j) /\
    length <$> K' = length <$> K).
  destruct (for_range_invariant P
              (fun j => fill_K_entry self x_sq c t fnc dt i j) n 0 K)
    as (K' & Hrun & HP).
  - split; [intros j Hj; lia | split; reflexivity].
  - intros j K1 Hj (Hrow & Hoth & Hsh).
    destruct (fill_K_entry_spec self x_sq c t fnc dt i j K1 Hdt)
      as (K2 & Hfill & Hget & Hfr & Hsh2).
    { apply Hval. lia. }
    { apply (entry_is_Some_shape K K1); [exact Hsh | apply HK; lia]. }
    exists K2. split; [exact Hfill |]. split; [| split].
    + intros j' Hj'. destruct (decide (j' = j)) as [-> | Hne]; [exact Hget |].
      rewrite Hfr by congruence. apply Hrow. lia.
    + intros i' j' Hi'. rewrite Hfr by congruence. apply Hoth, Hi'.
    + rewrite Hsh2. exact Hsh.
  - exists K'. split; [exact Hrun | exact HP].
Qed.

Lemma fill_K_all self x_sq c t fnc dt (n : nat) (K : mat) :
  ~ (dt == 0)%Q ->
  (forall i j, (i < n)%nat -> (j < n)%nat ->
     is_Some (K_value self x_sq c t fnc dt i j) /\ is_Some (entry K i j)) ->
  exists K',
    for_range 0 n
      (fun i => for_range 0 n (fun j => fill_K_entry self x_sq c t fnc dt i j)) K
    = Ok K' /\
    (forall i j, (i < n)%nat -> (j < n)%nat ->
       entry K' i j = K_value self x_sq c t fnc dt i j).
Proof.
  intros Hdt Hall.
  pose (P := fun (m : nat) (K' : mat) =>
    (forall i j, (i < m)%nat -> (j < n)%nat ->
       entry K' i j = K_value self x_sq c t fnc dt i j) /\
    length <$> K' = length <$> K).
  destruct (for_range_invariant P
    (fun i => for_range 0 n (fun j => fill_K_entry self x_sq c t fnc dt i j))
    n 0 K) as (K' & Hrun & HP & _).
  - split; [intros i j Hi; lia | reflexivity].
  - intros i K1 Hi (Hdone & Hsh).
    destruct (fill_K_row self x_sq c t fnc dt n i K1 Hdt)
      as (K2 & Hrow & Hget & Hoth & Hsh2).
    { intros j Hj. apply Hall; lia. }
    { intros j Hj. apply (entry_is_Some_shape K K1); [exact Hsh | apply Hall; lia]. }
    exists K2. split; [exact Hrow |]. split.
    + intros i' j Hi' Hj. destruct (decide (i' = i)) as [-> | Hne].
      * apply Hget, Hj.
      * rewrite Hoth by exact Hne. apply Hdone; [lia | exact Hj].
    + rewrite Hsh2. exact Hsh.
  - exists K'. split; [exact Hrun | exact HP].
Qed.

(** C3: for [dt > 0], when [K] is requested (and the compiled tables and
    [K] have [numdof x numdof] entries), [evaluate] returns and has filled
    every [K[i,j]], [0 <= i, j < numdof], with
    [Kdf__[i][j](x, c, t, fnc) / dt + theta * Kf__[i][j](x, c, t, fnc)]. *)
Theorem evaluate_fills_K
    (self : cardiovascular0Dbase) (x : vec) (dt t : Q) (df f a : option vec)
    (K : mat) (c fnc x_sq : list Q) (df' f' a' : option vec) :
  (0 < dt)%Q ->
  squeeze self x = Ok x_sq ->
  fill_vec self (df__ self) x_sq c t fnc df = Ok df' ->
  fill_vec self (f__ self) x_sq c t fnc f = Ok f' ->
  fill_vec self (a__ self) x_sq c t fnc a = Ok a' ->
  (forall i j, (i < numdof self)%nat -> (j < numdof self)%nat ->
     is_Some (entry (Kdf__ self) i j) /\ is_Some (entry (Kf__ self) i j) /\
     is_Some (entry K i j)) ->
  exists K',
    evaluate self x dt t df f (Some K) c a fnc = Ok (df', f', Some K', a') /\
    forall i j kdf kf, (i < numdof self)%nat -> (j < numdof self)%nat ->
      entry (Kdf__ self) i j = Some kdf ->
      entry (Kf__ self) i j = Some kf ->
      entry K' i j
      = Some (kdf x_sq c t fnc / dt + theta self * kf x_sq c t fnc)%Q.
Proof.
  intros Hdt Hx Hdf Hf Ha Hshape.
  assert (Hdt0 : ~ (dt == 0)%Q) by (intros E; rewrite E in Hdt; discriminate).
  destruct (fill_K_all self x_sq c t fnc dt (numdof self) K Hdt0) as (K' & Hrun & Hval).
  { intros i j Hi Hj. destruct (Hshape i j Hi Hj) as ([kdf Ekdf] & [kf Ekf] & HK).
    split; [| exact HK]. unfold K_value. rewrite Ekdf, Ekf. eauto. }
  exists K'. split.
  - unfold evaluate. rewrite Hx. simpl. rewrite Hdf. simpl. rewrite Hf. simpl.
    rewrite Hrun. simpl. rewrite Ha. reflexivity.
  - intros i j kdf kf Hi Hj Ekdf Ekf.
    rewrite (Hval i j Hi Hj). unfold K_value. rewrite Ekdf, Ekf.
    rewrite (Qmult_comm_eq (kf x_sq c t fnc) (theta self)). reflexivity.
Qed.

(** ** Cycle boundaries *)

Lemma IsRelativeEqualTo_zero_ref A B Ref :
  (Ref == 0)%Q -> IsRelativeEqualTo A B Ref = Raise ZeroDivisionError.
Proof.
  intros HRef. unfold IsRelativeEqualTo. rewrite truediv_zero by exact HRef.
  reflexivity.
Qed.

Lemma ModuloIsRelativeZero_zero_ref value modulo Ref :
  ~ (modulo == 0)%Q -> (Ref == 0)%Q ->
  ModuloIsRelativeZero value modulo Ref = Raise ZeroDivisionError.
Proof.
  intros Hm HRef. unfold ModuloIsRelativeZero.
  destruct (fmod_nonzero (value + modulo / 2) modulo Hm) as [m ->]. simpl.
  apply IsRelativeEqualTo_zero_ref, HRef.
Qed.

(** C10: the cycle-boundary test is partial.  With [Ref = 0],
    [IsRelativeEqualTo] raises [ZeroDivisionError] for all [A], [B], and so
    does [ModuloIsRelativeZero] for every modulo [T > 0]; [cycle_check] at
    [t = 0] with [T_cycl > 0] raises, and what it raises is that
    [ZeroDivisionError] as soon as the ownership range is available. *)
Theorem cycle_boundary_test_partial :
  (forall A B Ref, (Ref == 0)%Q ->
     IsRelativeEqualTo A B Ref = Raise ZeroDivisionError) /\
  (forall value T Ref, (0 < T)%Q -> (Ref == 0)%Q ->
     ModuloIsRelativeZero value T Ref = Raise ZeroDivisionError) /\
  (forall (self : cardiovascular0Dbase) fs var varTc varTc_old t cycle cyclerr
          eps_periodic check inioutpath induce_pert_after_cycl,
     (0 < T_cycl self)%Q -> (t == 0)%Q ->
     exists e,
       cycle_check self fs var varTc varTc_old t cycle cyclerr eps_periodic
         check inioutpath induce_pert_after_cycl = Raise e /\
       (forall range, ownership varTc var = Ok range -> e = ZeroDivisionError)).
Proof.
  split; [| split].
  - intros A B Ref. apply IsRelativeEqualTo_zero_ref.
  - intros value T Ref HT HRef. apply ModuloIsRelativeZero_zero_ref; [| exact HRef].
    intros E. rewrite E in HT. discriminate.
  - intros self fs var varTc varTc_old t cycle cyclerr eps check inioutpath after HT Ht.
    unfold cycle_check.
    destruct (ownership varTc var) as [[vs ve] | e] eqn:Hown.
    + exists ZeroDivisionError. split; [| reflexivity]. simpl.
      assert (Hg : PyFloat.gtb (T_cycl self) 0 = true) by (apply gtb_true, HT).
      rewrite Hg. rewrite ModuloIsRelativeZero_zero_ref; [reflexivity | | exact Ht].
      intros E. rewrite E in HT. discriminate.
    + exists e. split; [reflexivity | discriminate].
Qed.

(** [copy_range] returns when both vectors own the range; what it returns
    agrees with the source on the range and with the old destination
    elsewhere. *)
Definition copied (vs ve : nat) (src dst dst' : vec) : Prop :=
  (forall i, (vs <= i < ve)%nat ->
     is_Some (vec_lookup src i) /\ vec_lookup dst' i = vec_lookup src i) /\
  (forall i, ~ (vs <= i < ve)%nat -> vec_lookup dst' i = vec_lookup dst i).

Lemma copy_range_inv vs ve src dst dst' :
  copy_range vs ve src dst = Ok dst' -> copied vs ve src dst dst'.
Proof.
  unfold copy_range. intros Hrun.
  pose (P := fun (m : nat) (d : vec) =>
    (forall i, (vs <= i < m)%nat ->
       is_Some (vec_lookup src i) /\ vec_lookup d i = vec_lookup src i) /\
    (forall i, ~ (vs <= i < m)%nat -> vec_lookup d i = vec_lookup dst i)).
  destruct (decide (vs <= ve)%nat) as [Hle | Hgt].
  - enough (HP : P (vs + (ve - vs))%nat dst').
    { replace (vs + (ve - vs))%nat with ve in HP by lia. exact HP. }
    apply (for_range_preserves P
             (fun i dst => x ← vec_getitem src i; vec_setitem dst i x)
             (ve - vs) vs dst dst'); [| | exact Hrun].
    + split; [intros i Hi; lia | reflexivity].
    + intros i d d' Hi [Hin Hout] Hbody.
      apply bind_Ok in Hbody as (q & Hq & Hset).
      apply vec_getitem_Ok in Hq.
      destruct (vec_setitem_spec d i q (vec_setitem_Ok_inv _ _ _ _ Hset))
        as (d2 & Hset2 & Hget & Hfr & _).
      rewrite Hset in Hset2. injection Hset2 as <-.
      split.
      * intros k Hk. destruct (decide (k = i)) as [-> | Hne].
        -- rewrite Hget, Hq. eauto.
        -- rewrite Hfr by exact Hne. apply Hin. lia.
      * intros k Hk. rewrite Hfr by lia. apply Hout. lia.
  - replace (ve - vs)%nat with 0%nat in Hrun by lia. injection Hrun as <-.
    split; [intros i Hi; lia | reflexivity].
Qed.

Lemma copy_range_returns vs ve src dst :
  (forall i, (vs <= i < ve)%nat ->
     is_Some (vec_lookup src i) /\ is_Some (vec_lookup dst i)) ->
  exists dst', copy_range vs ve src dst = Ok dst' /\
    forall i, is_Some (vec_lookup dst i) -> is_Some (vec_lookup dst' i).
Proof.
  intros Hown. unfold copy_range.
  pose (P := fun (m : nat) (d : vec) =>
    forall i, is_Some (vec_lookup dst i) -> is_Some (vec_lookup d i)).
  destruct (for_range_invariant P
    (fun i dst => x ← vec_getitem src i; vec_setitem dst i x) (ve - vs) vs dst)
    as (d & Hrun & HP).
  - intros i Hi. exact Hi.
  - intros i d Hi HP. destruct (Hown i ltac:(lia)) as [[q Hq] Hd].
    apply vec_getitem_Ok in Hq. rewrite Hq. simpl.
    destruct (vec_setitem_spec d i q (HP i Hd)) as (d' & Hset & Hget & Hfr & _).
    exists d'. split; [exact Hset |].
    intros k Hk. destruct (decide (k = i)) as [-> | Hne].
    + rewrite Hget. eauto.
    + rewrite Hfr by exact Hne. apply HP, Hk.
  - exists d. split; [exact Hrun | exact HP].
Qed.

(** C5: at a cycle boundary, whatever [cycle_check] returns, the verdict
    is [False] when [cycle[0] <= induce_pert_after_cycl], the counter
    [cycle[0]] has been incremented and [varTc_old] agrees with [varTc]
    (the snapshot of [var]) on the whole range, whatever the verdict.  And
    it does return when the vectors own the range, [cycle] is not empty and
    the periodicity check and the export return. *)
Theorem cycle_check_at_boundary
    (self : cardiovascular0Dbase) (fs : gmap string string)
    (var varTc varTc_old : vec) (t : Q) (cycle : list Z) (cyclerr : list Q)
    (eps_periodic : Q) (check : string) (inioutpath : option string)
    (induce_pert_after_cycl : Z) :
  (0 < T_cycl self)%Q ->
  ModuloIsRelativeZero t (T_cycl self) t = Ok true ->
  (forall b cs,
     cycle_check self fs var varTc varTc_old t cycle cyclerr eps_periodic
       check inioutpath induce_pert_after_cycl = Ok (b, cs) ->
     exists vs ve c0,
       ownership varTc var = Ok (vs, ve) /\
       cycle !! 0%nat = Some c0 /\
       ((c0 <= induce_pert_after_cycl)%Z -> b = false) /\
       cs_cycle cs = <[0%nat := (c0 + 1)%Z]> cycle /\
       (forall i, (vs <= i < ve)%nat ->
          exists q, vec_lookup var i = Some q /\
            vec_lookup (cs_varTc cs) i = Some q /\
            vec_lookup (cs_varTc_old cs) i = Some q)) /\
  (forall vs ve c0,
     ownership varTc var = Ok (vs, ve) ->
     cycle !! 0%nat = Some c0 ->
     (forall i, (vs <= i < ve)%nat ->
        is_Some (vec_lookup var i) /\ is_Some (vec_lookup varTc i) /\
        is_Some (vec_lookup varTc_old i)) ->
     (forall v, exists r,
        check_periodic self v varTc_old eps_periodic check cyclerr = Ok r) ->
     (forall path v, inioutpath = Some path ->
        exists fs', write_initial self fs path varTc_old v = Ok fs') ->
     exists b cs,
       cycle_check self fs var varTc varTc_old t cycle cyclerr eps_periodic
         check inioutpath induce_pert_after_cycl = Ok (b, cs)).
Proof.
  intros HT Hbd.
  assert (Hg : PyFloat.gtb (T_cycl self) 0 = true) by (apply gtb_true, HT).
  split.
  - intros b cs Hrun. unfold cycle_check in Hrun.
    destruct (ownership varTc var) as [[vs ve] | e] eqn:Hown; [| discriminate].
    simpl in Hrun. rewrite Hg, Hbd in Hrun. simpl in Hrun.
    apply bind_Ok in Hrun as (varTc1 & Hc1 & Hrun).
    apply bind_Ok in Hrun as ([b0 cyclerr1] & Hcp & Hrun).
    apply bind_Ok in Hrun as (c0 & Hc0 & Hrun).
    apply bind_Ok in Hrun as (fs1 & Hfs & Hrun).
    apply bind_Ok in Hrun as (varTc_old1 & Hc2 & Hrun).
    apply bind_Ok in Hrun as (c0' & Hc0' & Hrun).
    apply bind_Ok in Hrun as (cycle1 & Hset & Hrun).
    injection Hrun as <- <-. simpl.
    apply list_getitem_Ok in Hc0, Hc0'.
    assert (c0' = c0) as -> by congruence.
    apply list_setitem_Ok in Hset as [_ ->].
    apply copy_range_inv in Hc1 as [Hin1 _], Hc2 as [Hin2 _].
    exists vs, ve, c0.
    split; [reflexivity |]. split; [exact Hc0 |]. split; [| split; [reflexivity |]].
    + intros Hle. apply Z.leb_le in Hle. rewrite Hle. reflexivity.
    + intros i Hi. destruct (Hin1 i Hi) as [[q Hq] E1].
      destruct (Hin2 i Hi) as [_ E2].
      exists q. rewrite E2, E1. auto.
  - intros vs ve c0 Hown Hc0 Hvec Hcp Hwr. unfold cycle_check.
    rewrite Hown. simpl. rewrite Hg, Hbd. simpl.
    destruct (copy_range_returns vs ve var varTc) as (varTc1 & Hc1 & Hk1).
    { intros i Hi. destruct (Hvec i Hi) as (? & ? & ?). auto. }
    rewrite Hc1. simpl.
    destruct (Hcp varTc1) as [[b0 cyclerr1] Hr]. rewrite Hr. simpl.
    apply list_getitem_Ok in Hc0. rewrite Hc0. simpl.
    assert (Hex : exists fs1,
      match inioutpath with
      | Some path =>
          if (if (c0 <=? induce_pert_after_cycl)%Z then false else b0) : bool
          then write_initial self fs path varTc_old varTc1 else Ok fs
      | None => Ok fs
      end = Ok fs1).
    { destruct inioutpath as [path |]; [| eauto].
      destruct (if (c0 <=? induce_pert_after_cycl)%Z then false else b0);
        [apply (Hwr path varTc1); reflexivity | eauto]. }
    destruct Hex as [fs1 ->]. simpl.
    destruct (copy_range_returns vs ve varTc1 varTc_old) as (varTc_old1 & Hc2 & _).
    { intros i Hi. destruct (Hvec i Hi) as (? & ? & ?). split; [apply Hk1 |]; assumption. }
    rewrite Hc2. simpl.
    apply list_getitem_Ok in Hc0.
    rewrite (list_setitem_lt cycle 0 (c0 + 1)%Z)
      by (eapply lookup_lt_Some; exact Hc0).
    simpl. eauto.
Qed.

(** ** Disease perturbation *)

(** [induce_perturbation] fires: the guard of both [if] statements holds. *)
Definition fires (self : cardiovascular0Dbase) (cycle induce_pert_after_cycl : Z)
  : Prop :=
  (0 < induce_pert_after_cycl)%Z /\ have_induced_pert self = false /\
  (induce_pert_after_cycl < cycle)%Z.

Lemma induce_perturbation_noop self perturb_type cycle after :
  ~ fires self cycle after ->
  induce_perturbation self perturb_type cycle after = Ok (self, []).
Proof.
  unfold fires, induce_perturbation. intros Hn.
  destruct (Z.ltb_spec 0 after) as [Hpos | Hle]; simpl; [| reflexivity].
  destruct (have_induced_pert self) eqn:Hflag; simpl; [reflexivity |].
  destruct (Z.ltb_spec after cycle) as [Hlt | Hge]; [| reflexivity].
  exfalso. apply Hn. auto.
Qed.

Lemma have_induced_pert_set self : have_induced_pert (set_have_induced_pert self true) = true.
Proof. reflexivity. Qed.

Lemma invoke_Ok c m st st' :
  invoke c m st = Ok st' ->
  exists self', m st.1 = Ok self' /\ st' = (self', st.2 ++ [c]).
Proof.
  unfold invoke. intros E. apply bind_Ok in E as (self' & Hm & E).
  injection E as <-. eauto.
Qed.

(** What a firing call computes, step by step. *)
Lemma induce_perturbation_fires_inv self perturb_type cycle after self' log :
  fires self cycle after ->
  induce_perturbation self perturb_type cycle after = Ok (self', log) ->
  exists rank s1 s2 s3 s4 s5,
    comm self = Some rank /\
    setup_arrays (perturb_parameters perturb_type self) = Ok s1 /\
    set_chamber_interfaces s1 = Ok s2 /\
    equation_map s2 = Ok s3 /\
    set_stiffness s3 = Ok s4 /\
    lambdify_expressions s4 = Ok s5 /\
    self' = set_have_induced_pert s5 true /\
    log = (if (rank =? 0)%Z then [call_print perturb_type] else []) ++
          [call_setup_arrays; call_set_chamber_interfaces; call_equation_map;
           call_set_stiffness; call_lambdify_expressions].
Proof.
  intros (Hpos & Hflag & Hlt). unfold induce_perturbation.
  apply Z.ltb_lt in Hpos, Hlt. rewrite Hpos, Hflag, Hlt. simpl.
  destruct (comm self) as [rank |]; [| discriminate]. simpl.
  intros E.
  apply bind_Ok in E as (st1 & H1 & E). apply invoke_Ok in H1 as (s1 & H1 & ->).
  apply bind_Ok in E as (st2 & H2 & E). apply invoke_Ok in H2 as (s2 & H2 & ->).
  apply bind_Ok in E as (st3 & H3 & E). apply invoke_Ok in H3 as (s3 & H3 & ->).
  apply bind_Ok in E as (st4 & H4 & E). apply invoke_Ok in H4 as (s4 & H4 & ->).
  apply bind_Ok in E as (st5 & H5 & E). apply invoke_Ok in H5 as (s5 & H5 & ->).
  simpl in *. injection E as <- <-.
  exists rank, s1, s2, s3, s4, s5.
  repeat (split; [assumption || reflexivity |]).
  rewrite <- !app_assoc. reflexivity.
Qed.

Lemma induce_perturbation_fires_returns self perturb_type cycle after
    rank s1 s2 s3 s4 s5 :
  fires self cycle after ->
  comm self = Some rank ->
  setup_arrays (perturb_parameters perturb_type self) = Ok s1 ->
  set_chamber_interfaces s1 = Ok s2 ->
  equation_map s2 = Ok s3 ->
  set_stiffness s3 = Ok s4 ->
  lambdify_expressions s4 = Ok s5 ->
  exists log,
    induce_perturbation self perturb_type cycle after
    = Ok (set_have_induced_pert s5 true, log).
Proof.
  intros (Hpos & Hflag & Hlt) Hc H1 H2 H3 H4 H5. unfold induce_perturbation.
  apply Z.ltb_lt in Hpos, Hlt. rewrite Hpos, Hflag, Hlt, Hc. simpl.
  unfold invoke. simpl. rewrite H1. simpl. rewrite H2. simpl. rewrite H3. simpl.
  rewrite H4. simpl. rewrite H5. simpl. eauto.
Qed.

(** C6: [induce_perturbation] is one-shot.  It changes nothing and calls
    nothing when [induce_pert_after_cycl <= 0], when the flag
    [have_induced_pert] is set, or when [cycle <= induce_pert_after_cycl];
    a call that fires and returns has set the flag, so every later call,
    with any arguments, changes nothing; and a firing call returns when the
    rebuild methods do. *)
Theorem induce_perturbation_one_shot
    (self : cardiovascular0Dbase) (perturb_type : string)
    (cycle induce_pert_after_cycl : Z) :
  ((induce_pert_after_cycl <= 0)%Z \/ have_induced_pert self = true \/
   (cycle <= induce_pert_after_cycl)%Z ->
   induce_perturbation self perturb_type cycle induce_pert_after_cycl
   = Ok (self, [])) /\
  (forall self' log,
     fires self cycle induce_pert_after_cycl ->
     induce_perturbation self perturb_type cycle induce_pert_after_cycl
     = Ok (self', log) ->
     have_induced_pert self' = true /\
     forall perturb_type' cycle' induce_pert_after_cycl',
       induce_perturbation self' perturb_type' cycle' induce_pert_after_cycl'
       = Ok (self', [])) /\
  (forall rank s1 s2 s3 s4 s5,
     fires self cycle induce_pert_after_cycl ->
     comm self = Some rank ->
     setup_arrays (perturb_parameters perturb_type self) = Ok s1 ->
     set_chamber_interfaces s1 = Ok s2 ->
     equation_map s2 = Ok s3 ->
     set_stiffness s3 = Ok s4 ->
     lambdify_expressions s4 = Ok s5 ->
     exists log,
       induce_perturbation self perturb_type cycle induce_pert_after_cycl
       = Ok (set_have_induced_pert s5 true, log)).
Proof.
  split; [| split].
  - intros Hcase. apply induce_perturbation_noop.
    intros (Hpos & Hflag & Hlt).
    destruct Hcase as [Hle | [Hset | Hle]]; [lia | congruence | lia].
  - intros self' log Hfire Hrun.
    destruct (induce_perturbation_fires_inv _ _ _ _ _ _ Hfire Hrun)
      as (rank & s1 & s2 & s3 & s4 & s5 & _ & _ & _ & _ & _ & _ & -> & _).
    split; [apply have_induced_pert_set |].
    intros perturb_type' cycle' after'. apply induce_perturbation_noop.
    intros (_ & Hflag & _). rewrite have_induced_pert_set in Hflag. discriminate.
  - intros rank s1 s2 s3 s4 s5. apply induce_perturbation_fires_returns.
Qed.

(** Position of calls in the log. *)
Definition occurs_before (a b : call) (log : list call) : Prop :=
  exists i j, (i < j)%nat /\ log !! i = Some a /\ log !! j = Some b.

(** The order of the rebuild as the specification words it: symbolic
    rebuild, then recompilation, then re-differentiation. *)
Definition rebuild_recompile_differentiate (log : list call) : Prop :=
  occurs_before call_equation_map call_lambdify_expressions log /\
  occurs_before call_lambdify_expressions call_set_stiffness log.

(** The order of the rebuild in the code: symbolic rebuild, then
    re-differentiation, then recompilation. *)
Definition rebuild_differentiate_recompile (log : list call) : Prop :=
  occurs_before call_equation_map call_set_stiffness log /\
  occurs_before call_set_stiffness call_lambdify_expressions log.

(** C7 (amended): a firing [induce_perturbation] that returns has called
    [setup_arrays], [set_chamber_interfaces], [equation_map],
    [set_stiffness], [lambdify_expressions], each once and in this order:
    the symbolic equations are rebuilt, then the Jacobians are
    re-differentiated, then the numeric callables are recompiled; the
    object returned is the result of these five methods run in sequence. *)
Theorem induce_perturbation_rebuild_order
    (self self' : cardiovascular0Dbase) (perturb_type : string)
    (cycle induce_pert_after_cycl : Z) (log : list call) :
  fires self cycle induce_pert_after_cycl ->
  induce_perturbation self perturb_type cycle induce_pert_after_cycl
  = Ok (self', log) ->
  rebuild_differentiate_recompile log /\
  filter (fun c => c <> call_print perturb_type) log
  = [call_setup_arrays; call_set_chamber_interfaces; call_equation_map;
     call_set_stiffness; call_lambdify_expressions] /\
  (s1 ← setup_arrays (perturb_parameters perturb_type self);
   s2 ← set_chamber_interfaces s1;
   s3 ← equation_map s2;
   s4 ← set_stiffness s3;
   s5 ← lambdify_expressions s4;
   Ok (set_have_induced_pert s5 true)) = Ok self'.
Proof.
  intros Hfire Hrun.
  destruct (induce_perturbation_fires_inv _ _ _ _ _ _ Hfire Hrun)
    as (rank & s1 & s2 & s3 & s4 & s5 & _ & H1 & H2 & H3 & H4 & H5 & -> & ->).
  split; [| split].
  - destruct (rank =? 0)%Z; split.
    + exists 3%nat, 4%nat. split; [lia | split; reflexivity].
    + exists 4%nat, 5%nat. split; [lia | split; reflexivity].
    + exists 2%nat, 3%nat. split; [lia | split; reflexivity].
    + exists 3%nat, 4%nat. split; [lia | split; reflexivity].
  - destruct (rank =? 0)%Z; simpl.
    + rewrite filter_cons_False by (intros Hne; apply Hne; reflexivity).
      reflexivity.
    + reflexivity.
  - rewrite H1. simpl. rewrite H2. simpl. rewrite H3. simpl. rewrite H4. simpl.
    rewrite H5. reflexivity.
Qed.

End Flow0D_properties.

(** ** The properties on the demo model *)

Example demo_model_built :
  (s ← equation_map Demo.blank; s ← set_stiffness s; lambdify_expressions s)
  = Ok Demo.model.
Proof. vm_compute. reflexivity. Qed.

Lemma set_prescribed_variables_enforces_witness :
  exists r' K' xi,
    set_prescribed_variables Demo.model (NdArray [3; 4]%Q) (NdArray [7; 8]%Q)
      [[1; 2]; [3; 4]]%Q 10 1 = Ok (r', K') /\
    vec_lookup (NdArray [3; 4]%Q) (Z.to_nat 1) = Some xi /\
    vec_lookup r' (Z.to_nat 1) = Some (xi - 10)%Q /\
    (forall j, (j < numdof Demo.model)%nat ->
       entry K' (Z.to_nat 1) j
       = Some (if decide (j = Z.to_nat 1) then 1%Q else 0%Q)) /\
    (forall i j, i <> Z.to_nat 1 -> entry K' i j = entry [[1; 2]; [3; 4]]%Q i j).
Proof.
  apply (set_prescribed_variables_enforces Demo.model (NdArray [3; 4]%Q)
           (NdArray [7; 8]%Q) [[1; 2]; [3; 4]]%Q 10 1 0 2).
  - vm_compute. split; [discriminate | reflexivity].
  - reflexivity.
  - lia.
  - vm_compute. eauto.
  - intros j Hj. change (numdof Demo.model) with 2%nat in Hj.
    destruct j as [| [| j]]; [vm_compute; eauto | vm_compute; eauto | lia].
Defined.

Lemma evaluate_fills_K_witness :
  exists K',
    evaluate Demo.model (NdArray [3; 4]%Q) (1 # 10) 0 None None
      (Some [[0; 0]; [0; 0]]%Q) [] None [5%Q]
    = Ok (None, None, Some K', None) /\
    forall i j kdf kf, (i < numdof Demo.model)%nat -> (j < numdof Demo.model)%nat ->
      entry (Kdf__ Demo.model) i j = Some kdf ->
      entry (Kf__ Demo.model) i j = Some kf ->
      entry K' i j
      = Some (kdf [3; 4]%Q [] 0%Q [5%Q] / (1 # 10)
              + theta Demo.model * kf [3; 4]%Q [] 0%Q [5%Q])%Q.
Proof.
  apply (evaluate_fills_K Demo.model (NdArray [3; 4]%Q) (1 # 10) 0 None None None
           [[0; 0]; [0; 0]]%Q [] [5%Q] [3; 4]%Q None None None).
  - reflexivity.
  - reflexivity.
  - reflexivity.
  - reflexivity.
  - reflexivity.
  - intros i j Hi Hj. change (numdof Demo.model) with 2%nat in Hi, Hj.
    destruct i as [| [| i]]; [| | lia];
      (destruct j as [| [| j]]; [| | lia]);
      vm_compute; repeat split; eexists; reflexivity.
Defined.

Lemma cycle_boundary_test_partial_witness :
  IsRelativeEqualTo 1 2 0 = Raise ZeroDivisionError /\
  ModuloIsRelativeZero 3 1 0 = Raise ZeroDivisionError /\
  cycle_check Demo.model ∅ (NdArray [3; 4]%Q) (NdArray [0; 0]%Q)
    (NdArray [0; 0]%Q) 0 [0%Z] [0%Q] (1 # 100) "allvar" None (-1)
  = Raise ZeroDivisionError.
Proof.
  destruct cycle_boundary_test_partial as (HA & HB & HC).
  split; [apply HA; reflexivity |].
  split; [apply HB; reflexivity |].
  destruct (HC Demo.model ∅ (NdArray [3; 4]%Q) (NdArray [0; 0]%Q)
              (NdArray [0; 0]%Q) 0%Q [0%Z] [0%Q] (1 # 100)%Q "allvar" None (-1)%Z)
    as (e & He & Hz); [reflexivity | reflexivity |].
  rewrite He. f_equal. apply (Hz (0%nat, 2%nat)). reflexivity.
Defined.

(** Runs the method [m] on [s] and names the object it returns. *)
Ltac run_method m s name :=
  let r := eval vm_compute in (m s) in
  lazymatch r with
  | Ok ?s' => pose (name := s')
  end.

Lemma demo_fires : fires Demo.model 3 2.
Proof. repeat split; reflexivity. Qed.

Lemma cycle_check_at_boundary_witness :
  exists b cs,
    cycle_check Demo.model ∅ (NdArray [3; 4]%Q) (NdArray [0; 0]%Q)
      (NdArray [3; 4]%Q) 2 [3%Z] [0%Q] (1 # 100) "allvar" None 3 = Ok (b, cs) /\
    b = false /\
    cs_cycle cs = [4%Z] /\
    (forall i, (0 <= i < 2)%nat ->
       exists q, vec_lookup (NdArray [3; 4]%Q) i = Some q /\
         vec_lookup (cs_varTc cs) i = Some q /\
         vec_lookup (cs_varTc_old cs) i = Some q).
Proof.
  destruct (cycle_check_at_boundary Demo.model ∅ (NdArray [3; 4]%Q)
              (NdArray [0; 0]%Q) (NdArray [3; 4]%Q) 2 [3%Z] [0%Q] (1 # 100)
              "allvar" None 3) as [HA HB]; [reflexivity | reflexivity |].
  destruct (HB 0%nat 2%nat 3%Z) as (b & cs & Hrun).
  - reflexivity.
  - reflexivity.
  - intros i Hi. destruct i as [| [| i]]; [| | lia]; simpl; eauto.
  - intros v. simpl. eauto.
  - intros path v Hpath. discriminate.
  - exists b, cs. split; [exact Hrun |].
    destruct (HA b cs Hrun) as (vs & ve & c0 & Hown & Hc0 & Hb & Hcyc & Hold).
    injection Hown as <- <-. injection Hc0 as <-.
    split; [apply Hb; lia |]. split; [exact Hcyc | exact Hold].
Defined.

Lemma induce_perturbation_one_shot_witness :
  induce_perturbation Demo.model "ms" 1 2 = Ok (Demo.model, []) /\
  exists self' log,
    induce_perturbation Demo.model "ms" 3 2 = Ok (self', log) /\
    have_induced_pert self' = true /\
    induce_perturbation self' "mr" 9 1 = Ok (self', []).
Proof.
  destruct (induce_perturbation_one_shot Demo.model "ms" 1 2) as (HA & _ & _).
  destruct (induce_perturbation_one_shot Demo.model "ms" 3 2) as (_ & HB & HC).
  split; [apply HA; right; right; lia |].
  pose (s1 := perturb_parameters "ms" Demo.model).
  run_method set_chamber_interfaces s1 s2.
  run_method equation_map s2 s3.
  run_method set_stiffness s3 s4.
  run_method lambdify_expressions s4 s5.
  destruct (HC 0%Z s1 s2 s3 s4 s5) as [log Hrun];
    [exact demo_fires | reflexivity | reflexivity | vm_compute; reflexivity
    | vm_compute; reflexivity | vm_compute; reflexivity
    | vm_compute; reflexivity |].
  destruct (HB _ _ demo_fires Hrun) as [Hflag Hlater].
  eexists _, log. split; [exact Hrun |]. split; [exact Hflag | apply Hlater].
Defined.

Lemma induce_perturbation_rebuild_order_witness :
  exists self' log,
    induce_perturbation Demo.model "ms" 3 2 = Ok (self', log) /\
    rebuild_differentiate_recompile log /\
    filter (fun c => c <> call_print "ms") log
    = [call_setup_arrays; call_set_chamber_interfaces; call_equation_map;
       call_set_stiffness; call_lambdify_expressions].
Proof.
  destruct (induce_perturbation Demo.model "ms" 3 2) as [[self' log] | e] eqn:Hrun;
    [| vm_compute in Hrun; discriminate].
  exists self', log. split; [reflexivity |].
  destruct (induce_perturbation_rebuild_order Demo.model self' "ms" 3 2 log
              demo_fires Hrun) as (Hord & Hlog & _).
  split; [exact Hord | exact Hlog].
Defined.

(** The order rebuild, recompile, re-differentiate is not the order of the
    calls: on the demo model the compilation is the last call made. *)
Lemma induce_perturbation_order_counterexample :
  exists self' log,
    fires Demo.model 3 2 /\
    induce_perturbation Demo.model "ms" 3 2 = Ok (self', log) /\
    ~ rebuild_recompile_differentiate log.
Proof.
  destruct (induce_perturbation Demo.model "ms" 3 2) as [[self' log] | e] eqn:Hrun;
    [| vm_compute in Hrun; discriminate].
  exists self', log. split; [exact demo_fires |]. split; [reflexivity |].
  destruct (induce_perturbation_fires_inv _ _ _ _ _ _ demo_fires Hrun)
    as (rank & s1 & s2 & s3 & s4 & s5 & Hrank & _ & _ & _ & _ & _ & _ & ->).
  injection Hrank as <-. simpl.
  intros [_ (i & j & Hij & Hi & Hj)].
  do 6 (destruct i as [| i]; [try discriminate Hi |]); [| discriminate Hi].
  do 5 (destruct j as [| j]; [lia |]).
  do 2 (destruct j as [| j]; [discriminate Hj |]). discriminate Hj.
Qed.

(** ** The Newton loop *)

Section Newton_properties.
Context {problem : NewtonProblem}.


(** Loop states reached from [st0] by passes that neither raise nor break. *)
Inductive reaches (u_start : vectors) (st0 : newton_state)
  : newton_state -> Prop :=
  | reaches_start : reaches u_start st0 st0
  | reaches_pass st st' :
      reaches u_start st0 st ->
      (it_ st < maxiter (self_ st))%Z ->
      (counter_adapt_ st < max_adapt)%Z ->
      newton_iteration u_start st = Ok (st', false) ->
      reaches u_start st0 st'.

Lemma newton_loop_exit fuel u_start st :
  (maxiter (self_ st) <= it_ st)%Z \/ (max_adapt <= counter_adapt_ st)%Z ->
  newton_loop fuel u_start st = Some (Raise (RuntimeError (it_ st))).
Proof.
  intros Hexit.
  assert (E : (it_ st <? maxiter (self_ st))%Z && (counter_adapt_ st <? max_adapt)%Z = false).
  { apply andb_false_iff. destruct Hexit; [left | right]; apply Z.ltb_ge; assumption. }
  destruct fuel; simpl; rewrite E; reflexivity.
Qed.

Lemma newton_loop_enter fuel u_start st :
  (it_ st < maxiter (self_ st))%Z -> (counter_adapt_ st < max_adapt)%Z ->
  newton_loop (S fuel) u_start st
  = match newton_iteration u_start st with
    | Raise e => Some (Raise e)
    | Ok (st', true) => Some (Ok st')
    | Ok (st', false) => newton_loop fuel u_start st'
    end.
Proof.
  intros Hit Hc. simpl.
  apply Z.ltb_lt in Hit, Hc. rewrite Hit, Hc. reflexivity.
Qed.

(** The three ways through the block [if self.divcont=='PTC': ...]. *)
Inductive adaptive_outcome (u_start : vectors) (n : norms)
    (st st' : newton_state) : Prop :=
  | adaptive_off :
      divcont (self_ st) <> Some "PTC" -> st' = st ->
      adaptive_outcome u_start n st st'
  | adaptive_quiet :
      divcont (self_ st) = Some "PTC" ->
      catch_solver_errors (res_u n) (inc_u n) maxresval = false ->
      self_ st' = set_maxiter (self_ st) 250 -> u_ st' = u_ st ->
      g_ st' = g_ st -> it_ st' = it_ st -> k_PTC_ st' = k_PTC_ st ->
      counter_adapt_ st' = counter_adapt_ st ->
      adaptive_outcome u_start n st st'
  | adaptive_reset low high :
      divcont (self_ st) = Some "PTC" ->
      catch_solver_errors (res_u n) (inc_u n) maxresval = true ->
      PTC_randadapt_range (self_ st) !! 0%nat = Some low ->
      PTC_randadapt_range (self_ st) !! 1%nat = Some high ->
      self_ st' = set_PTC (set_maxiter (self_ st) 250) true ->
      u_ st' = (u_start, (u_ st).2) ->
      g_ st' = (random_uniform low high (g_ st)).2 ->
      it_ st' = 0%Z ->
      k_PTC_ st' = (k_PTC_initial (self_ st)
                    * (random_uniform low high (g_ st)).1)%Q ->
      counter_adapt_ st' = (counter_adapt_ st + 1)%Z ->
      adaptive_outcome u_start n st st'.

Lemma adaptive_ptc_inv u_start n st st' :
  adaptive_ptc u_start n st = Ok st' -> adaptive_outcome u_start n st st'.
Proof.
  unfold adaptive_ptc, divcont_is_PTC. case_bool_decide as Hd.
  - destruct (catch_solver_errors (res_u n) (inc_u n) maxresval) eqn:Herr.
    + unfold reset_newton. simpl. intros E.
      apply bind_Ok in E as (low & Hlow & E).
      apply bind_Ok in E as (high & Hhigh & E).
      apply list_getitem_Ok in Hlow, Hhigh.
      destruct (random_uniform low high (g_ st)) as [r g] eqn:Hr.
      injection E as <-.
      apply (adaptive_reset _ _ _ _ low high); simpl; try rewrite Hr;
        try reflexivity; assumption.
    + intros [= <-]. apply adaptive_quiet; simpl; try reflexivity; assumption.
  - intros [= <-]. apply adaptive_off; [exact Hd | reflexivity].
Qed.

(** One pass through the loop body, taken apart. *)
Lemma newton_iteration_inv u_start st st' brk :
  newton_iteration u_start st = Ok (st', brk) ->
  exists n u k st1 st2,
    linearise_and_update (PTC (self_ st)) (k_PTC_ st) (u_ st) = Ok (n, u) /\
    ptc_update (self_ st) (it_ st + 1) (k_PTC_ st)
      (struct_res_u_norm_last_ st) (res_u n) = Ok k /\
    st1 = {| self_ := self_ st; u_ := u; g_ := g_ st; it_ := (it_ st + 1)%Z;
             k_PTC_ := k; counter_adapt_ := counter_adapt_ st;
             struct_res_u_norm_last_ := Some (res_u n) |} /\
    adaptive_outcome u_start n st1 st2 /\
    brk = check_converged (resnorms n) (incnorms n) (tolerances (self_ st2)) /\
    st' = (if brk then on_converged st2 else st2).
Proof.
  unfold newton_iteration. intros E.
  apply bind_Ok in E as ([n u] & Hlin & E).
  apply bind_Ok in E as (k & Hk & E).
  apply bind_Ok in E as (st2 & Had & E).
  eexists n, u, k, _, st2.
  split; [exact Hlin |]. split; [exact Hk |]. split; [reflexivity |].
  split; [apply adaptive_ptc_inv, Had |].
  destruct (check_converged _ _ _); injection E as <- <-; split; reflexivity.
Qed.













Lemma ptc_update_active self it k last res :
  PTC self = true -> (1 < it)%Z -> (0 < last)%Q ->
  ptc_update self it k (Some last) res = Ok (k * (res / last))%Q.
Proof.
  intros HPTC Hit Hlast. unfold ptc_update.
  apply Z.ltb_lt in Hit. rewrite HPTC, Hit. simpl.
  assert (Hg : PyFloat.gtb last 0 = true) by (apply gtb_true, Hlast).
  rewrite Hg. rewrite truediv_nonzero; [reflexivity |].
  intros E. rewrite E in Hlast. discriminate.
Qed.

Lemma ratio_gt_1 (res last : Q) : (0 < last)%Q -> (last < res)%Q -> (1 < res / last)%Q.
Proof. intros Hl Hr. apply Qlt_shift_div_l; [exact Hl | lra]. Qed.

Lemma ratio_lt_1 (res last : Q) : (0 < last)%Q -> (res < last)%Q -> (res / last < 1)%Q.
Proof. intros Hl Hr. apply Qlt_shift_div_r; [exact Hl | lra]. Qed.

(** C4: in a pass after the first ([it >= 1] on entry) with PTC on and a
    positive previous residual norm, the statement "for PTC" sets
    [k_PTC] to [k_PTC * (res_u / struct_res_u_norm_last)], and that is the
    factor the pass leaves behind unless the pass resets the step; for a
    positive factor, a larger residual norm increases it and a smaller one
    decreases it. *)
Theorem ptc_factor_update (u_start : vectors) (st : newton_state)
    (n : norms) (u : unknowns) (last : Q) :
  PTC (self_ st) = true ->
  (1 <= it_ st)%Z ->
  struct_res_u_norm_last_ st = Some last ->
  (0 < last)%Q ->
  linearise_and_update (PTC (self_ st)) (k_PTC_ st) (u_ st) = Ok (n, u) ->
  ptc_update (self_ st) (it_ st + 1) (k_PTC_ st)
    (struct_res_u_norm_last_ st) (res_u n)
  = Ok (k_PTC_ st * (res_u n / last))%Q /\
  (divcont (self_ st) <> Some "PTC" \/
   catch_solver_errors (res_u n) (inc_u n) maxresval = false ->
   exists st' brk,
     newton_iteration u_start st = Ok (st', brk) /\
     k_PTC_ st' = (k_PTC_ st * (res_u n / last))%Q /\
     struct_res_u_norm_last_ st' = Some (res_u n)) /\
  ((0 < k_PTC_ st)%Q -> (last < res_u n)%Q ->
   (k_PTC_ st < k_PTC_ st * (res_u n / last))%Q) /\
  ((0 < k_PTC_ st)%Q -> (res_u n < last)%Q ->
   (k_PTC_ st * (res_u n / last) < k_PTC_ st)%Q).
Proof.
  intros HPTC Hit Hlast Hpos Hlin.
  assert (Hupd : ptc_update (self_ st) (it_ st + 1) (k_PTC_ st)
                   (struct_res_u_norm_last_ st) (res_u n)
                 = Ok (k_PTC_ st * (res_u n / last))%Q).
  { rewrite Hlast. apply ptc_update_active; [exact HPTC | lia | exact Hpos]. }
  split; [exact Hupd |]. split; [| split].
  - intros Hcase. unfold newton_iteration. rewrite Hlin. simpl.
    rewrite Hupd. simpl. unfold adaptive_ptc, divcont_is_PTC. simpl.
    case_bool_decide as Hd.
    + destruct Hcase as [Hoff | Herr]; [contradiction |]. rewrite Herr. simpl.
      destruct (check_converged _ _ _); eexists _, _;
        (split; [reflexivity |]); unfold on_converged, divcont_is_PTC; simpl;
        rewrite ?bool_decide_eq_true_2 by exact Hd; simpl; auto.
    + simpl. destruct (check_converged _ _ _); eexists _, _;
        (split; [reflexivity |]); unfold on_converged, divcont_is_PTC; simpl;
        rewrite ?bool_decide_eq_false_2 by exact Hd; simpl; auto.
  - intros Hk Hgrow. pose proof (ratio_gt_1 _ _ Hpos Hgrow) as Hr.
    set (q := (res_u n / last)%Q) in *. nra.
  - intros Hk Hshrink. pose proof (ratio_lt_1 _ _ Hpos Hshrink) as Hr.
    set (q := (res_u n / last)%Q) in *. nra.
Qed.

End Newton_properties.

(** Evaluates [t] and records the value as [H : t = value]. *)
Ltac compute_eq t H :=
  let r := eval vm_compute in t in
  assert (H : t = r) by reflexivity.








Lemma ptc_factor_update_witness :
  ptc_update Demo.ptc_solver 2 (1 # 10) (Some 2%Q) 7
  = Ok ((1 # 10) * (7 / 2))%Q /\
  (exists st' brk,
     newton_iteration 1%Q (Demo.second_pass 3) = Ok (st', brk) /\
     k_PTC_ st' = ((1 # 10) * (7 / 2))%Q) /\
  ((1 # 10) < (1 # 10) * (7 / 2))%Q.
Proof.
  compute_eq (linearise_and_update (NewtonProblem := Demo.scalar_problem)
                true (1 # 10) (3%Q, tt)) Hlin.
  lazymatch type of Hlin with
  | _ = Ok (?n, ?u) =>
      destruct (ptc_factor_update (problem := Demo.scalar_problem) 1%Q
                  (Demo.second_pass 3) n u 2%Q)
        as (Hupd & Hpass & Hgrow & _);
        [reflexivity | simpl; lia | reflexivity | reflexivity | exact Hlin |]
  end.
  split; [exact Hupd |]. split.
  - destruct Hpass as (st' & brk & Hrun & Hk & _); [right; reflexivity |].
    exists st', brk. split; [exact Hrun | exact Hk].
  - apply Hgrow; reflexivity.
Defined.

(** ** Text *)

(** The string has no whitespace character. *)
Fixpoint no_space (s : string) : Prop :=
  match s with
  | "" => True
  | String c s' => PyText.is_space c = false /\ no_space s'
  end.

(** The string does not start with a decimal digit. *)
Definition starts_nondigit (s : string) : Prop :=
  match s with
  | "" => True
  | String c _ => PyText.digit_val c = None
  end.

Lemma app_nil_l_s (s : string) : "" +:+ s = s.
Proof. reflexivity. Qed.

Lemma app_cons_s c (a s : string) : String c a +:+ s = String c (a +:+ s).
Proof. reflexivity. Qed.

Lemma app_nil_r_s (s : string) : s +:+ "" = s.
Proof. induction s as [| c s IH]; [reflexivity |]. rewrite app_cons_s, IH. reflexivity. Qed.

Lemma app_assoc_s (a b c : string) : (a +:+ b) +:+ c = a +:+ (b +:+ c).
Proof.
  induction a as [| x a IH]; [reflexivity |].
  rewrite !app_cons_s, IH. reflexivity.
Qed.

Lemma app_length_s (a b : string) :
  String.length (a +:+ b) = (String.length a + String.length b)%nat.
Proof.
  induction a as [| x a IH]; [reflexivity |].
  rewrite app_cons_s. simpl. rewrite IH. reflexivity.
Qed.

Lemma app_inj_r_s (a b t : string) : a +:+ t = b +:+ t -> a = b.
Proof.
  revert b. induction a as [| x a IH]; intros [| y b] E.
  - reflexivity.
  - apply (f_equal String.length) in E.
    rewrite app_nil_l_s, app_cons_s in E. simpl in E. rewrite app_length_s in E. lia.
  - apply (f_equal String.length) in E.
    rewrite app_nil_l_s, app_cons_s in E. simpl in E. rewrite app_length_s in E. lia.
  - rewrite !app_cons_s in E. injection E as -> E. f_equal. apply IH, E.
Qed.

Lemma no_space_app (a b : string) : no_space (a +:+ b) <-> no_space a /\ no_space b.
Proof.
  induction a as [| x a IH]; [simpl; tauto |].
  rewrite app_cons_s. simpl. rewrite IH. tauto.
Qed.

Lemma digit_cases (d : Z) :
  (0 <= d <= 9)%Z ->
  d = 0%Z \/ d = 1%Z \/ d = 2%Z \/ d = 3%Z \/ d = 4%Z \/ d = 5%Z \/ d = 6%Z \/
  d = 7%Z \/ d = 8%Z \/ d = 9%Z.
Proof. lia. Qed.

Ltac each_digit d H :=
  destruct (digit_cases d H) as [-> | [-> | [-> | [-> | [-> | [-> | [-> | [-> | [-> | ->]]]]]]]]].

Lemma digit_val_char d : (0 <= d <= 9)%Z -> PyText.digit_val (PyText.digit_char d) = Some d.
Proof. intros H. each_digit d H; reflexivity. Qed.

Lemma digit_char_not_space d : (0 <= d <= 9)%Z -> PyText.is_space (PyText.digit_char d) = false.
Proof. intros H. each_digit d H; reflexivity. Qed.

Lemma read_sign_digit d s :
  (0 <= d <= 9)%Z ->
  PyText.read_sign (String (PyText.digit_char d) s) = (false, String (PyText.digit_char d) s).
Proof. intros H. each_digit d H; reflexivity. Qed.

Lemma mod10_digit (n : Z) : (0 <= n mod 10 <= 9)%Z.
Proof. pose proof (Z.mod_pos_bound n 10). lia. Qed.

Lemma no_space_digits_fixed w n : no_space (PyText.digits_fixed w n).
Proof.
  induction w as [| w IH]; simpl; [exact I |].
  split; [apply digit_char_not_space, mod10_digit | exact IH].
Qed.

Lemma digits_fixed_nonempty w n : PyText.digits_fixed (S w) n <> "".
Proof. simpl. discriminate. Qed.

(** Reading back [w] printed digits. *)
Lemma read_digits_fixed w : forall n acc cnt rest,
  starts_nondigit rest ->
  PyText.read_digits acc cnt (PyText.digits_fixed w n +:+ rest)
  = ((acc * 10 ^ Z.of_nat w + n mod 10 ^ Z.of_nat w)%Z, (cnt + w)%nat, rest).
Proof.
  induction w as [| w IH]; intros n acc cnt rest Hrest.
  - cbn [PyText.digits_fixed]. rewrite app_nil_l_s.
    change (Z.of_nat 0) with 0%Z. rewrite Z.pow_0_r, Z.mod_1_r, Nat.add_0_r.
    replace (acc * 1 + 0)%Z with acc by lia.
    destruct rest as [| c r]; [reflexivity |].
    cbn [PyText.read_digits]. simpl in Hrest. rewrite Hrest. reflexivity.
  - cbn [PyText.digits_fixed]. rewrite app_cons_s. cbn [PyText.read_digits].
    rewrite digit_val_char by apply mod10_digit.
    rewrite IH by exact Hrest. f_equal. f_equal; [| lia].
    rewrite Nat2Z.inj_succ, Z.pow_succ_r by lia.
    rewrite (Z.mul_comm 10 (10 ^ Z.of_nat w)).
    rewrite (Z.rem_mul_r n (10 ^ Z.of_nat w) 10) by lia.
    ring.
Qed.

(** ** [split] and [lines] *)

Lemma flush_nonempty (w : string) : w <> "" -> PyText.flush w = [w].
Proof. destruct w; [congruence | reflexivity]. Qed.

Lemma split_go_word (w : string) : forall cur s,
  no_space w -> PyText.split_go cur (w +:+ s) = PyText.split_go (cur +:+ w) s.
Proof.
  induction w as [| c w IH]; intros cur s Hw.
  - rewrite app_nil_l_s, app_nil_r_s. reflexivity.
  - destruct Hw as [Hc Hw]. rewrite app_cons_s. cbn [PyText.split_go]. rewrite Hc.
    rewrite IH by exact Hw. rewrite app_assoc_s. reflexivity.
Qed.

Lemma split_key_value (key val : string) :
  no_space key -> no_space val -> key <> "" -> val <> "" ->
  PyText.split (key +:+ " " +:+ val +:+ String "010"%char "") = [key; val].
Proof.
  intros Hk Hv Hk0 Hv0. unfold PyText.split.
  rewrite split_go_word by exact Hk. rewrite app_nil_l_s.
  rewrite app_cons_s, app_nil_l_s. cbn [PyText.split_go].
  change (PyText.is_space " "%char) with true. cbv iota.
  rewrite flush_nonempty by exact Hk0.
  rewrite split_go_word by exact Hv. rewrite app_nil_l_s.
  cbn [PyText.split_go]. change (PyText.is_space "010"%char) with true. cbv iota.
  rewrite flush_nonempty by exact Hv0. reflexivity.
Qed.

Lemma no_space_not_newline c : PyText.is_space c = false -> Ascii.eqb c "010"%char = false.
Proof.
  intros Hc. destruct (Ascii.eqb_spec c "010"%char) as [-> | _]; [| reflexivity].
  discriminate Hc.
Qed.

Lemma lines_go_word (w : string) : forall cur s,
  no_space w -> PyText.lines_go cur (w +:+ s) = PyText.lines_go (cur +:+ w) s.
Proof.
  induction w as [| c w IH]; intros cur s Hw.
  - rewrite app_nil_l_s, app_nil_r_s. reflexivity.
  - destruct Hw as [Hc Hw]. rewrite app_cons_s. cbn [PyText.lines_go].
    rewrite (no_space_not_newline c Hc).
    rewrite IH by exact Hw. rewrite app_assoc_s. reflexivity.
Qed.

(** A line [key value\n] followed by more text is the first line read. *)
Lemma lines_key_value (key val rest : string) :
  no_space key -> no_space val ->
  PyText.lines ((key +:+ " " +:+ val +:+ String "010"%char "") +:+ rest)
  = (key +:+ " " +:+ val +:+ String "010"%char "") :: PyText.lines rest.
Proof.
  intros Hk Hv. unfold PyText.lines.
  rewrite !app_assoc_s.
  rewrite lines_go_word by exact Hk. rewrite app_nil_l_s.
  rewrite app_cons_s, app_nil_l_s. cbn [PyText.lines_go].
  change (Ascii.eqb " "%char "010"%char) with false. cbv iota.
  rewrite lines_go_word by exact Hv.
  rewrite app_cons_s, app_nil_l_s. cbn [PyText.lines_go].
  change (Ascii.eqb "010"%char "010"%char) with true. cbv iota.
  rewrite !app_assoc_s. reflexivity.
Qed.

(** ** Decimal exponent and rounding *)

Lemma pow2_le_pow10 (k : Z) : (0 <= k -> 2 ^ k <= 10 ^ k)%Z.
Proof. intros Hk. apply Z.pow_le_mono_l. lia. Qed.

Lemma lt_pow10_log2 (n : Z) : (0 < n -> n < 10 ^ (Z.log2 n + 1))%Z.
Proof.
  intros Hn. pose proof (Z.log2_spec n Hn) as [_ Hlt].
  pose proof (Z.log2_nonneg n).
  pose proof (pow2_le_pow10 (Z.log2 n + 1) ltac:(lia)).
  replace (Z.succ (Z.log2 n)) with (Z.log2 n + 1)%Z in Hlt by lia. lia.
Qed.

Lemma ndigits_go_spec fuel : forall n,
  (0 <= n < 2 ^ (Z.of_nat fuel + 1))%Z ->
  (n < 10 ^ Z.of_nat (PyText.ndigits_go fuel n))%Z.
Proof.
  induction fuel as [| fuel IH]; intros n Hn.
  - simpl in *. lia.
  - cbn [PyText.ndigits_go]. destruct (Z.ltb_spec n 10) as [Hlt | Hge].
    + simpl. lia.
    + rewrite Nat2Z.inj_succ, Z.pow_succ_r by lia.
      assert (Hq : (n / 10 < 10 ^ Z.of_nat (PyText.ndigits_go fuel (n / 10)))%Z).
      { apply IH. split; [apply Z.div_pos; lia |].
        rewrite Nat2Z.inj_succ in Hn.
        replace (Z.succ (Z.of_nat fuel) + 1)%Z with (Z.succ (Z.of_nat fuel + 1)) in Hn by lia.
        rewrite Z.pow_succ_r in Hn by lia.
        apply Z.div_lt_upper_bound; lia. }
      pose proof (Z.div_mod n 10 ltac:(lia)). pose proof (Z.mod_pos_bound n 10 ltac:(lia)).
      lia.
Qed.

Lemma ndigits_spec (n : Z) : (0 <= n -> n < 10 ^ Z.of_nat (PyText.ndigits n))%Z.
Proof.
  intros Hn. unfold PyText.ndigits. apply ndigits_go_spec.
  split; [exact Hn |]. rewrite Z2Nat.id by apply Z.log2_nonneg.
  destruct (Z.eq_dec n 0%Z) as [-> | Hne]; [reflexivity |].
  pose proof (Z.log2_spec n ltac:(lia)) as [_ Hlt].
  replace (Z.succ (Z.log2 n)) with (Z.log2 n + 1)%Z in Hlt by lia. exact Hlt.
Qed.

Lemma exp_up_spec n d fuel : forall k,
  (0 < d)%Z -> (0 <= k)%Z -> (d * 10 ^ k <= n)%Z -> (n < d * 10 ^ (k + Z.of_nat fuel))%Z ->
  let e := PyText.exp_up fuel n d k in
  (0 <= e /\ d * 10 ^ e <= n < d * 10 ^ (e + 1))%Z.
Proof.
  induction fuel as [| fuel IH]; intros k Hd Hk Hlo Hhi.
  - exfalso. rewrite Z.add_0_r in Hhi. lia.
  - cbn [PyText.exp_up]. destruct (Z.ltb_spec n (d * 10 ^ (k + 1))) as [Hlt | Hge].
    + cbv zeta. lia.
    + apply IH; [exact Hd | lia | exact Hge |].
      replace (k + 1 + Z.of_nat fuel)%Z with (k + Z.of_nat (S fuel))%Z by lia.
      exact Hhi.
Qed.

Lemma exp_down_spec n d fuel : forall k,
  (1 <= k)%Z -> (n * 10 ^ (k - 1) < d)%Z -> (d <= n * 10 ^ (k + Z.of_nat fuel - 1))%Z ->
  let e := PyText.exp_down fuel n d k in
  (1 <= e /\ n * 10 ^ (e - 1) < d <= n * 10 ^ e)%Z.
Proof.
  induction fuel as [| fuel IH]; intros k Hk Hlo Hhi.
  - exfalso. rewrite Z.add_0_r in Hhi. lia.
  - cbn [PyText.exp_down]. destruct (Z.leb_spec d (n * 10 ^ k)) as [Hle | Hgt].
    + cbv zeta. lia.
    + apply IH; [lia | |].
      * replace (k + 1 - 1)%Z with k by lia. exact Hgt.
      * replace (k + 1 + Z.of_nat fuel - 1)%Z with (k + Z.of_nat (S fuel) - 1)%Z by lia.
        exact Hhi.
Qed.

(** The decimal exponent brackets [n/d] between two powers of ten. *)
Lemma dec_exponent_spec (n d : Z) :
  (0 < n)%Z -> (0 < d)%Z ->
  let e := PyText.dec_exponent n d in
  (0 <= e /\ d * 10 ^ e <= n < d * 10 ^ (e + 1))%Z \/
  (e < 0 /\ n * 10 ^ (- e - 1) < d <= n * 10 ^ (- e))%Z.
Proof.
  intros Hn Hd. unfold PyText.dec_exponent.
  pose proof (Z.log2_nonneg n) as Hln. pose proof (Z.log2_nonneg d) as Hld.
  destruct (Z.leb_spec d n) as [Hle | Hgt]; cbv zeta.
  - left. apply exp_up_spec; [exact Hd | lia | rewrite Z.pow_0_r; lia |].
    rewrite Nat2Z.inj_succ, Z2Nat.id by exact Hln.
    pose proof (lt_pow10_log2 n Hn).
    replace (0 + Z.succ (Z.log2 n))%Z with (Z.log2 n + 1)%Z by lia. nia.
  - right.
    destruct (exp_down_spec n d (S (S (Z.to_nat (Z.log2 d)))) 1) as [H1 H2].
    + lia.
    + rewrite Z.sub_diag, Z.pow_0_r. lia.
    + rewrite !Nat2Z.inj_succ, Z2Nat.id by exact Hld.
      pose proof (lt_pow10_log2 d Hd).
      replace (1 + Z.succ (Z.succ (Z.log2 d)) - 1)%Z with (Z.succ (Z.log2 d + 1)) by lia.
      rewrite Z.pow_succ_r by lia. nia.
    + set (k := PyText.exp_down _ n d 1) in *.
      replace (- - k - 1)%Z with (k - 1)%Z by lia.
      replace (- - k)%Z with k by lia. lia.
Qed.

(** Rounding to nearest is off by at most half a unit. *)
Lemma round_half_even_spec (N D : Z) :
  (0 < D)%Z ->
  let r := PyText.round_half_even N D in
  (- D <= 2 * (r * D - N) <= D)%Z.
Proof.
  intros HD. unfold PyText.round_half_even.
  pose proof (Z.div_mod N D ltac:(lia)) as Hdm.
  pose proof (Z.mod_pos_bound N D HD) as Hm.
  destruct (Z.ltb_spec (2 * (N mod D)) D); cbv zeta; [nia |].
  destruct (Z.ltb_spec D (2 * (N mod D))); [nia |].
  destruct (Z.even (N / D)); nia.
Qed.

(** The scaled fraction [N/D = (n/d) * 10^(16 - e)] rounded by [sci_digits]. *)
Definition scaled_num (n d e : Z) : Z :=
  if (e <=? 16)%Z then (n * 10 ^ (16 - e))%Z else n.
Definition scaled_den (n d e : Z) : Z :=
  if (e <=? 16)%Z then d else (d * 10 ^ (e - 16))%Z.

Lemma pow10_split (a b : Z) : (0 <= a -> 0 <= b -> 10 ^ (a + b) = 10 ^ a * 10 ^ b)%Z.
Proof. intros. apply Z.pow_add_r; assumption. Qed.

Lemma pow10_pos (k : Z) : (0 <= k -> 0 < 10 ^ k)%Z.
Proof. intros. apply Z.pow_pos_nonneg; lia. Qed.

Lemma scaled_bounds (n d : Z) :
  (0 < n)%Z -> (0 < d)%Z ->
  let e := PyText.dec_exponent n d in
  let N := scaled_num n d e in
  let D := scaled_den n d e in
  (0 < D /\ 10 ^ 16 * D <= N < 10 ^ 17 * D)%Z.
Proof.
  intros Hn Hd e N D. subst N D. unfold scaled_num, scaled_den.
  change (10 ^ 17)%Z with (10 * 10 ^ 16)%Z.
  destruct (dec_exponent_spec n d Hn Hd) as [(He & Hlo & Hhi) | (He & Hlo & Hhi)];
    fold e in He, Hlo, Hhi.
  - rewrite (Z.pow_add_r 10 e 1) in Hhi by lia. rewrite Z.pow_1_r in Hhi.
    destruct (Z.leb_spec e 16) as [Hle | Hgt].
    + pose proof (pow10_split e (16 - e) He ltac:(lia)) as Hs.
      replace (e + (16 - e))%Z with 16%Z in Hs by lia.
      pose proof (pow10_pos e He). pose proof (pow10_pos (16 - e) ltac:(lia)).
      set (P := (10 ^ e)%Z) in *. set (R := (10 ^ (16 - e))%Z) in *.
      rewrite Hs. split; [exact Hd |]. nia.
    + pose proof (pow10_split 16 (e - 16) ltac:(lia) ltac:(lia)) as Hs.
      replace (16 + (e - 16))%Z with e in Hs by lia.
      pose proof (pow10_pos (e - 16) ltac:(lia)).
      set (T := (10 ^ 16)%Z) in *. set (R := (10 ^ (e - 16))%Z) in *.
      rewrite Hs in Hlo, Hhi. split; nia.
  - destruct (Z.leb_spec e 16) as [_ | Hgt]; [| lia].
    pose proof (pow10_split 16 (- e) ltac:(lia) ltac:(lia)) as Hs.
    replace (16 + - e)%Z with (16 - e)%Z in Hs by lia.
    pose proof (pow10_split 1 (- e - 1) ltac:(lia) ltac:(lia)) as Hs1.
    replace (1 + (- e - 1))%Z with (- e)%Z in Hs1 by lia. rewrite Z.pow_1_r in Hs1.
    pose proof (pow10_pos (- e - 1) ltac:(lia)).
    set (T := (10 ^ 16)%Z) in *. set (R := (10 ^ (- e - 1))%Z) in *.
    rewrite Hs, Hs1. rewrite Hs1 in Hhi. split; [exact Hd |]. nia.
Qed.

Lemma inject_Z_pos_neq0 (z : Z) : (0 < z)%Z -> ~ inject_Z z == 0.
Proof. intros Hz E. unfold Qeq in E. simpl in E. lia. Qed.

Lemma pow10_inject (k : Z) : (0 <= k)%Z -> PyText.pow10 k == inject_Z (10 ^ k).
Proof. intros Hk. unfold PyText.pow10. rewrite (Zpower_Qpower 10 k Hk). reflexivity. Qed.

Lemma pow10_neg_inject (k : Z) : (0 <= k)%Z -> PyText.pow10 (- k) == / inject_Z (10 ^ k).
Proof.
  intros Hk. unfold PyText.pow10. rewrite Qpower_opp.
  rewrite (Zpower_Qpower 10 k Hk). reflexivity.
Qed.

(** The power of ten by which the mantissa is scaled back. *)
Lemma pow10_scaled (n : Z) (d : positive) (e : Z) :
  (0 < n)%Z ->
  PyText.pow10 (e - 16)
  == (n # d) * (inject_Z (scaled_den n (Zpos d) e) / inject_Z (scaled_num n (Zpos d) e)).
Proof.
  intros Hn. unfold scaled_num, scaled_den.
  rewrite (Qmake_Qdiv n d).
  pose proof (inject_Z_pos_neq0 n Hn) as Hn0.
  pose proof (inject_Z_pos_neq0 (Zpos d) ltac:(lia)) as Hd0.
  destruct (Z.leb_spec e 16) as [Hle | Hgt].
  - replace (e - 16)%Z with (- (16 - e))%Z by lia.
    rewrite pow10_neg_inject by lia.
    pose proof (inject_Z_pos_neq0 _ (pow10_pos (16 - e) ltac:(lia))) as Hp0.
    rewrite inject_Z_mult. field. auto.
  - rewrite pow10_inject by lia. rewrite inject_Z_mult. field. auto.
Qed.

(** Half a unit in the 17th significant digit, relative to the value. *)
Definition half_ulp : Q := 1 # 20000000000000000.

Lemma rounding_error (a s : Q) (m0 N D : Z) :
  (0 < a)%Q -> (0 < D)%Z -> (10 ^ 16 * D <= N)%Z ->
  (- D <= 2 * (m0 * D - N) <= D)%Z ->
  (s == a * (inject_Z D / inject_Z N))%Q ->
  (Qabs (inject_Z m0 * s - a) <= half_ulp * a)%Q.
Proof.
  intros Ha HD HN HR Hs.
  assert (HNpos : (0 < N)%Z) by lia.
  pose proof (inject_Z_pos_neq0 N HNpos) as HN0.
  assert (E : (inject_Z m0 * s - a == a * (inject_Z (m0 * D - N) / inject_Z N))%Q).
  { rewrite Hs. unfold Zminus. rewrite inject_Z_plus, inject_Z_mult, inject_Z_opp.
    field. exact HN0. }
  rewrite E. rewrite Qabs_Qmult. rewrite (Qabs_pos a) by (apply Qlt_le_weak, Ha).
  rewrite (Qmult_comm half_ulp a).
  apply Qmult_le_l; [exact Ha |].
  assert (HxN : (0 < inject_Z N)%Q) by (unfold Qlt; simpl; lia).
  apply Qabs_Qle_condition. split.
  - apply Qle_shift_div_l; [exact HxN |].
    unfold half_ulp, Qle, Qopp, Qmult, inject_Z. simpl. lia.
  - apply Qle_shift_div_r; [exact HxN |].
    unfold half_ulp, Qle, Qmult, inject_Z. simpl. lia.
Qed.

Lemma sci_mantissa_eq (n d e : Z) :
  (if (e <=? 16)%Z then PyText.round_half_even (n * 10 ^ (16 - e)) d
   else PyText.round_half_even n (d * 10 ^ (e - 16)))
  = PyText.round_half_even (scaled_num n d e) (scaled_den n d e).
Proof. unfold scaled_num, scaled_den. destruct (e <=? 16)%Z; reflexivity. Qed.

(** The mantissa has 17 digits, and mantissa times power of ten is within
    half a unit of the 17th digit of the value. *)
Lemma sci_digits_spec (n : Z) (d : positive) :
  (0 < n)%Z ->
  (10 ^ 16 <= (PyText.sci_digits n (Zpos d)).1 < 10 ^ 17)%Z /\
  (Qabs (inject_Z (PyText.sci_digits n (Zpos d)).1
         * PyText.pow10 ((PyText.sci_digits n (Zpos d)).2 - 16) - (n # d))
   <= half_ulp * (n # d))%Q.
Proof.
  intros Hn. unfold PyText.sci_digits.
  set (e := PyText.dec_exponent n (Zpos d)).
  rewrite sci_mantissa_eq.
  destruct (scaled_bounds n (Zpos d) Hn ltac:(lia)) as (HD & Hlo & Hhi).
  fold e in HD, Hlo, Hhi.
  set (N := scaled_num n (Zpos d) e) in *. set (D := scaled_den n (Zpos d) e) in *.
  pose proof (round_half_even_spec N D HD) as HR. cbv zeta in HR.
  set (m0 := PyText.round_half_even N D) in *.
  assert (Ha : (0 < n # d)%Q) by (unfold Qlt; simpl; lia).
  pose proof (rounding_error (n # d) (PyText.pow10 (e - 16)) m0 N D Ha HD Hlo HR
                (pow10_scaled n d e Hn)) as Herr.
  assert (Hm : (10 ^ 16 <= m0 <= 10 ^ 17)%Z).
  { change (10 ^ 17)%Z with (10 * 10 ^ 16)%Z in *.
    set (T := (10 ^ 16)%Z) in *. assert (0 < T)%Z by (subst T; reflexivity). nia. }
  destruct (Z.eqb_spec m0 (10 ^ 17)) as [E | Hne]; cbn [fst snd].
  - split; [split; [lia | reflexivity] |].
    assert (Ev : (inject_Z (10 ^ 16) * PyText.pow10 (e + 1 - 16)
                  == inject_Z m0 * PyText.pow10 (e - 16))%Q).
    { rewrite E. replace (e + 1 - 16)%Z with ((e - 16) + 1)%Z by lia.
      unfold PyText.pow10. rewrite Qpower_plus by discriminate.
      change (10 ^ 1)%Q with (inject_Z 10).
      change (10 ^ 17)%Z with (10 ^ 16 * 10)%Z. rewrite inject_Z_mult. ring. }
    rewrite Ev. exact Herr.
  - split; [lia | exact Herr].
Qed.

(** The text [format_16E] prints for mantissa [m] and exponent [e]. *)
Definition sci_text (neg : bool) (m e : Z) : string :=
  (if neg then "-" else "") +:+
  PyText.digits_fixed 1 (m / 10 ^ 16) +:+ "." +:+ PyText.digits_fixed 16 m +:+
  "E" +:+ (if (e <? 0)%Z then "-" else "+") +:+
  PyText.digits_fixed (Nat.max 2 (PyText.ndigits (Z.abs e))) (Z.abs e).

Lemma format_16E_nonzero (q : Q) :
  ~ (q == 0)%Q ->
  PyText.format_16E q
  = sci_text (Qnum q <? 0)%Z
      (PyText.sci_digits (Z.abs (Qnum q)) (Zpos (Qden q))).1
      (PyText.sci_digits (Z.abs (Qnum q)) (Zpos (Qden q))).2.
Proof.
  intros Hq. unfold PyText.format_16E, sci_text.
  destruct (Qeq_bool q 0) eqn:E; [apply Qeq_bool_iff in E; contradiction |].
  destruct (PyText.sci_digits _ _) as [m e]. reflexivity.
Qed.

Lemma read_exponent (e : Z) :
  PyText.read_digits 0 0
    (PyText.digits_fixed (Nat.max 2 (PyText.ndigits (Z.abs e))) (Z.abs e))
  = (Z.abs e, Nat.max 2 (PyText.ndigits (Z.abs e)), "").
Proof.
  set (w := Nat.max 2 (PyText.ndigits (Z.abs e))).
  rewrite <- (app_nil_r_s (PyText.digits_fixed w (Z.abs e))).
  rewrite read_digits_fixed by exact I.
  f_equal. f_equal.
  pose proof (ndigits_spec (Z.abs e) ltac:(lia)) as Hlt.
  assert (Hw : (10 ^ Z.of_nat (PyText.ndigits (Z.abs e)) <= 10 ^ Z.of_nat w)%Z).
  { apply Z.pow_le_mono_r; subst w; lia. }
  rewrite Z.mod_small by lia. lia.
Qed.

(** Reading back what [format_16E] prints. *)
Lemma float_sci_text (neg : bool) (m e : Z) :
  (10 ^ 16 <= m < 10 ^ 17)%Z ->
  PyText.float (sci_text neg m e)
  = Ok (PyText.signed neg (inject_Z m * PyText.pow10 (e - 16))).
Proof.
  intros Hm.
  assert (Hd0 : (1 <= m / 10 ^ 16 <= 9)%Z).
  { split; [apply Z.div_le_lower_bound; lia |].
    assert (m / 10 ^ 16 < 10)%Z by (apply Z.div_lt_upper_bound; lia). lia. }
  set (d0 := (m / 10 ^ 16)%Z) in *.
  set (frac := PyText.digits_fixed 16 m).
  set (etext := (if (e <? 0)%Z then "-" else "+") +:+
                PyText.digits_fixed (Nat.max 2 (PyText.ndigits (Z.abs e))) (Z.abs e)).
  set (body := PyText.digits_fixed 1 d0 +:+ "." +:+ frac +:+ "E" +:+ etext).
  assert (Hsign : PyText.read_sign (sci_text neg m e) = (neg, body)).
  { unfold sci_text. fold d0 frac etext body. destruct neg.
    - reflexivity.
    - rewrite app_nil_l_s. subst body. cbn [PyText.digits_fixed].
      rewrite app_cons_s. apply read_sign_digit, mod10_digit. }
  assert (Hint : PyText.read_digits 0 0 body
                 = (d0, 1%nat, "." +:+ frac +:+ "E" +:+ etext)).
  { subst body. rewrite read_digits_fixed by reflexivity.
    f_equal. f_equal. change (10 ^ Z.of_nat 1)%Z with 10%Z.
    rewrite Z.mod_small by lia. lia. }
  assert (Hfrac : PyText.read_digits d0 0 (frac +:+ "E" +:+ etext)
                  = (m, 16%nat, "E" +:+ etext)).
  { subst frac. rewrite read_digits_fixed by reflexivity.
    f_equal. f_equal. change (Z.of_nat 16) with 16%Z.
    pose proof (Z.div_mod m (10 ^ 16) ltac:(lia)). subst d0. lia. }
  assert (Hesign : PyText.read_sign etext
                   = ((e <? 0)%Z, PyText.digits_fixed
                        (Nat.max 2 (PyText.ndigits (Z.abs e))) (Z.abs e))).
  { subst etext. destruct (e <? 0)%Z; reflexivity. }
  unfold PyText.float. rewrite Hsign. cbv beta iota. rewrite Hint. cbv beta iota.
  change ("." +:+ frac +:+ "E" +:+ etext)
    with (String "."%char (frac +:+ "E" +:+ etext)).
  cbv beta iota. rewrite Hfrac. cbv beta iota.
  change (1 + 16 =? 0)%nat with false. cbv beta iota.
  change ("E" +:+ etext) with (String "E"%char etext).
  cbv beta iota.
  change (Ascii.eqb "E" "e" || Ascii.eqb "E" "E")%char with true. cbv beta iota.
  rewrite Hesign. cbv beta iota. rewrite read_exponent. cbv beta iota.
  assert (Hne : (Nat.max 2 (PyText.ndigits (Z.abs e)) =? 0)%nat = false)
    by (apply Nat.eqb_neq; lia).
  rewrite Hne. cbv beta iota.
  do 4 f_equal. change (Z.of_nat 16) with 16%Z.
  destruct (Z.ltb_spec e 0); lia.
Qed.

Lemma no_space_sci_text neg m e : no_space (sci_text neg m e) /\ sci_text neg m e <> "".
Proof.
  unfold sci_text. split.
  - repeat (apply no_space_app; split);
      try apply no_space_digits_fixed.
    + destruct neg; simpl; auto.
    + simpl. auto.
    + simpl. auto.
    + destruct (e <? 0)%Z; simpl; auto.
  - destruct neg; [discriminate |]. rewrite app_nil_l_s.
    cbn [PyText.digits_fixed]. rewrite app_cons_s. discriminate.
Qed.

(** What [float] reads from ['%.16E' % q] is within half a unit of the 17th
    significant digit of [q]. *)
Lemma float_format_16E (q : Q) :
  exists v',
    PyText.float (PyText.format_16E q) = Ok v' /\
    (Qabs (v' - q) <= half_ulp * Qabs q)%Q.
Proof.
  destruct (Qeq_dec q 0) as [Hz | Hnz].
  - exists (PyText.signed false (inject_Z 0 * PyText.pow10 (0 - 16))).
    split.
    + unfold PyText.format_16E. apply Qeq_bool_iff in Hz. rewrite Hz. reflexivity.
    + rewrite Hz. vm_compute. discriminate.
  - rewrite (format_16E_nonzero q Hnz).
    destruct q as [n d]. cbn [Qnum Qden].
    assert (Hn : n <> 0%Z).
    { intros ->. apply Hnz. reflexivity. }
    destruct (sci_digits_spec (Z.abs n) d ltac:(lia)) as [Hm Herr].
    rewrite (float_sci_text _ _ _ Hm).
    eexists. split; [reflexivity |].
    set (v := (inject_Z (PyText.sci_digits (Z.abs n) (Zpos d)).1
               * PyText.pow10 ((PyText.sci_digits (Z.abs n) (Zpos d)).2 - 16))%Q) in *.
    change (Qabs (n # d)) with (Z.abs n # d).
    destruct (Z.ltb_spec n 0) as [Hneg | Hpos]; cbn [PyText.signed].
    + assert (E : (- v - (n # d) == - (v - (Z.abs n # d)))%Q).
      { rewrite (Z.abs_neq n) by lia.
        assert (En : (- n # d == - (n # d))%Q) by reflexivity.
        rewrite En. ring. }
      rewrite E, Qabs_opp. exact Herr.
    + rewrite (Z.abs_eq n) in Herr by lia. rewrite (Z.abs_eq n) by lia. exact Herr.
Qed.

Lemma no_space_format_16E (q : Q) :
  no_space (PyText.format_16E q) /\ PyText.format_16E q <> "".
Proof.
  unfold PyText.format_16E. destruct (Qeq_bool q 0).
  - split; [vm_compute; tauto | discriminate].
  - destruct (PyText.sci_digits _ _) as [m e].
    apply (no_space_sci_text (Qnum q <? 0)%Z m e).
Qed.

(** ** Initial-condition files *)

(** The value read back from the text printed for [q]. *)
Definition reparse (q : Q) : Q :=
  match PyText.float (PyText.format_16E q) with
  | Ok v => v
  | Raise _ => q
  end.

Lemma float_format_reparse (q : Q) :
  PyText.float (PyText.format_16E q) = Ok (reparse q) /\
  (Qabs (reparse q - q) <= half_ulp * Qabs q)%Q.
Proof.
  unfold reparse. destruct (float_format_16E q) as (v' & -> & Hv). auto.
Qed.

(** The named values [(name, v[index])] of a variable map. *)
Fixpoint sample (v : vec) (vm : list (string * nat)) : option (list (string * Q)) :=
  match vm with
  | [] => Some []
  | (k, j) :: vm' =>
      match vec_lookup v j, sample v vm' with
      | Some q, Some kvs => Some ((k, q) :: kvs)
      | _, _ => None
      end
  end.

(** The text of an initial-condition file holding the named values. *)
Fixpoint initial_text (kvs : list (string * Q)) : string :=
  match kvs with
  | [] => ""
  | (k, q) :: kvs' => initial_line (k +:+ "_0") q +:+ initial_text kvs'
  end.

(** The dictionary read from that text. *)
Fixpoint initial_dict (d : gmap string Q) (kvs : list (string * Q)) : gmap string Q :=
  match kvs with
  | [] => d
  | (k, q) :: kvs' => initial_dict (<[k +:+ "_0" := reparse q]> d) kvs'
  end.

Lemma sample_keys v vm kvs : sample v vm = Some kvs -> kvs.*1 = vm.*1.
Proof.
  revert kvs. induction vm as [| [k j] vm IH]; intros kvs; simpl.
  - intros [= <-]. reflexivity.
  - destruct (vec_lookup v j) as [q |]; [| discriminate].
    destruct (sample v vm) as [kvs' |]; [| discriminate].
    intros [= <-]. simpl. f_equal. apply IH. reflexivity.
Qed.

Lemma sample_lookup v vm kvs k j :
  sample v vm = Some kvs -> (k, j) ∈ vm ->
  exists q, vec_lookup v j = Some q /\ (k, q) ∈ kvs.
Proof.
  revert kvs. induction vm as [| [k0 j0] vm IH]; intros kvs Hs Hin.
  - inversion Hin.
  - simpl in Hs. destruct (vec_lookup v j0) as [q0 |] eqn:Hq; [| discriminate].
    destruct (sample v vm) as [kvs' |]; [| discriminate].
    injection Hs as <-. apply elem_of_cons in Hin as [[= -> ->] | Hin].
    + exists q0. split; [exact Hq | left].
    + destruct (IH kvs' eq_refl Hin) as (q & Hv & Hk).
      exists q. split; [exact Hv | right; exact Hk].
Qed.

Lemma sample_total (a : list Q) vm :
  (forall j, j ∈ vm.*2 -> (j < length a)%nat) ->
  exists kvs, sample (NdArray a) vm = Some kvs.
Proof.
  induction vm as [| [k j] vm IH]; intros Hj; simpl; [eauto |].
  destruct (lookup_lt_is_Some_2 a j) as [q Hq].
  { apply Hj. simpl. left. }
  rewrite Hq. destruct IH as [kvs ->]; [| eauto].
  intros j' Hj'. apply Hj. simpl. right. exact Hj'.
Qed.

Section Initial_files.
Context {sympy_engine : Sympy} {mpi_comm : Mpi} {derived_model : DerivedModel}.

Lemma write_initial_entry_Ok (self : cardiovascular0Dbase) (old new : vec)
    (i : nat) (f : string * string) (k : string) (j : nat) (qo qn : Q) :
  varmap_key self i = Ok k -> varmap_value self i = Ok j ->
  vec_getitem old j = Ok qo -> vec_getitem new j = Ok qn ->
  write_initial_entry self old new i f
  = Ok (f.1 +:+ initial_line (k +:+ "_0") qo, f.2 +:+ initial_line (k +:+ "_0") qn).
Proof.
  intros Hk Hj Ho Hn. unfold write_initial_entry.
  rewrite Hk, Hj. cbn [mbind result_bind]. rewrite Ho. cbn [mbind result_bind].
  rewrite Hn. reflexivity.
Qed.

(** The loop of [write_initial] appends one line per variable to each file. *)
Lemma write_initial_loop (self : cardiovascular0Dbase) (old new : vec) :
  forall suf pre kvo kvn f,
    varmap self = pre ++ suf ->
    sample old suf = Some kvo -> sample new suf = Some kvn ->
    for_range (length pre) (length suf) (write_initial_entry self old new) f
    = Ok (f.1 +:+ initial_text kvo, f.2 +:+ initial_text kvn).
Proof.
  induction suf as [| [k j] suf IH]; intros pre kvo kvn [f1 f2] Hvm Ho Hn.
  - simpl in *. injection Ho as <-. injection Hn as <-. simpl.
    rewrite !app_nil_r_s. reflexivity.
  - simpl in Ho, Hn.
    destruct (vec_lookup old j) as [qo |] eqn:Hqo; [| discriminate].
    destruct (sample old suf) as [kvo' |] eqn:Hso; [| discriminate].
    destruct (vec_lookup new j) as [qn |] eqn:Hqn; [| discriminate].
    destruct (sample new suf) as [kvn' |] eqn:Hsn; [| discriminate].
    injection Ho as <-. injection Hn as <-.
    assert (Hk : varmap_key self (length pre) = Ok k).
    { unfold varmap_key. apply list_getitem_Ok. rewrite Hvm, fmap_app.
      rewrite lookup_app_r by (rewrite length_fmap; lia).
      rewrite length_fmap, Nat.sub_diag. reflexivity. }
    assert (Hj : varmap_value self (length pre) = Ok j).
    { unfold varmap_value. apply list_getitem_Ok. rewrite Hvm, fmap_app.
      rewrite lookup_app_r by (rewrite length_fmap; lia).
      rewrite length_fmap, Nat.sub_diag. reflexivity. }
    apply vec_getitem_Ok in Hqo, Hqn.
    cbn [for_range length].
    rewrite (write_initial_entry_Ok self old new (length pre) (f1, f2) k j qo qn)
      by assumption.
    cbn [mbind result_bind fst snd].
    specialize (IH (pre ++ [(k, j)]) kvo' kvn'
                  (f1 +:+ initial_line (k +:+ "_0") qo,
                   f2 +:+ initial_line (k +:+ "_0") qn)).
    rewrite length_app in IH. simpl in IH.
    replace (length pre + 1)%nat with (S (length pre)) in IH by lia.
    rewrite IH; [| rewrite Hvm, <- app_assoc; reflexivity | reflexivity | reflexivity].
    cbn [initial_text]. rewrite !app_assoc_s. reflexivity.
Qed.

End Initial_files.

Lemma key_no_space (k : string) : no_space k -> no_space (k +:+ "_0") /\ k +:+ "_0" <> "".
Proof.
  intros Hk. split.
  - apply no_space_app. split; [exact Hk | simpl; auto].
  - destruct k; [discriminate | rewrite app_cons_s; discriminate].
Qed.

Lemma lines_initial_text (kvs : list (string * Q)) :
  (forall k, k ∈ kvs.*1 -> no_space k) ->
  PyText.lines (initial_text kvs)
  = (fun kq => initial_line (kq.1 +:+ "_0") kq.2) <$> kvs.
Proof.
  induction kvs as [| [k q] kvs IH]; intros Hk; [reflexivity |].
  cbn [initial_text fmap list_fmap fst snd]. unfold initial_line at 1.
  rewrite lines_key_value.
  - rewrite IH; [reflexivity |]. intros k' Hk'. apply Hk. simpl. right. exact Hk'.
  - apply key_no_space, Hk. simpl. left.
  - apply no_space_format_16E.
Qed.

Lemma read_initial_line_written (d : gmap string Q) (k : string) (q : Q) :
  no_space k ->
  read_initial_line d (initial_line (k +:+ "_0") q)
  = Ok (<[k +:+ "_0" := reparse q]> d).
Proof.
  intros Hk. unfold read_initial_line, initial_line.
  destruct (key_no_space k Hk) as [Hks Hk0].
  destruct (no_space_format_16E q) as [Hfs Hf0].
  rewrite split_key_value by assumption.
  destruct (float_format_reparse q) as [-> _]. reflexivity.
Qed.

Lemma read_initial_lines_written (kvs : list (string * Q)) : forall d,
  (forall k, k ∈ kvs.*1 -> no_space k) ->
  read_initial_lines d ((fun kq => initial_line (kq.1 +:+ "_0") kq.2) <$> kvs)
  = Ok (initial_dict d kvs).
Proof.
  induction kvs as [| [k q] kvs IH]; intros d Hk; [reflexivity |].
  cbn [fmap list_fmap read_initial_lines fst snd].
  rewrite read_initial_line_written by (apply Hk; simpl; left).
  cbn [mbind result_bind]. cbn [initial_dict]. apply IH.
  intros k' Hk'. apply Hk. simpl. right. exact Hk'.
Qed.

Lemma initial_dict_other (kvs : list (string * Q)) : forall d key,
  (forall k, k ∈ kvs.*1 -> key <> k +:+ "_0") ->
  initial_dict d kvs !! key = d !! key.
Proof.
  induction kvs as [| [k q] kvs IH]; intros d key Hne; [reflexivity |].
  cbn [initial_dict]. rewrite IH.
  - apply lookup_insert_ne. intros E. apply (Hne k); [simpl; left | congruence].
  - intros k' Hk'. apply Hne. simpl. right. exact Hk'.
Qed.

Lemma initial_dict_lookup (kvs : list (string * Q)) : forall d k q,
  NoDup kvs.*1 -> (k, q) ∈ kvs ->
  initial_dict d kvs !! (k +:+ "_0") = Some (reparse q).
Proof.
  induction kvs as [| [k0 q0] kvs IH]; intros d k q Hnd Hin.
  - inversion Hin.
  - simpl in Hnd. apply NoDup_cons in Hnd as [Hnotin Hnd].
    cbn [initial_dict]. apply elem_of_cons in Hin as [[= -> ->] | Hin].
    + rewrite initial_dict_other; [apply lookup_insert_eq |].
      intros k' Hk' E. apply app_inj_r_s in E. subst k'. contradiction.
    + apply IH; assumption.
Qed.

Lemma initial_dict_dom (kvs : list (string * Q)) : forall d key,
  is_Some (initial_dict d kvs !! key) ->
  is_Some (d !! key) \/ exists k, k ∈ kvs.*1 /\ key = k +:+ "_0".
Proof.
  induction kvs as [| [k q] kvs IH]; intros d key Hs; [left; exact Hs |].
  cbn [initial_dict] in Hs. apply IH in Hs as [Hs | (k' & Hk' & ->)].
  - destruct (decide (key = k +:+ "_0")) as [-> | Hne].
    + right. exists k. split; [simpl; left | reflexivity].
    + rewrite lookup_insert_ne in Hs by congruence. left. exact Hs.
  - right. exists k'. split; [simpl; right; exact Hk' | reflexivity].
Qed.

Lemma set_initial_from_file_written (fs : gmap string string) (file : string)
    (kvs : list (string * Q)) :
  fs !! file = Some (initial_text kvs) ->
  (forall k, k ∈ kvs.*1 -> no_space k) ->
  set_initial_from_file fs file = Ok (initial_dict ∅ kvs).
Proof.
  intros Hf Hk. unfold set_initial_from_file. rewrite Hf.
  rewrite lines_initial_text by exact Hk.
  apply read_initial_lines_written, Hk.
Qed.

Section Initial_round_trip.
Context {sympy_engine : Sympy} {mpi_comm : Mpi} {derived_model : DerivedModel}.

Definition Tstart (path : string) : string := path +:+ "/initial_data_Tstart.txt".
Definition Tend (path : string) : string := path +:+ "/initial_data_Tend.txt".

Lemma Tstart_Tend_differ (path : string) : Tstart path <> Tend path.
Proof.
  unfold Tstart, Tend. intros E. apply (inj (String.append path)) in E.
  discriminate E.
Qed.

(** On rank 0, [write_initial] replaces the two files by one line per
    variable and touches no other file. *)
Lemma write_initial_rank0 (self : cardiovascular0Dbase)
    (fs : gmap string string) (path : string) (old new : vec) kvo kvn :
  comm self = Some 0%Z ->
  isinstance_ndarray old = true ->
  sample old (varmap self) = Some kvo ->
  sample new (varmap self) = Some kvn ->
  write_initial self fs path old new
  = Ok (<[Tend path := initial_text kvn]> (<[Tstart path := initial_text kvo]> fs)).
Proof.
  intros Hc Hnd Ho Hn. unfold write_initial. rewrite Hnd. cbn [mbind result_bind].
  rewrite Hc. cbn [mbind result_bind]. change (0 =? 0)%Z with true. cbv iota.
  pose proof (write_initial_loop self old new (varmap self) [] kvo kvn ("", "")
                eq_refl Ho Hn) as Hloop.
  change (length (@nil (string * nat))) with 0%nat in Hloop. rewrite Hloop.
  reflexivity.
Qed.

(** X1: round trip of the initial-condition files.  On rank 0, for a
    variable map with distinct names free of whitespace and indices inside
    both arrays, [write_initial] returns, and reading each of its two files
    with [set_initial_from_file] returns a dictionary whose keys are
    exactly the names with [_0] appended and whose values are the written
    ones up to a relative error of [1/(2*10^16)]. *)
Theorem initial_conditions_round_trip (self : cardiovascular0Dbase)
    (fs : gmap string string) (path : string) (old new : list Q) :
  comm self = Some 0%Z ->
  NoDup (varmap self).*1 ->
  (forall k, k ∈ (varmap self).*1 -> no_space k) ->
  (forall j, j ∈ (varmap self).*2 -> (j < length old)%nat /\ (j < length new)%nat) ->
  exists fs' d_start d_end,
    write_initial self fs path (NdArray old) (NdArray new) = Ok fs' /\
    set_initial_from_file fs' (path +:+ "/initial_data_Tstart.txt") = Ok d_start /\
    set_initial_from_file fs' (path +:+ "/initial_data_Tend.txt") = Ok d_end /\
    (forall k j, (k, j) ∈ varmap self ->
       exists vo vn vo' vn',
         old !! j = Some vo /\ new !! j = Some vn /\
         d_start !! (k +:+ "_0") = Some vo' /\
         d_end !! (k +:+ "_0") = Some vn' /\
         (Qabs (vo' - vo) <= (1 # 20000000000000000) * Qabs vo)%Q /\
         (Qabs (vn' - vn) <= (1 # 20000000000000000) * Qabs vn)%Q) /\
    (forall key, is_Some (d_start !! key) \/ is_Some (d_end !! key) ->
       exists k, k ∈ (varmap self).*1 /\ key = k +:+ "_0").
Proof.
  intros Hc Hnd Hsp Hidx.
  destruct (sample_total old (varmap self)) as [kvo Ho].
  { intros j Hj. apply Hidx, Hj. }
  destruct (sample_total new (varmap self)) as [kvn Hn].
  { intros j Hj. apply Hidx, Hj. }
  pose proof (sample_keys _ _ _ Ho) as Hko. pose proof (sample_keys _ _ _ Hn) as Hkn.
  exists (<[Tend path := initial_text kvn]> (<[Tstart path := initial_text kvo]> fs)),
         (initial_dict ∅ kvo), (initial_dict ∅ kvn).
  split; [apply write_initial_rank0; assumption || reflexivity |].
  split; [| split; [| split]].
  - apply set_initial_from_file_written; [| rewrite Hko; exact Hsp].
    fold (Tstart path). rewrite lookup_insert_ne by (apply not_eq_sym, Tstart_Tend_differ).
    apply lookup_insert_eq.
  - apply set_initial_from_file_written; [| rewrite Hkn; exact Hsp].
    fold (Tend path). apply lookup_insert_eq.
  - intros k j Hin.
    destruct (sample_lookup _ _ _ k j Ho Hin) as (vo & Hvo & Hino).
    destruct (sample_lookup _ _ _ k j Hn Hin) as (vn & Hvn & Hinn).
    exists vo, vn, (reparse vo), (reparse vn).
    split; [exact Hvo |]. split; [exact Hvn |].
    split; [apply initial_dict_lookup; [rewrite Hko; exact Hnd | exact Hino] |].
    split; [apply initial_dict_lookup; [rewrite Hkn; exact Hnd | exact Hinn] |].
    split; apply float_format_reparse.
  - intros key [Hs | Hs]; apply initial_dict_dom in Hs as [[x Hx] | (k & Hk & ->)];
      try (rewrite lookup_empty in Hx; discriminate).
    + exists k. split; [rewrite <- Hko; exact Hk | reflexivity].
    + exists k. split; [rewrite <- Hkn; exact Hk | reflexivity].
Qed.





(** On the other ranks [write_initial] writes nothing. *)
Lemma write_initial_other_rank (self : cardiovascular0Dbase)
    (fs : gmap string string) (path : string) (old new : vec) (rank : Z) :
  comm self = Some rank -> rank <> 0%Z ->
  isinstance_ndarray old = true ->
  write_initial self fs path old new = Ok fs.
Proof.
  intros Hc Hr Hnd. unfold write_initial. rewrite Hnd. cbn [mbind result_bind].
  rewrite Hc. cbn [mbind result_bind].
  destruct (Z.eqb_spec rank 0); [contradiction | reflexivity].
Qed.

End Initial_round_trip.

(** ** The modulo test at and between cycle boundaries *)

Lemma inject_Z_nonneg (k : Z) : (0 <= k)%Z -> (0 <= inject_Z k)%Q.
Proof. intros Hk. unfold Qle. simpl. lia. Qed.

Lemma trunc_nonneg (a : Q) : (0 <= a)%Q -> PyFloat.trunc a = Qfloor a.
Proof.
  intros Ha. unfold PyFloat.trunc, Qfloor. destruct a as [n d]. simpl.
  apply Z.quot_div_nonneg; [| lia].
  unfold Qle in Ha. simpl in Ha. lia.
Qed.

Lemma trunc_opp (a : Q) : PyFloat.trunc (- a) = (- PyFloat.trunc a)%Z.
Proof. unfold PyFloat.trunc. destruct a as [n d]. simpl. apply Z.quot_opp_l. lia. Qed.

Lemma Qfloor_unique (a : Q) (k : Z) :
  (inject_Z k <= a)%Q -> (a < inject_Z (k + 1))%Q -> Qfloor a = k.
Proof.
  intros Hlo Hhi.
  pose proof (Qfloor_resp_le _ _ Hlo) as H1. rewrite Qfloor_Z in H1.
  pose proof (Qfloor_le a) as H2.
  assert (H3 : (inject_Z (Qfloor a) < inject_Z (k + 1))%Q)
    by (eapply Qle_lt_trans; eassumption).
  rewrite <- Zlt_Qlt in H3. lia.
Qed.

(** [fmod] of a point half a period after a multiple of the period. *)
Lemma fmod_half_after (k : Z) (T x : Q) :
  (0 <= k)%Z -> (0 < T)%Q -> (x == inject_Z k * T + T / 2)%Q ->
  exists m, PyFloat.fmod x T = Ok m /\ (m == T / 2)%Q.
Proof.
  intros Hk HT Hx. unfold PyFloat.fmod.
  destruct (Qeq_bool T 0) eqn:E.
  { apply Qeq_bool_iff in E. rewrite E in HT. discriminate. }
  eexists. split; [reflexivity |].
  assert (HT0 : ~ (T == 0)%Q) by (intros E'; rewrite E' in HT; discriminate).
  assert (Hq : (x / T == inject_Z k + (1 # 2))%Q) by (rewrite Hx; field; exact HT0).
  assert (Hfl : PyFloat.trunc (x / T) = k).
  { rewrite trunc_nonneg.
    - apply Qfloor_unique; rewrite Hq.
      + assert (0 <= 1 # 2)%Q by discriminate. lra.
      + rewrite inject_Z_plus. assert ((1 # 2) < inject_Z 1)%Q by reflexivity. lra.
    - rewrite Hq. pose proof (inject_Z_nonneg k Hk).
      assert (0 <= 1 # 2)%Q by discriminate. lra. }
  rewrite Hfl, Hx. field.
Qed.

Lemma IsRelativeEqualTo_true (A B Ref : Q) :
  (A == B)%Q -> ~ (Ref == 0)%Q -> IsRelativeEqualTo A B Ref = Ok true.
Proof.
  intros HAB HRef. unfold IsRelativeEqualTo. rewrite truediv_nonzero by exact HRef.
  cbn [mbind result_bind]. f_equal. unfold PyFloat.ltb, PyFloat.fabs.
  apply negb_true_iff. destruct (Qle_bool _ _) eqn:E; [| reflexivity].
  apply Qle_bool_iff in E. exfalso.
  assert (Hz : (Qabs (A - B) / Ref == 0)%Q).
  { assert (Hd : (A - B == 0)%Q) by (rewrite HAB; ring).
    rewrite Hd. change (Qabs 0) with 0%Q. field. exact HRef. }
  rewrite Hz in E. apply (Qle_not_lt _ _ E). reflexivity.
Qed.

Lemma IsRelativeEqualTo_false (A B Ref : Q) :
  (0 < Ref)%Q -> ((1 # 1000000000000) * Ref <= Qabs (A - B))%Q ->
  IsRelativeEqualTo A B Ref = Ok false.
Proof.
  intros HRef Hbig. unfold IsRelativeEqualTo.
  rewrite truediv_nonzero by (intros E; rewrite E in HRef; discriminate).
  cbn [mbind result_bind]. f_equal. unfold PyFloat.ltb, PyFloat.fabs.
  apply negb_false_iff. apply Qle_bool_iff.
  apply Qle_shift_div_l; assumption.
Qed.

(** At a non-negative multiple of the modulo the shifted remainder is
    exactly zero. *)
Lemma ModuloIsRelativeZero_multiple (k : nat) (T Ref : Q) :
  (0 < T)%Q -> (0 < Ref)%Q ->
  ModuloIsRelativeZero (inject_Z (Z.of_nat k) * T) T Ref = Ok true.
Proof.
  intros HT HRef. unfold ModuloIsRelativeZero.
  destruct (fmod_half_after (Z.of_nat k) T (inject_Z (Z.of_nat k) * T + T / 2))
    as (m & -> & Hm); [lia | exact HT | reflexivity |].
  cbn [mbind result_bind]. apply IsRelativeEqualTo_true.
  - rewrite Hm. ring.
  - intros E. rewrite E in HRef. discriminate.
Qed.

(** X2: the test [cycle_check] makes, [ModuloIsRelativeZero(t, T, t)],
    holds at every positive multiple [t = k * T] of the period. *)
Theorem ModuloIsRelativeZero_at_multiples (k : nat) (T : Q) :
  (0 < T)%Q ->
  ModuloIsRelativeZero (inject_Z (Z.of_nat (S k)) * T) T
    (inject_Z (Z.of_nat (S k)) * T) = Ok true.
Proof.
  intros HT. apply ModuloIsRelativeZero_multiple; [exact HT |].
  assert (Hk : (0 < inject_Z (Z.of_nat (S k)))%Q) by (unfold Qlt; simpl; lia).
  nra.
Qed.

(** X3: the modulo test fails half a period after a non-negative multiple,
    relative to the modulo itself. *)
Theorem ModuloIsRelativeZero_at_half_period (k : nat) (T : Q) :
  (0 < T)%Q ->
  ModuloIsRelativeZero (inject_Z (Z.of_nat k) * T + T / 2) T T = Ok false.
Proof.
  intros HT. unfold ModuloIsRelativeZero.
  assert (HT0 : ~ (T == 0)%Q) by (intros E; rewrite E in HT; discriminate).
  unfold PyFloat.fmod.
  destruct (Qeq_bool T 0) eqn:E; [apply Qeq_bool_iff in E; contradiction |].
  cbn [mbind result_bind].
  set (x := (inject_Z (Z.of_nat k) * T + T / 2 + T / 2)%Q).
  assert (Hq : (x / T == inject_Z (Z.of_nat k + 1))%Q).
  { subst x. rewrite inject_Z_plus. change (inject_Z 1) with 1%Q. field. exact HT0. }
  assert (Hfl : PyFloat.trunc (x / T) = (Z.of_nat k + 1)%Z).
  { rewrite trunc_nonneg.
    - rewrite Hq. apply Qfloor_Z.
    - rewrite Hq. apply inject_Z_nonneg. lia. }
  rewrite Hfl. apply IsRelativeEqualTo_false; [exact HT |].
  assert (Hv : (x - inject_Z (Z.of_nat k + 1) * T - T / 2 - 0 == - (T / 2))%Q).
  { subst x. rewrite inject_Z_plus. change (inject_Z 1) with 1%Q. field. }
  assert (Ha : (Qabs (x - inject_Z (Z.of_nat k + 1) * T - T / 2 - 0) == T / 2)%Q).
  { rewrite Hv, Qabs_opp. apply Qabs_pos. apply Qlt_le_weak, Qlt_shift_div_l; lra. }
  rewrite Ha. apply Qle_shift_div_l; [reflexivity |].
  assert ((1 # 1000000000000) * 2 <= 1)%Q by discriminate. nra.
Qed.

(** X4: a negative multiple of the modulo is not recognised: [math.fmod]
    keeps the sign of its first argument. *)
Theorem ModuloIsRelativeZero_negative_multiple (k : nat) (T : Q) :
  (0 < T)%Q ->
  ModuloIsRelativeZero (- (inject_Z (Z.of_nat (S k)) * T)) T T = Ok false.
Proof.
  intros HT. unfold ModuloIsRelativeZero.
  assert (HT0 : ~ (T == 0)%Q) by (intros E; rewrite E in HT; discriminate).
  unfold PyFloat.fmod.
  destruct (Qeq_bool T 0) eqn:E; [apply Qeq_bool_iff in E; contradiction |].
  cbn [mbind result_bind].
  set (x := (- (inject_Z (Z.of_nat (S k)) * T) + T / 2)%Q).
  assert (Hk1 : (inject_Z (Z.of_nat (S k)) == inject_Z (Z.of_nat k) + 1)%Q).
  { rewrite Nat2Z.inj_succ. unfold Z.succ. rewrite inject_Z_plus. reflexivity. }
  assert (Hq : (x / T == - (inject_Z (Z.of_nat k) + (1 # 2)))%Q).
  { subst x. rewrite Hk1. field. exact HT0. }
  assert (Hk0 : (0 <= inject_Z (Z.of_nat k))%Q) by (apply inject_Z_nonneg; lia).
  assert (Hfl : PyFloat.trunc (x / T) = (- Z.of_nat k)%Z).
  { assert (Ht : PyFloat.trunc (- (x / T)) = Z.of_nat k).
    { rewrite trunc_nonneg.
      - apply Qfloor_unique.
        + rewrite Hq. assert (0 <= 1 # 2)%Q by discriminate. lra.
        + rewrite Hq, inject_Z_plus. assert ((1 # 2) < inject_Z 1)%Q by reflexivity. lra.
      - rewrite Hq. assert (0 <= 1 # 2)%Q by discriminate. lra. }
    rewrite trunc_opp in Ht. lia. }
  rewrite Hfl. apply IsRelativeEqualTo_false; [exact HT |].
  assert (Hv : (x - inject_Z (- Z.of_nat k) * T - T / 2 - 0 == - T)%Q).
  { subst x. rewrite Hk1, inject_Z_opp. field. }
  assert (Ha : (Qabs (x - inject_Z (- Z.of_nat k) * T - T / 2 - 0) == T)%Q).
  { rewrite Hv, Qabs_opp. apply Qabs_pos. lra. }
  rewrite Ha. assert ((1 # 1000000000000) <= 1)%Q by discriminate. nra.
Qed.

Lemma ModuloIsRelativeZero_at_multiples_witness :
  ModuloIsRelativeZero (inject_Z (Z.of_nat 3) * (8 # 10)) (8 # 10)
    (inject_Z (Z.of_nat 3) * (8 # 10)) = Ok true.
Proof.
  apply (ModuloIsRelativeZero_at_multiples 2 (8 # 10)). reflexivity.
Defined.

Lemma ModuloIsRelativeZero_at_half_period_witness :
  ModuloIsRelativeZero (inject_Z (Z.of_nat 3) * (8 # 10) + (8 # 10) / 2) (8 # 10) (8 # 10)
  = Ok false.
Proof.
  apply (ModuloIsRelativeZero_at_half_period 3 (8 # 10)); reflexivity.
Defined.

Lemma ModuloIsRelativeZero_negative_multiple_witness :
  ModuloIsRelativeZero (- (inject_Z (Z.of_nat 3) * (8 # 10))) (8 # 10) (8 # 10) = Ok false.
Proof.
  apply (ModuloIsRelativeZero_negative_multiple 2 (8 # 10)); reflexivity.
Defined.

Section Cycle_check_more.
Context {sympy_engine : Sympy} {mpi_comm : Mpi} {derived_model : DerivedModel}.

(** X5: without a cycle period ([T_cycl <= 0], the value [__init__] sets),
    [cycle_check] never reaches the modulo test: it returns [False] and
    leaves the snapshots, the counter and the files as they are, also at
    [t = 0]. *)
Theorem cycle_check_without_period
    (self : cardiovascular0Dbase) (fs : gmap string string)
    (var varTc varTc_old : vec) (t : Q) (cycle : list Z) (cyclerr : list Q)
    (eps_periodic : Q) (check : string) (inioutpath : option string)
    (induce_pert_after_cycl : Z) (range : nat * nat) :
  (T_cycl self <= 0)%Q ->
  ownership varTc var = Ok range ->
  cycle_check self fs var varTc varTc_old t cycle cyclerr eps_periodic check
    inioutpath induce_pert_after_cycl
  = Ok (false, {| cs_varTc := varTc; cs_varTc_old := varTc_old;
                  cs_cycle := cycle; cs_cyclerr := cyclerr; cs_fs := fs |}).
Proof.
  intros HT Hown. unfold cycle_check. rewrite Hown. destruct range as [vs ve].
  cbn [mbind result_bind].
  assert (Hg : PyFloat.gtb (T_cycl self) 0 = false).
  { destruct (PyFloat.gtb (T_cycl self) 0) eqn:E; [| reflexivity].
    apply gtb_true in E. exfalso. apply (Qlt_not_le _ _ E HT). }
  rewrite Hg. reflexivity.
Qed.

End Cycle_check_more.

(** Half a period after a multiple of the period the modulo test fails for
    every reference value below [10^12 * T / 2]. *)
Lemma ModuloIsRelativeZero_mid_period (k : nat) (T Ref : Q) :
  (0 < T)%Q -> (0 < Ref)%Q -> ((1 # 1000000000000) * Ref <= T / 2)%Q ->
  ModuloIsRelativeZero (inject_Z (Z.of_nat k) * T + T / 2) T Ref = Ok false.
Proof.
  intros HT HRef Hsmall. unfold ModuloIsRelativeZero.
  assert (HT0 : ~ (T == 0)%Q) by (intros E; rewrite E in HT; discriminate).
  unfold PyFloat.fmod.
  destruct (Qeq_bool T 0) eqn:E; [apply Qeq_bool_iff in E; contradiction |].
  cbn [mbind result_bind].
  set (x := (inject_Z (Z.of_nat k) * T + T / 2 + T / 2)%Q).
  assert (Hq : (x / T == inject_Z (Z.of_nat k + 1))%Q).
  { subst x. rewrite inject_Z_plus. change (inject_Z 1) with 1%Q. field. exact HT0. }
  assert (Hfl : PyFloat.trunc (x / T) = (Z.of_nat k + 1)%Z).
  { rewrite trunc_nonneg.
    - rewrite Hq. apply Qfloor_Z.
    - rewrite Hq. apply inject_Z_nonneg. lia. }
  rewrite Hfl. apply IsRelativeEqualTo_false; [exact HRef |].
  assert (Hv : (x - inject_Z (Z.of_nat k + 1) * T - T / 2 - 0 == - (T / 2))%Q).
  { subst x. rewrite inject_Z_plus. change (inject_Z 1) with 1%Q. field. }
  assert (Ha : (Qabs (x - inject_Z (Z.of_nat k + 1) * T - T / 2 - 0) == T / 2)%Q).
  { rewrite Hv, Qabs_opp. apply Qabs_pos. apply Qlt_le_weak, Qlt_shift_div_l; lra. }
  rewrite Ha. exact Hsmall.
Qed.

Section Cycle_check_mid.
Context {sympy_engine : Sympy} {mpi_comm : Mpi} {derived_model : DerivedModel}.

(** X6: in the middle of a cycle, at [t = (k + 1/2) * T_cycl] for any
    [k < 10^11], [cycle_check] returns [False] and changes neither the
    snapshots nor the cycle counter nor the files.  (The bound on [k] is
    there because the boundary test is relative to [t] itself.) *)
Theorem cycle_check_mid_cycle
    (self : cardiovascular0Dbase) (fs : gmap string string)
    (var varTc varTc_old : vec) (k : nat) (cycle : list Z) (cyclerr : list Q)
    (eps_periodic : Q) (check : string) (inioutpath : option string)
    (induce_pert_after_cycl : Z) (range : nat * nat) :
  (0 < T_cycl self)%Q ->
  (Z.of_nat k < 10 ^ 11)%Z ->
  ownership varTc var = Ok range ->
  cycle_check self fs var varTc varTc_old
    (inject_Z (Z.of_nat k) * T_cycl self + T_cycl self / 2)
    cycle cyclerr eps_periodic check inioutpath induce_pert_after_cycl
  = Ok (false, {| cs_varTc := varTc; cs_varTc_old := varTc_old;
                  cs_cycle := cycle; cs_cyclerr := cyclerr; cs_fs := fs |}).
Proof.
  intros HT Hk Hown. unfold cycle_check. rewrite Hown. destruct range as [vs ve].
  cbn [mbind result_bind].
  assert (Hg : PyFloat.gtb (T_cycl self) 0 = true) by (apply gtb_true, HT).
  rewrite Hg.
  set (T := T_cycl self) in *.
  assert (Hq : exists q, q = inject_Z (Z.of_nat k)) by eauto.
  destruct Hq as [q Eq]. rewrite <- Eq.
  assert (Hq0 : (0 <= q)%Q) by (rewrite Eq; apply inject_Z_nonneg; lia).
  assert (Hq1 : (q <= inject_Z (10 ^ 11))%Q) by (rewrite Eq, <- Zle_Qle; lia).
  assert (Hhalf : (T / 2 == T * (1 # 2))%Q) by (field).
  assert (Hmod : ModuloIsRelativeZero (q * T + T / 2) T (q * T + T / 2) = Ok false);
    [| rewrite Hmod; reflexivity].
  rewrite Eq. apply ModuloIsRelativeZero_mid_period; [exact HT | |]; rewrite <- Eq.
  - rewrite Hhalf. nra.
  - rewrite Hhalf.
    assert (Hc : ((1 # 1000000000000) * inject_Z (10 ^ 11) == 1 # 10)%Q) by reflexivity.
    assert (Hb : ((1 # 1000000000000) * q <= 1 # 10)%Q).
    { rewrite <- Hc. apply Qmult_le_l; [reflexivity | exact Hq1]. }
    assert (Hb' : ((1 # 1000000000000) * q * T <= (1 # 10) * T)%Q).
    { apply Qmult_le_compat_r; [exact Hb | apply Qlt_le_weak, HT]. }
    nra.
Qed.

End Cycle_check_mid.

(** ** Elastance: range, end points, failure *)

Lemma E_t_value (E_A E_min t t0 act_dur : R) :
  act_dur <> 0%R -> (t0 <= t <= t0 + act_dur)%R ->
  E_t E_A E_min t t0 act_dur
  = Ok (E_A * (0.5 * (1 - cos (2 * PI * (t - t0) / act_dur))) + E_min)%R.
Proof.
  intros Hd [Hlo Hhi]. unfold E_t.
  destruct (Rle_dec t0 t) as [_ | Hn]; [| contradiction].
  destruct (Rle_dec t (t0 + act_dur)) as [_ | Hn]; [| contradiction].
  destruct (Req_EM_T act_dur 0) as [E | _]; [contradiction | reflexivity].
Qed.

Lemma E_t_outside (E_A E_min t t0 act_dur : R) :
  ~ (t0 <= t <= t0 + act_dur)%R -> E_t E_A E_min t t0 act_dur = Ok E_min.
Proof.
  intros Hout. unfold E_t.
  destruct (Rle_dec t0 t) as [Hlo | _].
  - destruct (Rle_dec t (t0 + act_dur)) as [Hhi | _]; [exfalso; auto |].
    simpl. f_equal. ring.
  - simpl. f_equal. ring.
Qed.

Lemma E_t_no_duration (E_A E_min t0 : R) :
  E_t E_A E_min t0 t0 0 = Raise ZeroDivisionError.
Proof.
  unfold E_t.
  destruct (Rle_dec t0 t0) as [_ | Hn]; [| lra].
  destruct (Rle_dec t0 (t0 + 0)) as [_ | Hn]; [| lra].
  destruct (Req_EM_T 0 0) as [_ | Hn]; [| lra]. reflexivity.
Qed.

(** X7: [E_t] raises exactly when the activation has no duration and [t]
    is its onset, and what it raises is the division by zero. *)
Theorem E_t_raises_iff (E_A E_min t t0 act_dur : R) (e : exn) :
  E_t E_A E_min t t0 act_dur = Raise e <->
  (act_dur = 0%R /\ t = t0 /\ e = ZeroDivisionError).
Proof.
  split.
  - intros Hr. destruct (Req_EM_T act_dur 0) as [Hz | Hnz].
    + destruct (Req_EM_T t t0) as [Ht | Hnt].
      * subst. rewrite E_t_no_duration in Hr. injection Hr as <-. auto.
      * rewrite E_t_outside in Hr by lra. discriminate.
    + destruct (Rle_dec t0 t) as [Hlo | Hlo];
        [destruct (Rle_dec t (t0 + act_dur)) as [Hhi | Hhi] |].
      * rewrite E_t_value in Hr by auto. discriminate.
      * rewrite E_t_outside in Hr by lra. discriminate.
      * rewrite E_t_outside in Hr by lra. discriminate.
  - intros (-> & -> & ->). apply E_t_no_duration.
Qed.

(** X8: for a non-negative amplitude, every value [E_t] returns lies between
    [E_min] and [E_min + E_A]. *)
Theorem E_t_range (E_A E_min t t0 act_dur v : R) :
  (0 <= E_A)%R ->
  E_t E_A E_min t t0 act_dur = Ok v ->
  (E_min <= v <= E_min + E_A)%R.
Proof.
  intros HA Hv.
  destruct (Rle_dec t0 t) as [Hlo | Hlo];
    [destruct (Rle_dec t (t0 + act_dur)) as [Hhi | Hhi] |].
  - destruct (Req_EM_T act_dur 0) as [Hz | Hnz].
    + subst act_dur. assert (t = t0) by lra. subst t.
      rewrite E_t_no_duration in Hv. discriminate.
    + rewrite E_t_value in Hv by auto. injection Hv as <-.
      pose proof (COS_bound (2 * PI * (t - t0) / act_dur)) as [Hc1 Hc2].
      set (c := cos (2 * PI * (t - t0) / act_dur)) in *. split; nra.
  - rewrite E_t_outside in Hv by lra. injection Hv as <-. lra.
  - rewrite E_t_outside in Hv by lra. injection Hv as <-. lra.
Qed.

(** X9: the activation starts and ends at the baseline: for [act_dur > 0],
    [E_t] is [E_min] at [t0] and at [t0 + act_dur], so the elastance is
    continuous across both ends of the window. *)
Theorem E_t_end_points (E_A E_min t0 act_dur : R) :
  (0 < act_dur)%R ->
  E_t E_A E_min t0 t0 act_dur = Ok E_min /\
  E_t E_A E_min (t0 + act_dur) t0 act_dur = Ok E_min.
Proof.
  intros Hpos. split.
  - rewrite E_t_value by lra. f_equal.
    replace (2 * PI * (t0 - t0) / act_dur)%R with 0%R by (field; lra).
    rewrite cos_0. lra.
  - rewrite E_t_value by lra. f_equal.
    replace (2 * PI * (t0 + act_dur - t0) / act_dur)%R with (2 * PI)%R by (field; lra).
    rewrite cos_2PI. lra.
Qed.

(** A quarter into the activation the elastance is half way up. *)
Lemma E_t_range_witness :
  E_t 2 1 (1 / 4) 0 1 = Ok 2%R /\ (1 <= 2 <= 1 + 2)%R.
Proof.
  assert (Hq : E_t 2 1 (1 / 4) 0 1 = Ok 2%R).
  { rewrite E_t_value by lra. f_equal.
    replace (2 * PI * (1 / 4 - 0) / 1)%R with (PI / 2)%R by field.
    rewrite cos_PI2. lra. }
  split; [exact Hq |]. apply (E_t_range 2 1 (1 / 4) 0 1 2); [lra | exact Hq].
Defined.

Lemma E_t_end_points_witness :
  E_t 2 1 3 3 1 = Ok 1%R /\ E_t 2 1 (3 + 1) 3 1 = Ok 1%R.
Proof. apply (E_t_end_points 2 1 3 1). lra. Defined.

(** A model without a cycle period. *)
Definition steady_model : cardiovascular0Dbase :=
  Eval vm_compute in
  {| T_cycl := 0; theta := theta Demo.model; init := init Demo.model;
     have_induced_pert := have_induced_pert Demo.model; comm := comm Demo.model;
     numdof := numdof Demo.model;
     x_ := x_ Demo.model; c_ := c_ Demo.model; t_ := t_ Demo.model;
     fnc_ := fnc_ Demo.model;
     df_ := df_ Demo.model; f_ := f_ Demo.model; a_ := a_ Demo.model;
     Kdf_ := Kdf_ Demo.model; Kf_ := Kf_ Demo.model;
     df__ := df__ Demo.model; f__ := f__ Demo.model; a__ := a__ Demo.model;
     Kdf__ := Kdf__ Demo.model; Kf__ := Kf__ Demo.model;
     R_vin_l_max := R_vin_l_max Demo.model; R_vin_l_min := R_vin_l_min Demo.model;
     R_vout_l_max := R_vout_l_max Demo.model;
     R_vout_l_min := R_vout_l_min Demo.model;
     varmap := varmap Demo.model; chmodels := chmodels Demo.model;
     cq := cq Demo.model;
     switch_V := switch_V Demo.model; switch_p := switch_p Demo.model;
     elastarrays := elastarrays Demo.model; eqtimearray := eqtimearray Demo.model;
     v_ids := v_ids Demo.model; c_ids := c_ids Demo.model;
     vindex_ch := vindex_ch Demo.model; cindex_ch := cindex_ch Demo.model;
     cname_prfx := cname_prfx Demo.model; vname_prfx := vname_prfx Demo.model;
     si := si Demo.model |}.

Lemma cycle_check_without_period_witness :
  cycle_check steady_model ∅ (NdArray [3; 4]%Q) (NdArray [1; 1]%Q)
    (NdArray [2; 2]%Q) 0 [0%Z] [0%Q] (1 # 100) "allvar" None (-1)
  = Ok (false, {| cs_varTc := NdArray [1; 1]%Q; cs_varTc_old := NdArray [2; 2]%Q;
                  cs_cycle := [0%Z]; cs_cyclerr := [0%Q]; cs_fs := ∅ |}).
Proof.
  apply (cycle_check_without_period steady_model ∅ (NdArray [3; 4]%Q)
           (NdArray [1; 1]%Q) (NdArray [2; 2]%Q) 0%Q [0%Z] [0%Q] (1 # 100)%Q
           "allvar" None (-1)%Z (0%nat, 2%nat)).
  - discriminate.
  - reflexivity.
Defined.

Lemma cycle_check_mid_cycle_witness :
  cycle_check Demo.model ∅ (NdArray [3; 4]%Q) (NdArray [1; 1]%Q)
    (NdArray [2; 2]%Q)
    (inject_Z (Z.of_nat 2) * T_cycl Demo.model + T_cycl Demo.model / 2)
    [2%Z] [0%Q] (1 # 100) "allvar" None (-1)
  = Ok (false, {| cs_varTc := NdArray [1; 1]%Q; cs_varTc_old := NdArray [2; 2]%Q;
                  cs_cycle := [2%Z]; cs_cyclerr := [0%Q]; cs_fs := ∅ |}).
Proof.
  apply (cycle_check_mid_cycle Demo.model ∅ (NdArray [3; 4]%Q)
           (NdArray [1; 1]%Q) (NdArray [2; 2]%Q) 2 [2%Z] [0%Q] (1 # 100)%Q
           "allvar" None (-1)%Z (0%nat, 2%nat)).
  - reflexivity.
  - reflexivity.
  - reflexivity.
Defined.

(** ** Rebuilding the Jacobian tables *)

(** Invariant rule for a loop nest over a square index range: [P i j]
    holds when rows below [i] are done and row [i] is done up to [j]. *)
Lemma for_range2_invariant {S} (P : nat -> nat -> S -> Prop)
    (body : nat -> nat -> S -> result S) (n : nat) (s : S) :
  P 0%nat 0%nat s ->
  (forall i j s, (i < n)%nat -> (j < n)%nat -> P i j s ->
     exists s', body i j s = Ok s' /\ P i (Datatypes.S j) s') ->
  (forall i s, P i n s -> P (Datatypes.S i) 0%nat s) ->
  exists s', for_range 0 n (fun i => for_range 0 n (body i)) s = Ok s' /\
             P n 0%nat s'.
Proof.
  intros H0 Hstep Hrow.
  apply (for_range_invariant (fun i s => P i 0%nat s)
           (fun i => for_range 0 n (body i)) n 0 s H0).
  intros i s1 Hi HP.
  destruct (for_range_invariant (fun j s => P i j s) (body i) n 0 s1 HP)
    as (s2 & Hrun & HP2).
  - intros j s' Hj HPj. apply Hstep; [lia | lia | exact HPj].
  - exists s2. split; [exact Hrun | apply Hrow; exact HP2].
Qed.

Section Rebuild.
Context {sympy_engine : Sympy}.

(** Index [(i', j')] comes before [(i, j)] in the loop nest. *)
Definition done_before (i j i' j' : nat) : Prop :=
  (i' < i)%nat \/ (i' = i /\ (j' < j)%nat).

Lemma done_before_next i j i' j' :
  done_before i (S j) i' j' <-> done_before i j i' j' \/ (i' = i /\ j' = j).
Proof. unfold done_before. lia. Qed.

Lemma done_before_row i n i' j' :
  (j' < n)%nat -> done_before i n i' j' -> done_before (S i) 0 i' j'.
Proof. unfold done_before. lia. Qed.

(** The object with its two symbolic Jacobian tables replaced. *)
Definition with_K_ (self : cardiovascular0Dbase) (A B : list (list expr))
  : cardiovascular0Dbase :=
  set_Kf_ (set_Kdf_ self A) B.

(** The tables [set_stiffness] has to fill exist. *)
Definition symbolic_tables_allocated (self : cardiovascular0Dbase) : Prop :=
  (numdof self <= length (df_ self))%nat /\
  (numdof self <= length (f_ self))%nat /\
  (numdof self <= length (x_ self))%nat /\
  forall i j, (i < numdof self)%nat -> (j < numdof self)%nat ->
    is_Some (entry (Kdf_ self) i j) /\ is_Some (entry (Kf_ self) i j).

(** On allocated tables [set_stiffness] returns; it replaces the two
    Jacobian tables, whose entries [(i, j)] below [numdof] are then the
    derivatives of [df_[i]] and [f_[i]] with respect to [x_[j]], and
    changes no other attribute. *)
Lemma set_stiffness_spec (self : cardiovascular0Dbase) :
  symbolic_tables_allocated self ->
  exists A B,
    set_stiffness self = Ok (with_K_ self A B) /\
    forall i j dfi fi xj, (i < numdof self)%nat -> (j < numdof self)%nat ->
      df_ self !! i = Some dfi -> f_ self !! i = Some fi ->
      x_ self !! j = Some xj ->
      entry A i j = Some (sp_diff dfi xj) /\ entry B i j = Some (sp_diff fi xj).
Proof.
  intros (Hdf & Hf & Hx & Htab).
  set (n := numdof self) in *.
  pose (P := fun (i j : nat) (s : cardiovascular0Dbase) =>
    exists A B, s = with_K_ self A B /\
      length <$> A = length <$> Kdf_ self /\ length <$> B = length <$> Kf_ self /\
      forall i' j' dfi fi xj, done_before i j i' j' -> (j' < n)%nat ->
        df_ self !! i' = Some dfi -> f_ self !! i' = Some fi ->
        x_ self !! j' = Some xj ->
        entry A i' j' = Some (sp_diff dfi xj) /\ entry B i' j' = Some (sp_diff fi xj)).
  destruct (for_range2_invariant P set_stiffness_entry n self)
    as (s' & Hrun & A & B & -> & _ & _ & Hdone).
  - exists (Kdf_ self), (Kf_ self). split; [destruct self; reflexivity |].
    split; [reflexivity |]. split; [reflexivity |].
    intros i' j' dfi fi xj Hb. unfold done_before in Hb. lia.
  - intros i j s Hi Hj (A & B & -> & HshA & HshB & Hdone).
    destruct (lookup_lt_is_Some_2 (df_ self) i ltac:(lia)) as [dfi Hdfi].
    destruct (lookup_lt_is_Some_2 (f_ self) i ltac:(lia)) as [fi Hfi].
    destruct (lookup_lt_is_Some_2 (x_ self) j ltac:(lia)) as [xj Hxj].
    destruct (Htab i j Hi Hj) as [HsA HsB].
    destruct (table_setitem_spec A i j (sp_diff dfi xj)) as (A' & HA' & HgA & HfrA & HshA').
    { apply (entry_is_Some_shape (Kdf_ self) A); assumption. }
    destruct (table_setitem_spec B i j (sp_diff fi xj)) as (B' & HB' & HgB & HfrB & HshB').
    { apply (entry_is_Some_shape (Kf_ self) B); assumption. }
    exists (with_K_ self A' B'). split.
    + unfold set_stiffness_entry.
      change (df_ (with_K_ self A B)) with (df_ self).
      change (x_ (with_K_ self A B)) with (x_ self).
      change (Kdf_ (with_K_ self A B)) with A.
      apply list_getitem_Ok in Hdfi, Hfi, Hxj.
      rewrite Hdfi. cbn [mbind result_bind]. rewrite Hxj. cbn [mbind result_bind].
      rewrite HA'. cbn [mbind result_bind].
      change (f_ (set_Kdf_ (with_K_ self A B) A')) with (f_ self).
      change (x_ (set_Kdf_ (with_K_ self A B) A')) with (x_ self).
      change (Kf_ (set_Kdf_ (with_K_ self A B) A')) with B.
      rewrite Hfi. cbn [mbind result_bind]. rewrite Hxj. cbn [mbind result_bind].
      rewrite HB'. reflexivity.
    + exists A', B'. split; [reflexivity |].
      split; [congruence |]. split; [congruence |].
      intros i' j' dfi' fi' xj' Hb Hj' Hd' Hf' Hx'.
      apply done_before_next in Hb as [Hb | [-> ->]].
      * rewrite HfrA, HfrB by (unfold done_before in Hb; intros [= -> ->]; lia).
        apply (Hdone i' j'); assumption.
      * rewrite HgA, HgB. split; congruence.
  - intros i s (A & B & -> & HshA & HshB & Hdone).
    exists A, B. split; [reflexivity |]. split; [exact HshA |]. split; [exact HshB |].
    intros i' j' dfi fi xj Hb Hj'. apply Hdone; [| exact Hj'].
    unfold done_before in *. lia.
  - exists A, B. split; [exact Hrun |].
    intros i j dfi fi xj Hi Hj. apply Hdone; [| exact Hj].
    unfold done_before. lia.
Qed.

(** The object with its compiled tables replaced. *)
Definition with_compiled_vec (self : cardiovascular0Dbase) (a b c : list callable)
  : cardiovascular0Dbase :=
  set_a__ (set_f__ (set_df__ self a) b) c.

Definition with_compiled_K (self : cardiovascular0Dbase)
    (D E : list (list callable)) : cardiovascular0Dbase :=
  set_Kf__ (set_Kdf__ self D) E.

(** The tables [lambdify_expressions] reads and fills exist. *)
Definition compiled_tables_allocated (self : cardiovascular0Dbase) : Prop :=
  (forall i, (i < numdof self)%nat ->
     is_Some (df_ self !! i) /\ is_Some (f_ self !! i) /\ is_Some (a_ self !! i) /\
     is_Some (df__ self !! i) /\ is_Some (f__ self !! i) /\ is_Some (a__ self !! i)) /\
  (forall i j, (i < numdof self)%nat -> (j < numdof self)%nat ->
     is_Some (entry (Kdf_ self) i j) /\ is_Some (entry (Kf_ self) i j) /\
     is_Some (entry (Kdf__ self) i j) /\ is_Some (entry (Kf__ self) i j)).

Lemma list_setitem_spec {A} (l : list A) (i : nat) (x : A) :
  is_Some (l !! i) ->
  exists l', list_setitem l i x = Ok l' /\ l' !! i = Some x /\
    (forall k, k <> i -> l' !! k = l !! k) /\ length l' = length l.
Proof.
  intros Hi. apply lookup_lt_is_Some in Hi.
  exists (<[i:=x]> l). rewrite (list_setitem_lt l i x Hi).
  split; [reflexivity |]. split; [apply list_lookup_insert_eq, Hi |].
  split; [intros k Hk; apply list_lookup_insert_ne; congruence | apply length_insert].
Qed.

Lemma lookup_is_Some_length {A B} (l : list A) (l' : list B) i :
  length l' = length l -> is_Some (l !! i) -> is_Some (l' !! i).
Proof. intros Hl Hi. apply lookup_lt_is_Some. rewrite Hl. apply lookup_lt_is_Some, Hi. Qed.

(** The first loop of [lambdify_expressions]. *)
Lemma lambdify_vec_loop (self : cardiovascular0Dbase) :
  compiled_tables_allocated self ->
  exists a b c,
    for_range 0 (numdof self) lambdify_vec_entry self
    = Ok (with_compiled_vec self a b c) /\
    forall i, (i < numdof self)%nat ->
      a !! i = sp_lambdify (lambdify_args self) <$> df_ self !! i /\
      b !! i = sp_lambdify (lambdify_args self) <$> f_ self !! i /\
      c !! i = sp_lambdify (lambdify_args self) <$> a_ self !! i.
Proof.
  intros [Hvec _].
  pose (P := fun (m : nat) (s : cardiovascular0Dbase) =>
    exists a b c, s = with_compiled_vec self a b c /\
      length a = length (df__ self) /\ length b = length (f__ self) /\
      length c = length (a__ self) /\
      forall i, (i < m)%nat ->
        a !! i = sp_lambdify (lambdify_args self) <$> df_ self !! i /\
        b !! i = sp_lambdify (lambdify_args self) <$> f_ self !! i /\
        c !! i = sp_lambdify (lambdify_args self) <$> a_ self !! i).
  destruct (for_range_invariant P lambdify_vec_entry (numdof self) 0 self)
    as (s' & Hrun & a & b & c & -> & _ & _ & _ & Hdone).
  - exists (df__ self), (f__ self), (a__ self).
    split; [destruct self; reflexivity |]. repeat (split; [reflexivity |]).
    intros i Hi. lia.
  - intros i s Hi (a & b & c & -> & Hla & Hlb & Hlc & Hdone).
    destruct (Hvec i ltac:(lia)) as ([e1 He1] & [e2 He2] & [e3 He3] & Ha & Hb & Hc).
    destruct (list_setitem_spec a i (sp_lambdify (lambdify_args self) e1))
      as (a' & Hsa & Hga & Hfa & Hla'); [eapply lookup_is_Some_length; eassumption |].
    destruct (list_setitem_spec b i (sp_lambdify (lambdify_args self) e2))
      as (b' & Hsb & Hgb & Hfb & Hlb'); [eapply lookup_is_Some_length; eassumption |].
    destruct (list_setitem_spec c i (sp_lambdify (lambdify_args self) e3))
      as (c' & Hsc & Hgc & Hfc & Hlc'); [eapply lookup_is_Some_length; eassumption |].
    exists (with_compiled_vec self a' b' c'). split.
    + unfold lambdify_vec_entry.
      change (df_ (with_compiled_vec self a b c)) with (df_ self).
      change (df__ (with_compiled_vec self a b c)) with a.
      change (lambdify_args (with_compiled_vec self a b c)) with (lambdify_args self).
      pose proof He1 as He1'. apply list_getitem_Ok in He1'. rewrite He1'.
      cbn [mbind result_bind]. rewrite Hsa. cbn [mbind result_bind].
      change (f_ (set_df__ (with_compiled_vec self a b c) a')) with (f_ self).
      change (f__ (set_df__ (with_compiled_vec self a b c) a')) with b.
      change (lambdify_args (set_df__ (with_compiled_vec self a b c) a'))
        with (lambdify_args self).
      pose proof He2 as He2'. apply list_getitem_Ok in He2'. rewrite He2'.
      cbn [mbind result_bind]. rewrite Hsb. cbn [mbind result_bind].
      change (a_ (set_f__ (set_df__ (with_compiled_vec self a b c) a') b'))
        with (a_ self).
      change (a__ (set_f__ (set_df__ (with_compiled_vec self a b c) a') b')) with c.
      change (lambdify_args (set_f__ (set_df__ (with_compiled_vec self a b c) a') b'))
        with (lambdify_args self).
      pose proof He3 as He3'. apply list_getitem_Ok in He3'. rewrite He3'.
      cbn [mbind result_bind]. rewrite Hsc. reflexivity.
    + exists a', b', c'. split; [reflexivity |].
      split; [congruence |]. split; [congruence |]. split; [congruence |].
      intros k Hk. destruct (decide (k = i)) as [-> | Hne].
      * rewrite Hga, Hgb, Hgc, He1, He2, He3. auto.
      * rewrite Hfa, Hfb, Hfc by exact Hne. apply Hdone. lia.
  - exists a, b, c. split; [exact Hrun | exact Hdone].
Qed.

(** The second loop of [lambdify_expressions]. *)
Lemma lambdify_mat_loop (self : cardiovascular0Dbase) :
  compiled_tables_allocated self ->
  exists D E,
    for_range 0 (numdof self)
      (fun i => for_range 0 (numdof self) (lambdify_mat_entry i)) self
    = Ok (with_compiled_K self D E) /\
    forall i j, (i < numdof self)%nat -> (j < numdof self)%nat ->
      entry D i j = sp_lambdify (lambdify_args self) <$> entry (Kdf_ self) i j /\
      entry E i j = sp_lambdify (lambdify_args self) <$> entry (Kf_ self) i j.
Proof.
  intros [_ Htab]. set (n := numdof self) in *.
  pose (P := fun (i j : nat) (s : cardiovascular0Dbase) =>
    exists D E, s = with_compiled_K self D E /\
      length <$> D = length <$> Kdf__ self /\ length <$> E = length <$> Kf__ self /\
      forall i' j', done_before i j i' j' -> (j' < n)%nat ->
        entry D i' j' = sp_lambdify (lambdify_args self) <$> entry (Kdf_ self) i' j' /\
        entry E i' j' = sp_lambdify (lambdify_args self) <$> entry (Kf_ self) i' j').
  destruct (for_range2_invariant P lambdify_mat_entry n self)
    as (s' & Hrun & D & E & -> & _ & _ & Hdone).
  - exists (Kdf__ self), (Kf__ self). split; [destruct self; reflexivity |].
    split; [reflexivity |]. split; [reflexivity |].
    intros i' j' Hb. unfold done_before in Hb. lia.
  - intros i j s Hi Hj (D & E & -> & HshD & HshE & Hdone).
    destruct (Htab i j Hi Hj) as ([e1 He1] & [e2 He2] & HsD & HsE).
    destruct (table_setitem_spec D i j (sp_lambdify (lambdify_args self) e1))
      as (D' & HD' & HgD & HfrD & HshD').
    { apply (entry_is_Some_shape (Kdf__ self) D); assumption. }
    destruct (table_setitem_spec E i j (sp_lambdify (lambdify_args self) e2))
      as (E' & HE' & HgE & HfrE & HshE').
    { apply (entry_is_Some_shape (Kf__ self) E); assumption. }
    exists (with_compiled_K self D' E'). split.
    + unfold lambdify_mat_entry.
      change (Kdf_ (with_compiled_K self D E)) with (Kdf_ self).
      change (Kdf__ (with_compiled_K self D E)) with D.
      change (lambdify_args (with_compiled_K self D E)) with (lambdify_args self).
      pose proof He1 as He1'. apply table_getitem_Ok in He1'. rewrite He1'.
      cbn [mbind result_bind]. rewrite HD'. cbn [mbind result_bind].
      change (Kf_ (set_Kdf__ (with_compiled_K self D E) D')) with (Kf_ self).
      change (Kf__ (set_Kdf__ (with_compiled_K self D E) D')) with E.
      change (lambdify_args (set_Kdf__ (with_compiled_K self D E) D'))
        with (lambdify_args self).
      pose proof He2 as He2'. apply table_getitem_Ok in He2'. rewrite He2'.
      cbn [mbind result_bind]. rewrite HE'. reflexivity.
    + exists D', E'. split; [reflexivity |].
      split; [congruence |]. split; [congruence |].
      intros i' j' Hb Hj'.
      apply done_before_next in Hb as [Hb | [-> ->]].
      * rewrite HfrD, HfrE by (unfold done_before in Hb; intros [= -> ->]; lia).
        apply (Hdone i' j'); assumption.
      * rewrite HgD, HgE, He1, He2. auto.
  - intros i s (D & E & -> & HshD & HshE & Hdone).
    exists D, E. split; [reflexivity |]. split; [exact HshD |]. split; [exact HshE |].
    intros i' j' Hb Hj'. apply Hdone; [| exact Hj'].
    unfold done_before in *. lia.
  - exists D, E. split; [exact Hrun |].
    intros i j Hi Hj. apply Hdone; [| exact Hj]. unfold done_before. lia.
Qed.

(** The two loops of [lambdify_expressions] together. *)
Lemma lambdify_expressions_spec (self : cardiovascular0Dbase) :
  compiled_tables_allocated self ->
  exists a b c D E,
    lambdify_expressions self
    = Ok (with_compiled_K (with_compiled_vec self a b c) D E) /\
    (forall i, (i < numdof self)%nat ->
       a !! i = sp_lambdify (lambdify_args self) <$> df_ self !! i /\
       b !! i = sp_lambdify (lambdify_args self) <$> f_ self !! i /\
       c !! i = sp_lambdify (lambdify_args self) <$> a_ self !! i) /\
    (forall i j, (i < numdof self)%nat -> (j < numdof self)%nat ->
       entry D i j = sp_lambdify (lambdify_args self) <$> entry (Kdf_ self) i j /\
       entry E i j = sp_lambdify (lambdify_args self) <$> entry (Kf_ self) i j).
Proof.
  intros Hall.
  destruct (lambdify_vec_loop self Hall) as (a & b & c & Hvec & Hdone).
  destruct (lambdify_mat_loop (with_compiled_vec self a b c))
    as (D & E & Hmat & Hdone').
  { destruct Hall as [Hv Ht]. split; [| exact Ht].
    intros i Hi. change (numdof (with_compiled_vec self a b c)) with (numdof self) in Hi.
    destruct (Hv i Hi) as (H1 & H2 & H3 & _).
    destruct (Hdone i Hi) as (Ha & Hb & Hc).
    change (df__ (with_compiled_vec self a b c)) with a.
    change (f__ (with_compiled_vec self a b c)) with b.
    change (a__ (with_compiled_vec self a b c)) with c.
    rewrite Ha, Hb, Hc.
    repeat split; try assumption; apply fmap_is_Some; assumption. }
  exists a, b, c, D, E. split; [| split; [exact Hdone | exact Hdone']].
  unfold lambdify_expressions. rewrite Hvec. exact Hmat.
Qed.

Lemma set_stiffness_allocates (self : cardiovascular0Dbase) A B :
  symbolic_tables_allocated self -> compiled_tables_allocated self ->
  (forall i j dfi fi xj, (i < numdof self)%nat -> (j < numdof self)%nat ->
     df_ self !! i = Some dfi -> f_ self !! i = Some fi ->
     x_ self !! j = Some xj ->
     entry A i j = Some (sp_diff dfi xj) /\ entry B i j = Some (sp_diff fi xj)) ->
  compiled_tables_allocated (with_K_ self A B).
Proof.
  intros (Hdf & Hf & Hx & _) [Hv Ht] HAB. split; [exact Hv |].
  intros i j Hi Hj. change (numdof (with_K_ self A B)) with (numdof self) in Hi, Hj.
  destruct (lookup_lt_is_Some_2 (df_ self) i ltac:(lia)) as [dfi Hdfi].
  destruct (lookup_lt_is_Some_2 (f_ self) i ltac:(lia)) as [fi Hfi].
  destruct (lookup_lt_is_Some_2 (x_ self) j ltac:(lia)) as [xj Hxj].
  destruct (HAB i j dfi fi xj Hi Hj Hdfi Hfi Hxj) as [HA HB].
  destruct (Ht i j Hi Hj) as (_ & _ & H3 & H4).
  change (Kdf_ (with_K_ self A B)) with A. change (Kf_ (with_K_ self A B)) with B.
  rewrite HA, HB. repeat split; eauto.
Qed.

(** X10: on allocated tables [set_stiffness] returns an object whose symbolic
    Jacobian entries [(i, j)] below [numdof] are the derivatives of [df_[i]]
    and of [f_[i]] with respect to [x_[j]]; the equations, the unknowns and
    the compiled tables stay as they were, so the compiled Jacobian is
    stale until [lambdify_expressions] runs. *)
Theorem set_stiffness_differentiates (self : cardiovascular0Dbase) :
  symbolic_tables_allocated self ->
  exists s',
    set_stiffness self = Ok s' /\
    (forall i j dfi fi xj, (i < numdof self)%nat -> (j < numdof self)%nat ->
       df_ self !! i = Some dfi -> f_ self !! i = Some fi ->
       x_ self !! j = Some xj ->
       entry (Kdf_ s') i j = Some (sp_diff dfi xj) /\
       entry (Kf_ s') i j = Some (sp_diff fi xj)) /\
    df_ s' = df_ self /\ f_ s' = f_ self /\ a_ s' = a_ self /\ x_ s' = x_ self /\
    df__ s' = df__ self /\ f__ s' = f__ self /\ a__ s' = a__ self /\
    Kdf__ s' = Kdf__ self /\ Kf__ s' = Kf__ self.
Proof.
  intros Hall.
  destruct (set_stiffness_spec self Hall) as (A & B & Hrun & Hent).
  exists (with_K_ self A B). split; [exact Hrun |].
  split; [exact Hent |]. repeat split; reflexivity.
Qed.

(** X11: on allocated tables [lambdify_expressions] returns an object in
    which every compiled vector entry and every compiled Jacobian entry
    below [numdof] is [sp.lambdify] of the symbolic entry at the same place,
    taken over the argument list [[x_, c_, t_, fnc_]]; the symbolic tables
    are unchanged. *)
Theorem lambdify_expressions_compiles (self : cardiovascular0Dbase) :
  compiled_tables_allocated self ->
  exists s',
    lambdify_expressions self = Ok s' /\
    (forall i dfi fi ai, (i < numdof self)%nat ->
       df_ self !! i = Some dfi -> f_ self !! i = Some fi ->
       a_ self !! i = Some ai ->
       df__ s' !! i = Some (sp_lambdify (lambdify_args self) dfi) /\
       f__ s' !! i = Some (sp_lambdify (lambdify_args self) fi) /\
       a__ s' !! i = Some (sp_lambdify (lambdify_args self) ai)) /\
    (forall i j kdf kf, (i < numdof self)%nat -> (j < numdof self)%nat ->
       entry (Kdf_ self) i j = Some kdf -> entry (Kf_ self) i j = Some kf ->
       entry (Kdf__ s') i j = Some (sp_lambdify (lambdify_args self) kdf) /\
       entry (Kf__ s') i j = Some (sp_lambdify (lambdify_args self) kf)) /\
    df_ s' = df_ self /\ f_ s' = f_ self /\ a_ s' = a_ self /\
    Kdf_ s' = Kdf_ self /\ Kf_ s' = Kf_ self.
Proof.
  intros Hall.
  destruct (lambdify_expressions_spec self Hall)
    as (a & b & c & D & E & Hrun & Hvec & Hmat).
  exists (with_compiled_K (with_compiled_vec self a b c) D E).
  split; [exact Hrun |]. split; [| split; [| repeat split; reflexivity]].
  - intros i dfi fi ai Hi H1 H2 H3. destruct (Hvec i Hi) as (Ha & Hb & Hc).
    change (df__ (with_compiled_K (with_compiled_vec self a b c) D E)) with a.
    change (f__ (with_compiled_K (with_compiled_vec self a b c) D E)) with b.
    change (a__ (with_compiled_K (with_compiled_vec self a b c) D E)) with c.
    rewrite Ha, Hb, Hc, H1, H2, H3. auto.
  - intros i j kdf kf Hi Hj H1 H2. destruct (Hmat i j Hi Hj) as (HD & HE).
    change (Kdf__ (with_compiled_K (with_compiled_vec self a b c) D E)) with D.
    change (Kf__ (with_compiled_K (with_compiled_vec self a b c) D E)) with E.
    rewrite HD, HE, H1, H2. auto.
Qed.

(** X12: the tail of every rebuild, [set_stiffness] followed by
    [lambdify_expressions], leaves the compiled Jacobian in step with the
    equations: entry [(i, j)] of [Kdf__] and of [Kf__] is the compiled
    derivative of [df_[i]] and of [f_[i]] with respect to [x_[j]], and the
    compiled vectors are the compiled equations. *)
Theorem rebuild_keeps_jacobian_in_step (self : cardiovascular0Dbase) :
  symbolic_tables_allocated self -> compiled_tables_allocated self ->
  exists s',
    (s ← set_stiffness self; lambdify_expressions s) = Ok s' /\
    forall i j dfi fi xj, (i < numdof self)%nat -> (j < numdof self)%nat ->
      df_ self !! i = Some dfi -> f_ self !! i = Some fi ->
      x_ self !! j = Some xj ->
      entry (Kdf__ s') i j
      = Some (sp_lambdify (lambdify_args self) (sp_diff dfi xj)) /\
      entry (Kf__ s') i j
      = Some (sp_lambdify (lambdify_args self) (sp_diff fi xj)) /\
      df__ s' !! i = Some (sp_lambdify (lambdify_args self) dfi) /\
      f__ s' !! i = Some (sp_lambdify (lambdify_args self) fi).
Proof.
  intros Hsym Hcomp.
  destruct (set_stiffness_spec self Hsym) as (A & B & Hrun & Hent).
  pose proof (set_stiffness_allocates self A B Hsym Hcomp Hent) as Hall.
  destruct (lambdify_expressions_spec (with_K_ self A B) Hall)
    as (a & b & c & D & E & Hrun' & Hvec & Hmat).
  exists (with_compiled_K (with_compiled_vec (with_K_ self A B) a b c) D E).
  split; [rewrite Hrun; exact Hrun' |].
  intros i j dfi fi xj Hi Hj Hdfi Hfi Hxj.
  destruct (Hent i j dfi fi xj Hi Hj Hdfi Hfi Hxj) as [HA HB].
  destruct (Hmat i j Hi Hj) as [HD HE]. destruct (Hvec i Hi) as (Ha & Hb & _).
  change (Kdf_ (with_K_ self A B)) with A in HD.
  change (Kf_ (with_K_ self A B)) with B in HE.
  change (df_ (with_K_ self A B)) with (df_ self) in Ha.
  change (f_ (with_K_ self A B)) with (f_ self) in Hb.
  change (lambdify_args (with_K_ self A B)) with (lambdify_args self) in *.
  rewrite HA in HD. rewrite HB in HE. rewrite Hdfi in Ha. rewrite Hfi in Hb.
  repeat split; assumption.
Qed.

End Rebuild.

Lemma demo_equations_compiled_allocated :
  compiled_tables_allocated Demo.equations_set.
Proof.
  split.
  - intros i Hi. change (numdof Demo.equations_set) with 2%nat in Hi.
    destruct i as [| [| i]]; [| | lia]; vm_compute; repeat split; eexists; reflexivity.
  - intros i j Hi Hj. change (numdof Demo.equations_set) with 2%nat in Hi, Hj.
    destruct i as [| [| i]]; [| | lia];
      (destruct j as [| [| j]]; [| | lia]);
      vm_compute; repeat split; eexists; reflexivity.
Defined.

Lemma demo_equations_symbolic_allocated :
  symbolic_tables_allocated Demo.equations_set.
Proof.
  repeat split; try (simpl; lia);
    change (numdof Demo.equations_set) with 2%nat in *;
    (destruct i as [| [| i]]; [| | lia]);
    (destruct j as [| [| j]]; [| | lia]); vm_compute; eexists; reflexivity.
Defined.

Lemma demo_differentiated_compiled_allocated :
  compiled_tables_allocated Demo.differentiated.
Proof.
  split.
  - intros i Hi. change (numdof Demo.differentiated) with 2%nat in Hi.
    destruct i as [| [| i]]; [| | lia]; vm_compute; repeat split; eexists; reflexivity.
  - intros i j Hi Hj. change (numdof Demo.differentiated) with 2%nat in Hi, Hj.
    destruct i as [| [| i]]; [| | lia];
      (destruct j as [| [| j]]; [| | lia]);
      vm_compute; repeat split; eexists; reflexivity.
Defined.

Lemma set_stiffness_differentiates_witness :
  exists s',
    set_stiffness Demo.equations_set = Ok s' /\
    (forall i j dfi fi xj,
       (i < numdof Demo.equations_set)%nat -> (j < numdof Demo.equations_set)%nat ->
       df_ Demo.equations_set !! i = Some dfi ->
       f_ Demo.equations_set !! i = Some fi ->
       x_ Demo.equations_set !! j = Some xj ->
       entry (Kdf_ s') i j = Some (sp_diff dfi xj) /\
       entry (Kf_ s') i j = Some (sp_diff fi xj)) /\
    (df_ s' = df_ Demo.equations_set /\ f_ s' = f_ Demo.equations_set /\
     a_ s' = a_ Demo.equations_set /\ x_ s' = x_ Demo.equations_set /\
     df__ s' = df__ Demo.equations_set /\ f__ s' = f__ Demo.equations_set /\
     a__ s' = a__ Demo.equations_set /\
     Kdf__ s' = Kdf__ Demo.equations_set /\ Kf__ s' = Kf__ Demo.equations_set) /\
    entry (Kdf_ Demo.equations_set) 0 0 = Some (Demo.SConst 0) /\
    entry (Kdf_ s') 0 0
    = Some (Demo.SAdd (Demo.SMul (Demo.SConst 0) (Demo.SX 0))
              (Demo.SMul (Demo.SConst 2) (Demo.SConst 1))) /\
    entry (Kf_ s') 1 1
    = Some (Demo.SAdd (Demo.SConst 1)
              (Demo.SAdd (Demo.SMul (Demo.SConst 0) (Demo.SFnc 0))
                 (Demo.SMul (Demo.SConst (-1)) (Demo.SConst 0)))).
Proof.
  destruct (set_stiffness_differentiates Demo.equations_set
              demo_equations_symbolic_allocated) as (s' & Hrun & Hent & Hrest).
  exists s'. split; [exact Hrun |]. split; [exact Hent |]. split; [exact Hrest |].
  split; [reflexivity |].
  split.
  - apply (Hent 0%nat 0%nat (Demo.SMul (Demo.SConst 2) (Demo.SX 0))
             (Demo.SMul (Demo.SConst 4)
                (Demo.SAdd (Demo.SX 0) (Demo.SMul (Demo.SConst (-1)) (Demo.SX 1))))
             (Demo.SX 0)); [simpl; lia | simpl; lia | reflexivity ..].
  - apply (Hent 1%nat 1%nat (Demo.SConst 0)
             (Demo.SAdd (Demo.SX 1) (Demo.SMul (Demo.SConst (-1)) (Demo.SFnc 0)))
             (Demo.SX 1)); [simpl; lia | simpl; lia | reflexivity ..].
Defined.

Lemma lambdify_expressions_compiles_witness :
  exists s',
    lambdify_expressions Demo.differentiated = Ok s' /\
    (forall i dfi fi ai, (i < numdof Demo.differentiated)%nat ->
       df_ Demo.differentiated !! i = Some dfi ->
       f_ Demo.differentiated !! i = Some fi ->
       a_ Demo.differentiated !! i = Some ai ->
       df__ s' !! i = Some (sp_lambdify (lambdify_args Demo.differentiated) dfi) /\
       f__ s' !! i = Some (sp_lambdify (lambdify_args Demo.differentiated) fi) /\
       a__ s' !! i = Some (sp_lambdify (lambdify_args Demo.differentiated) ai)) /\
    (forall i j kdf kf,
       (i < numdof Demo.differentiated)%nat -> (j < numdof Demo.differentiated)%nat ->
       entry (Kdf_ Demo.differentiated) i j = Some kdf ->
       entry (Kf_ Demo.differentiated) i j = Some kf ->
       entry (Kdf__ s') i j = Some (sp_lambdify (lambdify_args Demo.differentiated) kdf) /\
       entry (Kf__ s') i j = Some (sp_lambdify (lambdify_args Demo.differentiated) kf)) /\
    (df_ s' = df_ Demo.differentiated /\ f_ s' = f_ Demo.differentiated /\
     a_ s' = a_ Demo.differentiated /\
     Kdf_ s' = Kdf_ Demo.differentiated /\ Kf_ s' = Kf_ Demo.differentiated) /\
    df__ Demo.differentiated !! 0%nat = Some Demo.zero_fn /\
    exists g k,
      f__ s' !! 0%nat = Some g /\ entry (Kf__ s') 0 1 = Some k /\
      g [3; 5]%Q [] 0%Q [7]%Q = (4 * (3 + -1 * 5))%Q /\
      (k [3; 5]%Q [] 0%Q [7]%Q == -4)%Q.
Proof.
  destruct (lambdify_expressions_compiles Demo.differentiated
              demo_differentiated_compiled_allocated)
    as (s' & Hrun & Hvec & Hmat & Hrest).
  exists s'. split; [exact Hrun |]. split; [exact Hvec |]. split; [exact Hmat |].
  split; [exact Hrest |]. split; [reflexivity |].
  destruct (Hvec 0%nat (Demo.SMul (Demo.SConst 2) (Demo.SX 0))
              (Demo.SMul (Demo.SConst 4)
                 (Demo.SAdd (Demo.SX 0) (Demo.SMul (Demo.SConst (-1)) (Demo.SX 1))))
              (Demo.SX 0)) as (_ & Hf & _);
    [simpl; lia | reflexivity ..|].
  destruct (Hmat 0%nat 1%nat) with
    (kdf := Demo.sdiff 1 (Demo.SMul (Demo.SConst 2) (Demo.SX 0)))
    (kf := Demo.sdiff 1
             (Demo.SMul (Demo.SConst 4)
                (Demo.SAdd (Demo.SX 0) (Demo.SMul (Demo.SConst (-1)) (Demo.SX 1)))))
    as (_ & Hk);
    [simpl; lia | simpl; lia | reflexivity ..|].
  eexists _, _. split; [exact Hf |]. split; [exact Hk |].
  split; reflexivity.
Defined.

Lemma rebuild_keeps_jacobian_in_step_witness :
  exists s',
    (s ← set_stiffness Demo.equations_set; lambdify_expressions s) = Ok s' /\
    (forall i j dfi fi xj,
       (i < numdof Demo.equations_set)%nat -> (j < numdof Demo.equations_set)%nat ->
       df_ Demo.equations_set !! i = Some dfi ->
       f_ Demo.equations_set !! i = Some fi ->
       x_ Demo.equations_set !! j = Some xj ->
       entry (Kdf__ s') i j
       = Some (sp_lambdify (lambdify_args Demo.equations_set) (sp_diff dfi xj)) /\
       entry (Kf__ s') i j
       = Some (sp_lambdify (lambdify_args Demo.equations_set) (sp_diff fi xj)) /\
       df__ s' !! i = Some (sp_lambdify (lambdify_args Demo.equations_set) dfi) /\
       f__ s' !! i = Some (sp_lambdify (lambdify_args Demo.equations_set) fi)) /\
    entry (Kdf__ Demo.equations_set) 0 0 = Some Demo.zero_fn /\
    exists k, entry (Kdf__ s') 0 0 = Some k /\ (k [3; 5]%Q [] 0%Q [7]%Q == 2)%Q.
Proof.
  destruct (rebuild_keeps_jacobian_in_step Demo.equations_set
              demo_equations_symbolic_allocated demo_equations_compiled_allocated)
    as (s' & Hrun & Hent).
  exists s'. split; [exact Hrun |]. split; [exact Hent |]. split; [reflexivity |].
  destruct (Hent 0%nat 0%nat (Demo.SMul (Demo.SConst 2) (Demo.SX 0))
              (Demo.SMul (Demo.SConst 4)
                 (Demo.SAdd (Demo.SX 0) (Demo.SMul (Demo.SConst (-1)) (Demo.SX 1))))
              (Demo.SX 0)) as (Hk & _);
    [simpl; lia | simpl; lia | reflexivity ..|].
  eexists. split; [exact Hk | reflexivity].
Defined.

(** ** Time stepping: [update] and [midpoint_avg] *)

Lemma ownership_le (a b : vec) vs ve : ownership a b = Ok (vs, ve) -> (vs <= ve)%nat.
Proof.
  unfold ownership. destruct (isinstance_ndarray a).
  - intros [= <- <-]. lia.
  - destruct b as [l | lo l]; simpl; [discriminate |]. intros [= <- <-]. lia.
Qed.

(** [d] is [dst] with the range from [vs] up to [m] copied from [src], and
    has an entry wherever [dst] has one. *)
Definition copying (vs m : nat) (src dst d : vec) : Prop :=
  copied vs m src dst d /\
  forall k, is_Some (vec_lookup dst k) -> is_Some (vec_lookup d k).

Lemma copying_start vs src dst : copying vs vs src dst dst.
Proof.
  split; [split |]; [intros i Hi; lia | reflexivity | auto].
Qed.

Lemma copying_step vs i src dst d :
  copying vs i src dst d -> (vs <= i)%nat ->
  is_Some (vec_lookup src i) -> is_Some (vec_lookup dst i) ->
  exists q d', vec_getitem src i = Ok q /\ vec_setitem d i q = Ok d' /\
               copying vs (S i) src dst d'.
Proof.
  intros [[Hin Hout] Hsome] Hi [q Hq] Hd.
  destruct (vec_setitem_spec d i q (Hsome i Hd)) as (d' & Hset & Hget & Hfr & _).
  exists q, d'. split; [apply vec_getitem_Ok, Hq |]. split; [exact Hset |].
  split; [split |].
  - intros k Hk. destruct (decide (k = i)) as [-> | Hne].
    + rewrite Hget, Hq. eauto.
    + rewrite Hfr by exact Hne. apply Hin. lia.
  - intros k Hk. rewrite Hfr by lia. apply Hout. lia.
  - intros k Hk. destruct (decide (k = i)) as [-> | Hne].
    + rewrite Hget. eauto.
    + rewrite Hfr by exact Hne. apply Hsome, Hk.
Qed.

Section Time_stepping.
Context {sympy_engine : Sympy}.

(** X13: when the eight vectors have entries on the range owned by [var],
    [update] returns, and each of the four old vectors then agrees with its
    current counterpart on that range and is unchanged outside it. *)
Theorem update_copies_state (self : cardiovascular0Dbase)
    (var df f var_old df_old f_old aux aux_old : vec) (vs ve : nat) :
  ownership var var = Ok (vs, ve) ->
  (forall i, (vs <= i < ve)%nat ->
     is_Some (vec_lookup var i) /\ is_Some (vec_lookup df i) /\
     is_Some (vec_lookup f i) /\ is_Some (vec_lookup aux i) /\
     is_Some (vec_lookup var_old i) /\ is_Some (vec_lookup df_old i) /\
     is_Some (vec_lookup f_old i) /\ is_Some (vec_lookup aux_old i)) ->
  exists var_old' df_old' f_old' aux_old',
    update self var df f var_old df_old f_old aux aux_old
    = Ok (var_old', df_old', f_old', aux_old') /\
    copied vs ve var var_old var_old' /\ copied vs ve df df_old df_old' /\
    copied vs ve f f_old f_old' /\ copied vs ve aux aux_old aux_old'.
Proof.
  intros Hown Hsome. pose proof (ownership_le _ _ _ _ Hown) as Hle.
  unfold update. rewrite Hown. cbn [mbind result_bind].
  pose (P := fun (m : nat) (old : vec * vec * vec * vec) =>
    let '(a, b, c, d) := old in
    copying vs m var var_old a /\ copying vs m df df_old b /\
    copying vs m f f_old c /\ copying vs m aux aux_old d).
  destruct (for_range_invariant P (update_entry var df f aux) (ve - vs) vs
              (var_old, df_old, f_old, aux_old))
    as ([[[a b] c] d] & Hrun & HP).
  - exact (conj (copying_start _ _ _) (conj (copying_start _ _ _)
             (conj (copying_start _ _ _) (copying_start _ _ _)))).
  - intros i [[[a b] c] d] Hi HP. unfold P in HP. destruct HP as (Ha & Hb & Hc & Hd).
    destruct (Hsome i ltac:(lia)) as (H1 & H2 & H3 & H4 & H5 & H6 & H7 & H8).
    destruct (copying_step vs i var var_old a Ha ltac:(lia) H1 H5)
      as (q1 & a' & Hg1 & Hs1 & Ha').
    destruct (copying_step vs i df df_old b Hb ltac:(lia) H2 H6)
      as (q2 & b' & Hg2 & Hs2 & Hb').
    destruct (copying_step vs i f f_old c Hc ltac:(lia) H3 H7)
      as (q3 & c' & Hg3 & Hs3 & Hc').
    destruct (copying_step vs i aux aux_old d Hd ltac:(lia) H4 H8)
      as (q4 & d' & Hg4 & Hs4 & Hd').
    exists (a', b', c', d'). split; [| exact (conj Ha' (conj Hb' (conj Hc' Hd')))].
    unfold update_entry. rewrite Hg1. cbn [mbind result_bind]. rewrite Hs1.
    cbn [mbind result_bind]. rewrite Hg2. cbn [mbind result_bind]. rewrite Hs2.
    cbn [mbind result_bind]. rewrite Hg3. cbn [mbind result_bind]. rewrite Hs3.
    cbn [mbind result_bind]. rewrite Hg4. cbn [mbind result_bind]. rewrite Hs4.
    reflexivity.
  - replace (vs + (ve - vs))%nat with ve in HP by lia. unfold P in HP.
    destruct HP as ([Ha _] & [Hb _] & [Hc _] & [Hd _]).
    exists a, b, c, d. split; [exact Hrun |]. exact (conj Ha (conj Hb (conj Hc Hd))).
Qed.

(** X14: when the three vectors have entries on the range owned by [var],
    [midpoint_avg] returns; on that range [var_mid] then holds
    [theta * var + (1 - theta) * var_old], and outside it is unchanged. *)
Theorem midpoint_avg_weights (self : cardiovascular0Dbase)
    (var var_old var_mid : vec) (vs ve : nat) :
  ownership var var = Ok (vs, ve) ->
  (forall i, (vs <= i < ve)%nat ->
     is_Some (vec_lookup var i) /\ is_Some (vec_lookup var_old i) /\
     is_Some (vec_lookup var_mid i)) ->
  exists var_mid',
    midpoint_avg self var var_old var_mid = Ok var_mid' /\
    (forall i, (vs <= i < ve)%nat ->
       exists a b,
         vec_lookup var i = Some a /\ vec_lookup var_old i = Some b /\
         vec_lookup var_mid' i = Some (theta self * a + (1 - theta self) * b)%Q) /\
    (forall i, ~ (vs <= i < ve)%nat -> vec_lookup var_mid' i = vec_lookup var_mid i).
Proof.
  intros Hown Hsome. pose proof (ownership_le _ _ _ _ Hown) as Hle.
  unfold midpoint_avg. rewrite Hown. cbn [mbind result_bind].
  pose (P := fun (m : nat) (d : vec) =>
    (forall i, (vs <= i < m)%nat ->
       exists a b,
         vec_lookup var i = Some a /\ vec_lookup var_old i = Some b /\
         vec_lookup d i = Some (theta self * a + (1 - theta self) * b)%Q) /\
    (forall i, ~ (vs <= i < m)%nat -> vec_lookup d i = vec_lookup var_mid i) /\
    (forall k, is_Some (vec_lookup var_mid k) -> is_Some (vec_lookup d k))).
  destruct (for_range_invariant P
    (fun i var_mid =>
       a ← vec_getitem var i;
       b ← vec_getitem var_old i;
       vec_setitem var_mid i (theta self * a + (1 - theta self) * b)%Q)
    (ve - vs) vs var_mid) as (d & Hrun & Hin & Hout & _).
  - split; [intros i Hi; lia | split; [reflexivity | auto]].
  - intros i d Hi (Hin & Hout & Hsm).
    destruct (Hsome i ltac:(lia)) as ([a Ha] & [b Hb] & Hm).
    destruct (vec_setitem_spec d i (theta self * a + (1 - theta self) * b)%Q
                (Hsm i Hm)) as (d' & Hset & Hget & Hfr & _).
    exists d'. split.
    + pose proof Ha as Ha'. pose proof Hb as Hb'.
      apply vec_getitem_Ok in Ha', Hb'. rewrite Ha'. cbn [mbind result_bind].
      rewrite Hb'. cbn [mbind result_bind]. exact Hset.
    + split; [| split].
      * intros k Hk. destruct (decide (k = i)) as [-> | Hne].
        -- exists a, b. auto.
        -- rewrite Hfr by exact Hne. apply Hin. lia.
      * intros k Hk. rewrite Hfr by lia. apply Hout. lia.
      * intros k Hk. destruct (decide (k = i)) as [-> | Hne].
        -- rewrite Hget. eauto.
        -- rewrite Hfr by exact Hne. apply Hsm, Hk.
  - replace (vs + (ve - vs))%nat with ve in * by lia.
    exists d. split; [exact Hrun |]. split; [exact Hin | exact Hout].
Qed.

End Time_stepping.

Lemma update_copies_state_witness :
  exists var_old' df_old' f_old' aux_old',
    update Demo.model (NdArray [3; 4]%Q) (NdArray [5; 6]%Q) (NdArray [7; 8]%Q)
      (NdArray [0; 0]%Q) (NdArray [0; 0]%Q) (NdArray [0; 0]%Q)
      (NdArray [9; 10]%Q) (NdArray [0; 0]%Q)
    = Ok (var_old', df_old', f_old', aux_old') /\
    copied 0 2 (NdArray [3; 4]%Q) (NdArray [0; 0]%Q) var_old' /\
    copied 0 2 (NdArray [5; 6]%Q) (NdArray [0; 0]%Q) df_old' /\
    copied 0 2 (NdArray [7; 8]%Q) (NdArray [0; 0]%Q) f_old' /\
    copied 0 2 (NdArray [9; 10]%Q) (NdArray [0; 0]%Q) aux_old'.
Proof.
  apply (update_copies_state Demo.model (NdArray [3; 4]%Q) (NdArray [5; 6]%Q)
           (NdArray [7; 8]%Q) (NdArray [0; 0]%Q) (NdArray [0; 0]%Q)
           (NdArray [0; 0]%Q) (NdArray [9; 10]%Q) (NdArray [0; 0]%Q) 0 2).
  - reflexivity.
  - intros i Hi. destruct i as [| [| i]]; [| | lia];
      vm_compute; repeat split; eexists; reflexivity.
Defined.

Lemma midpoint_avg_weights_witness :
  exists var_mid',
    midpoint_avg Demo.model (PetscVec 2 [3; 4]%Q) (PetscVec 2 [1; 2]%Q)
      (PetscVec 2 [0; 0]%Q) = Ok var_mid' /\
    (forall i, (2 <= i < 4)%nat ->
       exists a b,
         vec_lookup (PetscVec 2 [3; 4]%Q) i = Some a /\
         vec_lookup (PetscVec 2 [1; 2]%Q) i = Some b /\
         vec_lookup var_mid' i
         = Some (theta Demo.model * a + (1 - theta Demo.model) * b)%Q) /\
    (forall i, ~ (2 <= i < 4)%nat ->
       vec_lookup var_mid' i = vec_lookup (PetscVec 2 [0; 0]%Q) i).
Proof.
  apply (midpoint_avg_weights Demo.model (PetscVec 2 [3; 4]%Q) (PetscVec 2 [1; 2]%Q)
           (PetscVec 2 [0; 0]%Q) 2 4).
  - reflexivity.
  - intros i Hi. destruct i as [| [| [| [| i]]]]; try lia;
      vm_compute; repeat split; eexists; reflexivity.
Defined.

(** ** Evaluation of the residual vectors *)

Lemma for_range_skip {S} (body : nat -> S -> result S) n lo s :
  (forall i s, (lo <= i < lo + n)%nat -> body i s = Ok s) ->
  for_range lo n body s = Ok s.
Proof.
  revert lo. induction n as [| n IH]; intros lo Hid; [reflexivity |].
  simpl. rewrite (Hid lo s) by lia. simpl. apply IH.
  intros i s' Hi. apply Hid. lia.
Qed.

Section Evaluate_more.
Context {sympy_engine : Sympy} {mpi_comm : Mpi}.

(** One of the three vector loops of [evaluate]. *)
Lemma fill_vec_spec (self : cardiovascular0Dbase) (tab : list callable)
    (x_sq c : list Q) (t : Q) (fnc : list Q) (v : vec) :
  (forall i, (i < numdof self)%nat ->
     is_Some (tab !! i) /\ is_Some (vec_lookup v i)) ->
  exists v',
    fill_vec self tab x_sq c t fnc (Some v) = Ok (Some v') /\
    (forall i (g : callable), (i < numdof self)%nat -> tab !! i = Some g ->
       vec_lookup v' i = Some (g x_sq c t fnc)) /\
    (forall i, (numdof self <= i)%nat -> vec_lookup v' i = vec_lookup v i).
Proof.
  intros Hall.
  pose (P := fun (m : nat) (d : vec) =>
    (forall i (g : callable), (i < m)%nat -> tab !! i = Some g ->
       vec_lookup d i = Some (g x_sq c t fnc)) /\
    (forall i, (m <= i)%nat -> vec_lookup d i = vec_lookup v i)).
  destruct (for_range_invariant P
    (fun i v => g ← list_getitem tab i; vec_setitem v i (g x_sq c t fnc))
    (numdof self) 0 v) as (d & Hrun & Hin & Hout).
  - split; [intros i g Hi; lia | reflexivity].
  - intros i d Hi [Hin Hout]. destruct (Hall i ltac:(lia)) as [[g Hg] Hv].
    rewrite <- (Hout i) in Hv by lia.
    destruct (vec_setitem_spec d i (g x_sq c t fnc) Hv) as (d' & Hset & Hget & Hfr & _).
    exists d'. split.
    + pose proof Hg as Hg'. apply list_getitem_Ok in Hg'. rewrite Hg'. exact Hset.
    + split.
      * intros k g' Hk Hg'. destruct (decide (k = i)) as [E | Hne].
        -- subst k. assert (g' = g) as -> by congruence. exact Hget.
        -- rewrite Hfr by exact Hne. apply Hin; [lia | exact Hg'].
      * intros k Hk. rewrite Hfr by lia. apply Hout. lia.
  - exists d. unfold fill_vec. rewrite Hrun. split; [reflexivity |].
    split; [exact Hin | exact Hout].
Qed.

(** X15: when the residual vectors [df], [f] and the auxiliary vector [a]
    are requested and have [numdof] entries, as have the compiled tables,
    [evaluate] returns; entry [i < numdof] of each then holds the compiled
    expression [df__[i]], [f__[i]], [a__[i]] at [(x_sq, c, t, fnc)], later
    entries are unchanged, and without [K] the time step plays no part. *)
Theorem evaluate_fills_vectors
    (self : cardiovascular0Dbase) (x : vec) (dt t : Q) (df f a : vec)
    (c fnc x_sq : list Q) :
  squeeze self x = Ok x_sq ->
  (forall i, (i < numdof self)%nat ->
     is_Some (df__ self !! i) /\ is_Some (f__ self !! i) /\
     is_Some (a__ self !! i) /\ is_Some (vec_lookup df i) /\
     is_Some (vec_lookup f i) /\ is_Some (vec_lookup a i)) ->
  exists df' f' a',
    evaluate self x dt t (Some df) (Some f) None c (Some a) fnc
    = Ok (Some df', Some f', None, Some a') /\
    (forall i (g : callable), (i < numdof self)%nat ->
       (df__ self !! i = Some g -> vec_lookup df' i = Some (g x_sq c t fnc)) /\
       (f__ self !! i = Some g -> vec_lookup f' i = Some (g x_sq c t fnc)) /\
       (a__ self !! i = Some g -> vec_lookup a' i = Some (g x_sq c t fnc))) /\
    (forall i, (numdof self <= i)%nat ->
       vec_lookup df' i = vec_lookup df i /\ vec_lookup f' i = vec_lookup f i /\
       vec_lookup a' i = vec_lookup a i).
Proof.
  intros Hx Hall.
  destruct (fill_vec_spec self (df__ self) x_sq c t fnc df) as (df' & Hdf & Hdf1 & Hdf2).
  { intros i Hi. destruct (Hall i Hi) as (H1 & _ & _ & H4 & _). auto. }
  destruct (fill_vec_spec self (f__ self) x_sq c t fnc f) as (f' & Hf & Hf1 & Hf2).
  { intros i Hi. destruct (Hall i Hi) as (_ & H2 & _ & _ & H5 & _). auto. }
  destruct (fill_vec_spec self (a__ self) x_sq c t fnc a) as (a' & Ha & Ha1 & Ha2).
  { intros i Hi. destruct (Hall i Hi) as (_ & _ & H3 & _ & _ & H6). auto. }
  exists df', f', a'. split; [| split].
  - unfold evaluate. rewrite Hx. cbn [mbind result_bind]. rewrite Hdf.
    cbn [mbind result_bind]. rewrite Hf. cbn [mbind result_bind]. rewrite Ha.
    reflexivity.
  - intros i g Hi. repeat split; intros Hg; eauto.
  - intros i Hi. auto.
Qed.

End Evaluate_more.

Lemma evaluate_fills_vectors_witness :
  exists df' f' a',
    evaluate Demo.model (NdArray [3; 4]%Q) 0 0
      (Some (NdArray [0; 0; 7]%Q)) (Some (NdArray [0; 0]%Q)) None []
      (Some (NdArray [0; 0]%Q)) [5%Q]
    = Ok (Some df', Some f', None, Some a') /\
    (forall i (g : callable), (i < numdof Demo.model)%nat ->
       (df__ Demo.model !! i = Some g ->
        vec_lookup df' i = Some (g [3; 4]%Q [] 0%Q [5%Q])) /\
       (f__ Demo.model !! i = Some g ->
        vec_lookup f' i = Some (g [3; 4]%Q [] 0%Q [5%Q])) /\
       (a__ Demo.model !! i = Some g ->
        vec_lookup a' i = Some (g [3; 4]%Q [] 0%Q [5%Q]))) /\
    (forall i, (numdof Demo.model <= i)%nat ->
       vec_lookup df' i = vec_lookup (NdArray [0; 0; 7]%Q) i /\
       vec_lookup f' i = vec_lookup (NdArray [0; 0]%Q) i /\
       vec_lookup a' i = vec_lookup (NdArray [0; 0]%Q) i).
Proof.
  apply (evaluate_fills_vectors Demo.model (NdArray [3; 4]%Q) 0 0
           (NdArray [0; 0; 7]%Q) (NdArray [0; 0]%Q) (NdArray [0; 0]%Q)
           [] [5%Q] [3; 4]%Q).
  - reflexivity.
  - intros i Hi. change (numdof Demo.model) with 2%nat in Hi.
    destruct i as [| [| i]]; [| | lia];
      vm_compute; repeat split; eexists; reflexivity.
Defined.

(** ** Prescribed variables and the linear solve *)

(** Row times vector: the left-hand side of one equation of the linear
    system [K ds = -r] that the solver hands to [ksp.solve(-r, ds)]. *)
Fixpoint dot (row ds : list Q) : Q :=
  match row, ds with
  | a :: row', d :: ds' => (a * d + dot row' ds')%Q
  | _, _ => 0%Q
  end.

Lemma dot_zero_row (row ds : list Q) :
  (forall j, (j < length row)%nat -> row !! j = Some 0%Q) -> (dot row ds == 0)%Q.
Proof.
  revert ds. induction row as [| a row IH]; intros ds Hz; [reflexivity |].
  destruct ds as [| d ds]; [reflexivity |]. simpl.
  pose proof (Hz 0%nat ltac:(simpl; lia)) as H0. simpl in H0. injection H0 as ->.
  rewrite IH; [ring |]. intros j Hj. apply (Hz (S j)). simpl. lia.
Qed.

Lemma dot_unit_row (k : nat) (row ds : list Q) (d : Q) :
  (forall j, (j < length row)%nat ->
     row !! j = Some (if decide (j = k) then 1%Q else 0%Q)) ->
  (k < length row)%nat -> ds !! k = Some d -> (dot row ds == d)%Q.
Proof.
  revert row ds. induction k as [| k IH]; intros row ds Hrow Hk Hd.
  - destruct row as [| a row]; [simpl in Hk; lia |].
    destruct ds as [| d0 ds]; [discriminate |]. simpl in Hd. injection Hd as ->.
    pose proof (Hrow 0%nat ltac:(simpl; lia)) as H0. simpl in H0. injection H0 as ->.
    simpl. rewrite dot_zero_row; [ring |].
    intros j Hj. apply (Hrow (S j)). simpl. lia.
  - destruct row as [| a row]; [simpl in Hk; lia |].
    destruct ds as [| d0 ds]; [discriminate |]. simpl in Hd.
    pose proof (Hrow 0%nat ltac:(simpl; lia)) as H0. simpl in H0. injection H0 as ->.
    simpl. rewrite (IH row ds); [ring | | simpl in Hk; lia | exact Hd].
    intros j Hj. pose proof (Hrow (S j) ltac:(simpl; lia)) as HS. simpl in HS.
    rewrite HS. destruct (decide (S j = S k)), (decide (j = k)); try lia; reflexivity.
Qed.

Section Prescribed_more.
Context {sympy_engine : Sympy}.

(** What [set_prescribed_variables] does for an index it owns. *)
Lemma set_prescribed_variables_spec
    (self : cardiovascular0Dbase) (x r : vec) (K : mat) (val : Q) (idx : Z)
    (xs xe : nat) :
  (0 <= idx < Z.of_nat (numdof self))%Z ->
  ownership x x = Ok (xs, xe) ->
  (Z.of_nat xs <= idx < Z.of_nat xe)%Z ->
  is_Some (vec_lookup r (Z.to_nat idx)) ->
  (forall j, (j < numdof self)%nat -> is_Some (entry K (Z.to_nat idx) j)) ->
  exists r' K' xi,
    set_prescribed_variables self x r K val idx = Ok (r', K') /\
    vec_lookup x (Z.to_nat idx) = Some xi /\
    vec_lookup r' (Z.to_nat idx) = Some (xi - val)%Q /\
    (forall j, (j < numdof self)%nat ->
       entry K' (Z.to_nat idx) j
       = Some (if decide (j = Z.to_nat idx) then 1%Q else 0%Q)) /\
    length <$> K' = length <$> K.
Proof.
  intros Hidx Hown Hrange Hr HK.
  set (k := Z.to_nat idx) in *.
  assert (Hk : Z.of_nat k = idx) by (subst k; lia).
  destruct (ownership_lookup x xs xe k Hown ltac:(lia)) as [xi Hxi].
  destruct (vec_setitem_spec r k (xi - val)%Q Hr) as (r' & Hset & Hget & _).
  destruct (unit_row_loop (numdof self) k K HK) as (K' & Hloop & Hrow & _ & Hsh).
  exists r', K', xi.
  split; [| split; [exact Hxi | split; [exact Hget | split; [exact Hrow | exact Hsh]]]].
  unfold set_prescribed_variables. rewrite Hown. simpl.
  assert (Hin : in_range idx xs xe = true).
  { unfold in_range. apply andb_true_iff. split; [apply Z.leb_le | apply Z.ltb_lt]; lia. }
  rewrite Hin.
  apply vec_getitem_Ok in Hxi. fold k. rewrite Hxi. simpl. rewrite Hset. simpl.
  rewrite (for_range_single _ k).
  - destruct (decide _) as [_ | Hn]; [| lia].
    rewrite Hk, Z.eqb_refl. rewrite <- Hk. rewrite Hloop. reflexivity.
  - intros i K0 Hne. destruct (Z.eqb_spec (Z.of_nat i) idx); [lia | reflexivity].
Qed.

(** X17: after [set_prescribed_variables], equation [idx] of the linear
    system [K ds = -r] that the solver is handed next reads
    [ds[idx] = -(x[idx] - val)]: row [idx] of [K] times any increment [ds]
    is [ds[idx]], and [r[idx]] is [x[idx] - val], whatever [K] and [r] held
    before. *)
Theorem prescribed_row_of_linear_system
    (self : cardiovascular0Dbase) (x r : vec) (K : mat) (val : Q) (idx : Z)
    (xs xe : nat) (ds : list Q) :
  (0 <= idx < Z.of_nat (numdof self))%Z ->
  ownership x x = Ok (xs, xe) ->
  (Z.of_nat xs <= idx < Z.of_nat xe)%Z ->
  is_Some (vec_lookup r (Z.to_nat idx)) ->
  (exists row, K !! Z.to_nat idx = Some row /\ length row = numdof self) ->
  length ds = numdof self ->
  exists r' K' row xi ri d,
    set_prescribed_variables self x r K val idx = Ok (r', K') /\
    K' !! Z.to_nat idx = Some row /\
    vec_lookup x (Z.to_nat idx) = Some xi /\
    vec_lookup r' (Z.to_nat idx) = Some ri /\
    ds !! Z.to_nat idx = Some d /\
    (dot row ds == d)%Q /\ ri = (xi - val)%Q.
Proof.
  intros Hidx Hown Hrange Hr (row0 & Hrow0 & Hlen0) Hds. unfold mat in *.
  destruct (set_prescribed_variables_spec self x r K val idx xs xe Hidx Hown Hrange Hr)
    as (r' & K' & xi & Hrun & Hxi & Hri & Hunit & Hsh).
  { intros j Hj. unfold entry. rewrite Hrow0. simpl.
    apply lookup_lt_is_Some. lia. }
  unfold mat in *.
  assert (Hrow : exists row, K' !! Z.to_nat idx = Some row /\ length row = numdof self).
  { assert (E : (length <$> K') !! Z.to_nat idx = (length <$> K) !! Z.to_nat idx)
      by (rewrite Hsh; reflexivity).
    rewrite !list_lookup_fmap, Hrow0 in E. simpl in E.
    destruct (K' !! Z.to_nat idx) as [row |] eqn:EK;
      cbv [fmap option_fmap option_map] in E; [| discriminate].
    exists row. split; [reflexivity | congruence]. }
  destruct Hrow as (row & Hrow & Hlen).
  destruct (lookup_lt_is_Some_2 ds (Z.to_nat idx) ltac:(lia)) as [d Hd].
  assert (Hdot : (dot row ds == d)%Q).
  { apply (dot_unit_row (Z.to_nat idx)); [| lia | exact Hd].
    intros j Hj. specialize (Hunit j ltac:(lia)).
    unfold entry in Hunit. rewrite Hrow in Hunit. exact Hunit. }
  exists r', K', row, xi, (xi - val)%Q, d.
  split; [exact Hrun |]. split; [exact Hrow |]. split; [exact Hxi |].
  split; [exact Hri |]. split; [exact Hd |]. split; [exact Hdot | reflexivity].
Qed.

(** X18: an index that is neither owned by [x] nor a row of the model
    (negative, say, or beyond [numdof]) makes [set_prescribed_variables] a
    no-op: it returns [r] and [K] as they are. *)
Theorem set_prescribed_variables_foreign_index
    (self : cardiovascular0Dbase) (x r : vec) (K : mat) (val : Q) (idx : Z)
    (xs xe : nat) :
  ownership x x = Ok (xs, xe) ->
  ~ (Z.of_nat xs <= idx < Z.of_nat xe)%Z ->
  ~ (0 <= idx < Z.of_nat (numdof self))%Z ->
  set_prescribed_variables self x r K val idx = Ok (r, K).
Proof.
  intros Hown Hnot Hrow. unfold set_prescribed_variables. rewrite Hown.
  cbn [mbind result_bind].
  assert (Hin : in_range idx xs xe = false).
  { unfold in_range. apply andb_false_iff.
    destruct (Z.leb_spec (Z.of_nat xs) idx); [right | left; reflexivity].
    apply Z.ltb_ge. lia. }
  rewrite Hin. cbn [mbind result_bind].
  rewrite for_range_skip; [reflexivity |].
  intros i K0 Hi. destruct (Z.eqb_spec (Z.of_nat i) idx); [lia | reflexivity].
Qed.

(** X19: a row of the model that [x] does not own (the index belongs to
    another process) still gets its unit row in [K], while [r] is left
    alone: the two halves of [set_prescribed_variables] are guarded
    differently. *)
Theorem set_prescribed_variables_not_owned
    (self : cardiovascular0Dbase) (x r : vec) (K : mat) (val : Q) (idx : Z)
    (xs xe : nat) :
  (0 <= idx < Z.of_nat (numdof self))%Z ->
  ownership x x = Ok (xs, xe) ->
  ~ (Z.of_nat xs <= idx < Z.of_nat xe)%Z ->
  (forall j, (j < numdof self)%nat -> is_Some (entry K (Z.to_nat idx) j)) ->
  exists K',
    set_prescribed_variables self x r K val idx = Ok (r, K') /\
    (forall j, (j < numdof self)%nat ->
       entry K' (Z.to_nat idx) j
       = Some (if decide (j = Z.to_nat idx) then 1%Q else 0%Q)) /\
    (forall i j, i <> Z.to_nat idx -> entry K' i j = entry K i j).
Proof.
  intros Hidx Hown Hnot HK.
  set (k := Z.to_nat idx) in *.
  assert (Hk : Z.of_nat k = idx) by (subst k; lia).
  destruct (unit_row_loop (numdof self) k K HK) as (K' & Hloop & Hrow & Hoth & _).
  exists K'. split; [| split; [exact Hrow | exact Hoth]].
  unfold set_prescribed_variables. rewrite Hown. cbn [mbind result_bind].
  assert (Hin : in_range idx xs xe = false).
  { unfold in_range. apply andb_false_iff.
    destruct (Z.leb_spec (Z.of_nat xs) idx); [right | left; reflexivity].
    apply Z.ltb_ge. lia. }
  rewrite Hin. cbn [mbind result_bind].
  rewrite (for_range_single _ k).
  - destruct (decide _) as [_ | Hn]; [| lia].
    rewrite Hk, Z.eqb_refl. rewrite <- Hk. rewrite Hloop. reflexivity.
  - intros i K0 Hne. destruct (Z.eqb_spec (Z.of_nat i) idx); [lia | reflexivity].
Qed.

End Prescribed_more.

Lemma prescribed_row_of_linear_system_witness :
  exists r' K' row xi ri d,
    set_prescribed_variables Demo.model (NdArray [3; 4]%Q) (NdArray [10; 20]%Q)
      [[5; 6]; [7; 8]]%Q (9 # 2) 1 = Ok (r', K') /\
    K' !! Z.to_nat 1 = Some row /\
    vec_lookup (NdArray [3; 4]%Q) (Z.to_nat 1) = Some xi /\
    vec_lookup r' (Z.to_nat 1) = Some ri /\
    [11; 1 # 2]%Q !! Z.to_nat 1 = Some d /\
    (dot row [11; 1 # 2] == d)%Q /\ ri = (xi - (9 # 2))%Q.
Proof.
  apply (prescribed_row_of_linear_system Demo.model (NdArray [3; 4]%Q)
           (NdArray [10; 20]%Q) [[5; 6]; [7; 8]]%Q (9 # 2) 1 0 2 [11; 1 # 2]%Q).
  - vm_compute. split; [discriminate | reflexivity].
  - reflexivity.
  - vm_compute. split; [discriminate | reflexivity].
  - vm_compute. eexists. reflexivity.
  - exists [7; 8]%Q. split; reflexivity.
  - reflexivity.
Defined.

Lemma set_prescribed_variables_foreign_index_witness :
  set_prescribed_variables Demo.model (NdArray [3; 4]%Q) (NdArray [10; 20]%Q)
    [[5; 6]; [7; 8]]%Q (9 # 2) (-1) = Ok (NdArray [10; 20]%Q, [[5; 6]; [7; 8]]%Q).
Proof.
  apply (set_prescribed_variables_foreign_index Demo.model (NdArray [3; 4]%Q)
           (NdArray [10; 20]%Q) [[5; 6]; [7; 8]]%Q (9 # 2) (-1) 0 2).
  - reflexivity.
  - vm_compute. intros [H _]. apply H. reflexivity.
  - vm_compute. intros [H _]. apply H. reflexivity.
Defined.

Lemma set_prescribed_variables_not_owned_witness :
  exists K',
    set_prescribed_variables Demo.model (PetscVec 1 [4]%Q) (PetscVec 1 [20]%Q)
      [[5; 6]; [7; 8]]%Q (9 # 2) 0 = Ok (PetscVec 1 [20]%Q, K') /\
    (forall j, (j < numdof Demo.model)%nat ->
       entry K' (Z.to_nat 0) j
       = Some (if decide (j = Z.to_nat 0) then 1%Q else 0%Q)) /\
    (forall i j, i <> Z.to_nat 0 -> entry K' i j = entry [[5; 6]; [7; 8]]%Q i j).
Proof.
  apply (set_prescribed_variables_not_owned Demo.model (PetscVec 1 [4]%Q)
           (PetscVec 1 [20]%Q) [[5; 6]; [7; 8]]%Q (9 # 2) 0 1 2).
  - vm_compute. split; [discriminate | reflexivity].
  - reflexivity.
  - vm_compute. intros [H _]. apply H. reflexivity.
  - intros j Hj. change (numdof Demo.model) with 2%nat in Hj.
    destruct j as [| [| j]]; [| | lia]; vm_compute; eexists; reflexivity.
Defined.

(** ** What a normal return of [newton] guarantees *)

(** The attributes of the solver that [newton] never assigns. *)
Definition same_settings (a b : solver_nonlinear) : Prop :=
  divcont a = divcont b /\ k_PTC_initial a = k_PTC_initial b /\
  PTC_randadapt_range a = PTC_randadapt_range b /\ tolerances a = tolerances b.

Section Newton_return.
Context {problem : NewtonProblem}.

(** What holds of every loop state of a run started on the solver [self]. *)
Definition run_invariant (self : solver_nonlinear) (st : newton_state) : Prop :=
  same_settings (self_ st) self /\ (0 <= it_ st)%Z /\
  (divcont self <> Some "PTC" -> self_ st = self /\ counter_adapt_ st = 0%Z).

(** What holds of the state [stf] left by [break]. *)
Definition converged_return (self : solver_nonlinear) (u_start : vectors)
    (st0 stf : newton_state) : Prop :=
  same_settings (self_ stf) self /\
  counter_adapt_ stf = 0%Z /\
  (exists st n u,
     reaches u_start st0 st /\
     linearise_and_update (PTC (self_ st)) (k_PTC_ st) (u_ st) = Ok (n, u) /\
     check_converged (resnorms n) (incnorms n) (tolerances self) = true /\
     (u_ stf = u \/
      (divcont self = Some "PTC" /\
       catch_solver_errors (res_u n) (inc_u n) maxresval = true /\
       u_ stf = (u_start, u.2)))) /\
  (divcont self = Some "PTC" ->
   PTC (self_ stf) = false /\ maxiter (self_ stf) = 250%Z) /\
  (divcont self <> Some "PTC" ->
   self_ stf = self /\ (1 <= it_ stf <= maxiter self)%Z).

Lemma run_invariant_pass self u_start st st' brk :
  run_invariant self st ->
  newton_iteration u_start st = Ok (st', brk) ->
  run_invariant self st'.
Proof.
  intros ((Hd & Hk & Hr & Ht) & Hpos & Hoff) Hrun.
  destruct (newton_iteration_inv _ _ _ _ Hrun)
    as (n & u & k & st1 & st2 & _ & _ & -> & Had & _ & ->).
  assert (H2 : run_invariant self st2).
  { unfold run_invariant.
    destruct Had as [Hno -> | Hon _ Hs _ _ Hi _ Hc | low high Hon _ _ _ Hs _ _ Hi _ Hc];
      simpl in *.
    - split; [repeat split; assumption |]. split; [lia | exact Hoff].
    - rewrite Hs, Hi. split; [repeat split; assumption |]. split; [lia |].
      intros Hno. rewrite Hd in Hon. contradiction.
    - rewrite Hs, Hi. split; [repeat split; assumption |]. split; [lia |].
      intros Hno. rewrite Hd in Hon. contradiction. }
  destruct brk; [| exact H2].
  destruct H2 as ((Hd2 & Hk2 & Hr2 & Ht2) & Hpos2 & Hoff2).
  unfold run_invariant, on_converged, divcont_is_PTC. case_bool_decide as Hon.
  - simpl. split; [repeat split; assumption |]. split; [exact Hpos2 |].
    intros Hno. rewrite Hd2 in Hon. contradiction.
  - split; [repeat split; assumption |]. split; [exact Hpos2 | exact Hoff2].
Qed.

Lemma newton_loop_return self u_start st0 fuel :
  forall st stf,
    reaches u_start st0 st -> run_invariant self st ->
    newton_loop fuel u_start st = Some (Ok stf) ->
    converged_return self u_start st0 stf.
Proof.
  induction fuel as [| fuel IH]; intros st stf Hreach Hinv Hrun.
  - simpl in Hrun. destruct (_ && _); discriminate.
  - destruct (Z.ltb_spec (it_ st) (maxiter (self_ st))) as [Hit | Hit];
      [| rewrite newton_loop_exit in Hrun by (left; exact Hit); discriminate].
    destruct (Z.ltb_spec (counter_adapt_ st) max_adapt) as [Hc | Hc];
      [| rewrite newton_loop_exit in Hrun by (right; exact Hc); discriminate].
    rewrite (newton_loop_enter fuel u_start st Hit Hc) in Hrun.
    destruct (newton_iteration u_start st) as [[st' brk] | e] eqn:Hpass;
      [| discriminate].
    destruct brk.
    + injection Hrun as <-.
      pose proof (run_invariant_pass _ _ _ _ _ Hinv Hpass) as (Hset' & _ & Hoff').
      destruct Hinv as ((Hd & Hk & Hr & Ht) & Hpos & Hoff).
      destruct (newton_iteration_inv _ _ _ _ Hpass)
        as (n & u & k & st1 & st2 & Hlin & _ & -> & Had & Hbrk & ->).
      assert (Htol : tolerances (self_ st2) = tolerances self).
      { destruct Had as [_ -> | _ _ Hs _ _ _ _ _ | low high _ _ _ _ Hs _ _ _ _ _];
          [| rewrite Hs | rewrite Hs]; exact Ht. }
      rewrite Htol in Hbrk. symmetry in Hbrk.
      unfold on_converged, divcont_is_PTC in *.
      destruct Had as [Hno -> | Hon Herr Hs Hu _ Hi _ Hc2
                      | low high Hon Herr _ _ Hs Hu _ Hi _ Hc2]; simpl in *.
      * rewrite bool_decide_false in * by exact Hno.
        rewrite Hd in Hno. destruct (Hoff Hno) as [Hself Hcnt].
        split; [exact Hset' |]. split; [exact Hcnt |].
        split; [exists st, n, u; auto |].
        split; [intros Hon; contradiction |].
        intros _. simpl. rewrite Hself in *. split; [reflexivity | lia].
      * rewrite bool_decide_true in * by (rewrite Hs; exact Hon).
        simpl in *. rewrite Hd in Hon.
        split; [exact Hset' |]. split; [reflexivity |].
        split; [exists st, n, u; auto |].
        split; [intros _; rewrite Hs; split; reflexivity |].
        intros Hno. contradiction.
      * rewrite bool_decide_true in * by (rewrite Hs; exact Hon).
        simpl in *. rewrite Hd in Hon.
        split; [exact Hset' |]. split; [reflexivity |].
        split; [exists st, n, u; auto 10 |].
        split; [intros _; rewrite Hs; split; reflexivity |].
        intros Hno. contradiction.
    + apply (IH st' stf); [| | exact Hrun].
      * apply (reaches_pass u_start st0 st st'); assumption.
      * apply (run_invariant_pass _ _ _ _ _ Hinv Hpass).
Qed.

(** X20: [newton] returns normally only by [break], after a pass whose
    norms passed [check_converged] under the tolerances the solver was
    created with; the unknowns returned are those of that pass (or, when
    that pass was also reset, its internal variables with the solution
    vectors of the entry).  Without continuation the control attributes
    [maxiter], [divcont], [PTC], [k_PTC_initial], [PTC_randadapt_range] and
    [tolerances] are unchanged and between 1 and [maxiter] passes were
    made; with continuation PTC is switched off again and the retry
    counter is zero, but [maxiter] stays at 250 for later calls. *)
Theorem newton_returns_converged (self : solver_nonlinear)
    (u : unknowns) (g : rng) (stf : newton_state) :
  newton self u g = Some (Ok stf) ->
  converged_return self u.1 (newton_init self u g) stf.
Proof.
  intros Hrun. unfold newton in Hrun.
  apply (newton_loop_return self u.1 _ (newton_fuel self)
           (newton_init self u g) stf); [| | exact Hrun].
  - apply reaches_start.
  - split; [repeat split; reflexivity |]. split; [simpl; lia |].
    intros _. split; reflexivity.
Qed.

End Newton_return.

Lemma newton_returns_converged_witness :
  exists stf,
    newton (problem := Demo.coupled_problem) Demo.continuing_solver
      (1 # 1000000000, 0%Z) 0%Z = Some (Ok stf) /\
    converged_return (problem := Demo.coupled_problem) Demo.continuing_solver
      (1 # 1000000000)
      (newton_init (problem := Demo.coupled_problem) Demo.continuing_solver
         (1 # 1000000000, 0%Z) 0%Z) stf.
Proof.
  compute_eq (newton (problem := Demo.coupled_problem) Demo.continuing_solver
                (1 # 1000000000, 0%Z) 0%Z) Hrun.
  lazymatch type of Hrun with
  | _ = Some (Ok ?st) =>
      exists st; split; [exact Hrun |];
      apply (newton_returns_converged (problem := Demo.coupled_problem)
               Demo.continuing_solver (1 # 1000000000, 0%Z) 0%Z st Hrun)
  end.
Defined.

(** ** Chamber interfaces *)

(** The chambers, in the order of the loop of [set_chamber_interfaces]. *)
Definition chambers : list string := ["lv"; "rv"; "la"; "ra"].

Definition known_model (m : string) : Prop :=
  m = "prescr_elast" \/ m = "0D_elast" \/ m = "3D_fem".

Definition known_cq (q : string) : Prop :=
  q = "volume" \/ q = "flux" \/ q = "pressure".

Lemma length_filter_cons {A} (P : A -> bool) (x : A) (l : list A) :
  length (filter (fun a => P a = true) (x :: l))
  = ((if P x then 1 else 0) + length (filter (fun a => P a = true) l))%nat.
Proof.
  rewrite filter_cons. destruct (decide (P x = true)) as [H | H].
  - rewrite H. reflexivity.
  - apply not_true_is_false in H. rewrite H. reflexivity.
Qed.

Section Chamber_interfaces.
Context {sympy_engine : Sympy} {mpi_comm : Mpi} {derived_model : DerivedModel}.

(** [ch] is coupled to a 3D model. *)
Definition is_fem (self : cardiovascular0Dbase) (ch : string) : bool :=
  bool_decide (chmodels self !! ch = Some "3D_fem").

(** The chamber models and the coupling quantity are as before, and the
    two id lists have been extended by [vs] and [cs]. *)
Definition ids_extended (self s' : cardiovascular0Dbase) (vs cs : list Z) : Prop :=
  chmodels s' = chmodels self /\ cq s' = cq self /\
  vindex_ch s' = vindex_ch self /\ cindex_ch s' = cindex_ch self /\
  v_ids s' = v_ids self ++ vs /\ c_ids s' = c_ids self ++ cs.

Lemma ids_extended_refl self : ids_extended self self [] [].
Proof. unfold ids_extended. rewrite !app_nil_r. auto 10. Qed.

Lemma ids_extended_trans s1 s2 s3 vs cs vs' cs' :
  ids_extended s1 s2 vs cs -> ids_extended s2 s3 vs' cs' ->
  ids_extended s1 s3 (vs ++ vs') (cs ++ cs').
Proof.
  intros (H1 & H2 & H3 & H4 & H5 & H6) (G1 & G2 & G3 & G4 & G5 & G6).
  unfold ids_extended. rewrite G1, G2, G3, G4, G5, G6, H1, H2, H3, H4, H5, H6.
  rewrite !app_assoc. auto 10.
Qed.

Lemma set_switches_frame i a b self s' :
  set_switches i a b self = Ok s' -> ids_extended self s' [] [].
Proof.
  unfold set_switches. intros E.
  apply bind_Ok in E as (sV & _ & E). apply bind_Ok in E as (sp & _ & E).
  injection E as <-. unfold ids_extended. cbn. rewrite !app_nil_r. auto 10.
Qed.

Lemma set_prefixes_frame i c v self s' :
  set_prefixes i c v self = Ok s' -> ids_extended self s' [] [].
Proof.
  unfold set_prefixes. intros E.
  apply bind_Ok in E as (cn & _ & E). apply bind_Ok in E as (vn & _ & E).
  injection E as <-. unfold ids_extended. cbn. rewrite !app_nil_r. auto 10.
Qed.

(** One round of the loop, taken apart. *)
Lemma set_chamber_interface_inv i ch self s' :
  set_chamber_interface i ch self = Ok s' ->
  exists m vs cs,
    chmodels self !! ch = Some m /\ known_model m /\
    (m = "3D_fem" -> known_cq (cq self)) /\
    ids_extended self s' vs cs /\
    length vs = length cs /\
    length vs = (if is_fem self ch then 1 else 0)%nat.
Proof.
  unfold set_chamber_interface, is_fem. intros E.
  destruct (chmodels self !! ch) as [m |] eqn:Hm; [| discriminate].
  cbn [mbind result_bind] in E.
  case_bool_decide as H1.
  { apply bind_Ok in E as (s1 & Hs1 & E).
    destruct (set_prescribed_elastance s1 ch) as [[ea eqt] | e]; [| discriminate].
    cbn [mbind result_bind] in E. apply bind_Ok in E as (els & _ & E).
    injection E as <-. apply set_switches_frame in Hs1.
    exists m, [], []. subst m. rewrite bool_decide_false by discriminate.
    repeat split; try reflexivity; try (left; reflexivity); try discriminate;
      apply Hs1. }
  case_bool_decide as H2.
  { apply set_switches_frame in E.
    exists m, [], []. subst m. rewrite bool_decide_false by discriminate.
    repeat split; try reflexivity; try (right; left; reflexivity);
      try discriminate; apply E. }
  case_bool_decide as H3; [| discriminate].
  subst m. rewrite bool_decide_true by reflexivity.
  case_bool_decide as Q1.
  { apply bind_Ok in E as (v & _ & E). apply bind_Ok in E as (c & _ & E).
    injection E as <-. exists "3D_fem", [v], [c].
    repeat split; try reflexivity.
    - right; right; reflexivity.
    - intros _. left. exact Q1. }
  case_bool_decide as Q2.
  { apply bind_Ok in E as (s1 & Hs1 & E). apply bind_Ok in E as (s2 & Hs2 & E).
    apply bind_Ok in E as (v & _ & E). apply bind_Ok in E as (c & _ & E).
    injection E as <-.
    apply set_switches_frame in Hs1. apply set_prefixes_frame in Hs2.
    pose proof (ids_extended_trans _ _ _ _ _ _ _ Hs1 Hs2) as H12.
    exists "3D_fem", [v], [c].
    split; [reflexivity |]. split; [right; right; reflexivity |].
    split; [intros _; right; left; exact Q2 |].
    split; [| split; reflexivity].
    apply (ids_extended_trans _ _ _ _ _ _ _ H12).
    unfold ids_extended. cbn. auto 10. }
  case_bool_decide as Q3; [| discriminate].
  apply bind_Ok in E as (s1 & Hs1 & E). apply bind_Ok in E as (s2 & Hs2 & E).
  apply bind_Ok in E as (s & _ & E). apply bind_Ok in E as (v & _ & E).
  apply bind_Ok in E as (s0 & _ & E). injection E as <-.
  apply set_switches_frame in Hs1. apply set_prefixes_frame in Hs2.
  pose proof (ids_extended_trans _ _ _ _ _ _ _ Hs1 Hs2) as H12.
  exists "3D_fem", [(v - s0)%Z], [Z.of_nat i].
  split; [reflexivity |]. split; [right; right; reflexivity |].
  split; [intros _; right; right; exact Q3 |].
  split; [| split; reflexivity].
  apply (ids_extended_trans _ _ _ _ _ _ _ H12).
  unfold ids_extended. cbn. auto 10.
Qed.

(** The four rounds. *)
Lemma set_chamber_interfaces_inv self s' :
  set_chamber_interfaces self = Ok s' ->
  exists vs cs,
    ids_extended self s' vs cs /\ length vs = length cs /\
    length vs = length (filter (fun ch => is_fem self ch = true) chambers) /\
    forall ch, ch ∈ chambers ->
      exists m, chmodels self !! ch = Some m /\ known_model m /\
                (m = "3D_fem" -> known_cq (cq self)).
Proof.
  unfold set_chamber_interfaces. intros E.
  apply bind_Ok in E as (s1 & E1 & E). apply bind_Ok in E as (s2 & E2 & E).
  apply bind_Ok in E as (s3 & E3 & E4).
  apply set_chamber_interface_inv in E1
    as (m1 & vs1 & cs1 & M1 & K1 & Q1 & X1 & L1 & N1).
  apply set_chamber_interface_inv in E2
    as (m2 & vs2 & cs2 & M2 & K2 & Q2 & X2 & L2 & N2).
  apply set_chamber_interface_inv in E3
    as (m3 & vs3 & cs3 & M3 & K3 & Q3 & X3 & L3 & N3).
  apply set_chamber_interface_inv in E4
    as (m4 & vs4 & cs4 & M4 & K4 & Q4 & X4 & L4 & N4).
  pose proof (ids_extended_trans _ _ _ _ _ _ _ X1 X2) as X12.
  pose proof (ids_extended_trans _ _ _ _ _ _ _ X12 X3) as X123.
  pose proof (ids_extended_trans _ _ _ _ _ _ _ X123 X4) as X1234.
  destruct X1 as (A1 & B1 & _). destruct X12 as (A2 & B2 & _).
  destruct X123 as (A3 & B3 & _).
  assert (F : forall s ch, chmodels s = chmodels self -> is_fem s ch = is_fem self ch)
    by (intros s ch Hs; unfold is_fem; rewrite Hs; reflexivity).
  rewrite (F s1) in N2 by exact A1. rewrite (F s2) in N3 by exact A2.
  rewrite (F s3) in N4 by exact A3.
  rewrite A1 in M2. rewrite A2 in M3. rewrite A3 in M4.
  rewrite B1 in Q2. rewrite B2 in Q3. rewrite B3 in Q4.
  exists (((vs1 ++ vs2) ++ vs3) ++ vs4), (((cs1 ++ cs2) ++ cs3) ++ cs4).
  split; [exact X1234 |]. split; [rewrite !length_app; lia |]. split.
  - rewrite !length_app, N1, N2, N3, N4. unfold chambers.
    rewrite !(length_filter_cons (is_fem self)). simpl. lia.
  - intros ch Hch. unfold chambers in Hch.
    repeat (apply elem_of_cons in Hch as [-> | Hch]; [eauto |]).
    apply elem_of_nil in Hch. contradiction.
Qed.

(** X21: [set_chamber_interfaces] returns only for a valid configuration:
    each of the four chambers has one of the three known models, and if a
    chamber is coupled to a 3D model the coupling quantity is one of
    volume, flux and pressure. *)
Theorem set_chamber_interfaces_valid_configuration
    (self s' : cardiovascular0Dbase) :
  set_chamber_interfaces self = Ok s' ->
  forall ch, ch ∈ chambers ->
    exists m, chmodels self !! ch = Some m /\ known_model m /\
              (m = "3D_fem" -> known_cq (cq self)).
Proof.
  intros E. destruct (set_chamber_interfaces_inv self s' E)
    as (vs & cs & _ & _ & _ & Hvalid). exact Hvalid.
Qed.

(** X22: [set_chamber_interfaces] only ever appends to the coupling id
    lists [v_ids] and [c_ids], and appends to both one entry for each
    chamber coupled to a 3D model: the lists stay paired, and a second call
    on the same object doubles the entries. *)
Theorem set_chamber_interfaces_appends_ids (self s' : cardiovascular0Dbase) :
  set_chamber_interfaces self = Ok s' ->
  exists vs cs,
    v_ids s' = v_ids self ++ vs /\ c_ids s' = c_ids self ++ cs /\
    length vs = length cs /\
    length vs = length (filter (fun ch => is_fem self ch = true) chambers) /\
    forall s'', set_chamber_interfaces s' = Ok s'' ->
      length (v_ids s'') = (length (v_ids self) + 2 * length vs)%nat /\
      length (c_ids s'') = (length (c_ids self) + 2 * length cs)%nat.
Proof.
  intros E. destruct (set_chamber_interfaces_inv self s' E)
    as (vs & cs & (Hm & _ & _ & _ & Hv & Hc) & Hlen & Hcount & _).
  exists vs, cs. repeat (split; [assumption |]).
  intros s'' E'. destruct (set_chamber_interfaces_inv s' s'' E')
    as (vs' & cs' & (_ & _ & _ & _ & Hv' & Hc') & Hlen' & Hcount' & _).
  assert (Hsame : length vs' = length vs).
  { rewrite Hcount', Hcount. unfold is_fem. rewrite Hm. reflexivity. }
  rewrite Hv', Hc', Hv, Hc, !length_app. lia.
Qed.

End Chamber_interfaces.

(** A model whose left and right ventricle are coupled to 3D models
    through the pressure. *)
Definition coupled_model : cardiovascular0Dbase :=
  Eval vm_compute in
  {| T_cycl := T_cycl Demo.model; theta := theta Demo.model; init := init Demo.model;
     have_induced_pert := have_induced_pert Demo.model; comm := comm Demo.model;
     numdof := numdof Demo.model;
     x_ := x_ Demo.model; c_ := c_ Demo.model; t_ := t_ Demo.model;
     fnc_ := fnc_ Demo.model;
     df_ := df_ Demo.model; f_ := f_ Demo.model; a_ := a_ Demo.model;
     Kdf_ := Kdf_ Demo.model; Kf_ := Kf_ Demo.model;
     df__ := df__ Demo.model; f__ := f__ Demo.model; a__ := a__ Demo.model;
     Kdf__ := Kdf__ Demo.model; Kf__ := Kf__ Demo.model;
     R_vin_l_max := R_vin_l_max Demo.model; R_vin_l_min := R_vin_l_min Demo.model;
     R_vout_l_max := R_vout_l_max Demo.model;
     R_vout_l_min := R_vout_l_min Demo.model;
     varmap := varmap Demo.model;
     chmodels := {["lv" := "3D_fem"; "rv" := "3D_fem";
                   "la" := "0D_elast"; "ra" := "prescr_elast"]};
     cq := "pressure";
     switch_V := switch_V Demo.model; switch_p := switch_p Demo.model;
     elastarrays := elastarrays Demo.model; eqtimearray := eqtimearray Demo.model;
     v_ids := v_ids Demo.model; c_ids := c_ids Demo.model;
     vindex_ch := vindex_ch Demo.model; cindex_ch := cindex_ch Demo.model;
     cname_prfx := cname_prfx Demo.model; vname_prfx := vname_prfx Demo.model;
     si := si Demo.model |}.

Lemma set_chamber_interfaces_valid_configuration_witness :
  exists s',
    set_chamber_interfaces coupled_model = Ok s' /\
    forall ch, ch ∈ chambers ->
      exists m, chmodels coupled_model !! ch = Some m /\ known_model m /\
                (m = "3D_fem" -> known_cq (cq coupled_model)).
Proof.
  run_method set_chamber_interfaces coupled_model s'.
  assert (Hrun : set_chamber_interfaces coupled_model = Ok s') by reflexivity.
  exists s'. split; [exact Hrun |].
  apply (set_chamber_interfaces_valid_configuration coupled_model s' Hrun).
Defined.

Lemma set_chamber_interfaces_appends_ids_witness :
  exists s' vs cs,
    set_chamber_interfaces coupled_model = Ok s' /\
    v_ids s' = v_ids coupled_model ++ vs /\ c_ids s' = c_ids coupled_model ++ cs /\
    length vs = length cs /\
    length vs = length (filter (fun ch => is_fem coupled_model ch = true) chambers) /\
    forall s'', set_chamber_interfaces s' = Ok s'' ->
      length (v_ids s'') = (length (v_ids coupled_model) + 2 * length vs)%nat /\
      length (c_ids s'') = (length (c_ids coupled_model) + 2 * length cs)%nat.
Proof.
  run_method set_chamber_interfaces coupled_model s'.
  assert (Hrun : set_chamber_interfaces coupled_model = Ok s') by reflexivity.
  destruct (set_chamber_interfaces_appends_ids coupled_model s' Hrun)
    as (vs & cs & H).
  exists s', vs, cs. split; [exact Hrun | exact H].
Defined.

(** ** The files [write_initial] touches *)

Section Initial_footprint.
Context {sympy_engine : Sympy} {mpi_comm : Mpi}.

(** X23: whatever [write_initial] writes, it writes to its two files:
    every other path of the file system is as before; on a rank other
    than 0 nothing is written at all, and on rank 0 both files exist
    afterwards. *)
Theorem write_initial_footprint (self : cardiovascular0Dbase)
    (fs fs' : gmap string string) (path : string) (varTc_old varTc : vec) :
  write_initial self fs path varTc_old varTc = Ok fs' ->
  (forall p, p <> path +:+ "/initial_data_Tstart.txt" ->
             p <> path +:+ "/initial_data_Tend.txt" -> fs' !! p = fs !! p) /\
  (comm self <> Some 0%Z -> fs' = fs) /\
  (comm self = Some 0%Z ->
   is_Some (fs' !! (path +:+ "/initial_data_Tstart.txt")) /\
   is_Some (fs' !! (path +:+ "/initial_data_Tend.txt"))).
Proof.
  unfold write_initial. intros E.
  apply bind_Ok in E as ([o n] & _ & E).
  destruct (comm self) as [rank |]; [| discriminate].
  cbn [mbind result_bind] in E.
  destruct (Z.eqb_spec rank 0) as [Hr0 | Hr].
  - subst rank. apply bind_Ok in E as ([f1 f2] & _ & E). injection E as <-.
    split; [| split].
    + intros p H1 H2. rewrite !lookup_insert_ne by congruence. reflexivity.
    + intros H. contradiction.
    + intros _. split.
      * rewrite lookup_insert_ne
          by (intros H; apply (inj (String.append path)) in H; discriminate H).
        rewrite lookup_insert_eq. eauto.
      * rewrite lookup_insert_eq. eauto.
  - injection E as <-. split; [reflexivity |]. split; [reflexivity |].
    intros H. injection H as H. contradiction.
Qed.

End Initial_footprint.

Lemma write_initial_footprint_witness :
  exists fs',
    write_initial Demo.model {["notes.txt" := "keep"]} "out"
      (NdArray [3; 4]%Q) (NdArray [5 # 2; -7]%Q) = Ok fs' /\
    (forall p, p <> "out" +:+ "/initial_data_Tstart.txt" ->
               p <> "out" +:+ "/initial_data_Tend.txt" ->
               fs' !! p = ({["notes.txt" := "keep"]} : gmap string string) !! p) /\
    (comm Demo.model <> Some 0%Z -> fs' = {["notes.txt" := "keep"]}) /\
    (comm Demo.model = Some 0%Z ->
     is_Some (fs' !! ("out" +:+ "/initial_data_Tstart.txt")) /\
     is_Some (fs' !! ("out" +:+ "/initial_data_Tend.txt"))).
Proof.
  compute_eq (write_initial (sympy_engine := Demo.sympy) (mpi_comm := Demo.mpi)
                Demo.model {["notes.txt" := "keep"]} "out"
                (NdArray [3; 4]%Q) (NdArray [5 # 2; -7]%Q)) Hrun.
  lazymatch type of Hrun with
  | _ = Ok ?fs' =>
      exists fs'; split; [exact Hrun |];
      apply (write_initial_footprint Demo.model {["notes.txt" := "keep"]} fs' "out"
               (NdArray [3; 4]%Q) (NdArray [5 # 2; -7]%Q) Hrun)
  end.
Defined.


Lemma initial_conditions_round_trip_witness :
  exists fs' d_start d_end,
    write_initial Demo.model ∅ "out" (NdArray [3; 4]%Q) (NdArray [5 # 2; -7]%Q)
    = Ok fs' /\
    set_initial_from_file fs' ("out" +:+ "/initial_data_Tstart.txt") = Ok d_start /\
    set_initial_from_file fs' ("out" +:+ "/initial_data_Tend.txt") = Ok d_end /\
    (forall k j, (k, j) ∈ varmap Demo.model ->
       exists vo vn vo' vn',
         [3; 4]%Q !! j = Some vo /\ [5 # 2; -7]%Q !! j = Some vn /\
         d_start !! (k +:+ "_0") = Some vo' /\
         d_end !! (k +:+ "_0") = Some vn' /\
         (Qabs (vo' - vo) <= (1 # 20000000000000000) * Qabs vo)%Q /\
         (Qabs (vn' - vn) <= (1 # 20000000000000000) * Qabs vn)%Q) /\
    (forall key, is_Some (d_start !! key) \/ is_Some (d_end !! key) ->
       exists k, k ∈ (varmap Demo.model).*1 /\ key = k +:+ "_0").
Proof.
  apply (initial_conditions_round_trip Demo.model ∅ "out" [3; 4]%Q [5 # 2; -7]%Q).
  - reflexivity.
  - apply (bool_decide_unpack _). vm_compute. exact I.
  - intros k Hk. change ((varmap Demo.model).*1) with ["q_vin_l"; "p_v_l"] in Hk.
    apply elem_of_cons in Hk as [-> | Hk]; [vm_compute; repeat split |].
    apply elem_of_cons in Hk as [-> | Hk]; [vm_compute; repeat split |].
    apply elem_of_nil in Hk. contradiction.
  - intros j Hj. change ((varmap Demo.model).*2) with [0%nat; 1%nat] in Hj.
    apply elem_of_cons in Hj as [-> | Hj]; [simpl; lia |].
    apply elem_of_cons in Hj as [-> | Hj]; [simpl; lia |].
    apply elem_of_nil in Hj. contradiction.
Defined.

(** ** An unknown perturbation type *)

Section Perturbation_type.
Context {sympy_engine : Sympy} {mpi_comm : Mpi} {derived_model : DerivedModel}.

(** The five calls that re-initialise the arrays and re-set the
    expressions, in the order of [induce_perturbation]. *)
Definition rebuild (self : cardiovascular0Dbase) : result cardiovascular0Dbase :=
  s ← setup_arrays self;
  s ← set_chamber_interfaces s;
  s ← equation_map s;
  s ← set_stiffness s;
  lambdify_expressions s.

(** X24: a perturbation type other than [mr], [ms], [ar] and [as] is not
    rejected.  A firing call with such a type assigns none of the four
    resistances, still rebuilds the model (on the unchanged object) and
    sets [have_induced_pert], so that every later call, also one with a
    known type, does nothing: the one perturbation of the run is used up. *)
Theorem induce_perturbation_unknown_type
    (self self' : cardiovascular0Dbase) (perturb_type : string)
    (cycle induce_pert_after_cycl : Z) (log : list call) :
  fires self cycle induce_pert_after_cycl ->
  perturb_type <> "mr" -> perturb_type <> "ms" ->
  perturb_type <> "ar" -> perturb_type <> "as" ->
  induce_perturbation self perturb_type cycle induce_pert_after_cycl
  = Ok (self', log) ->
  perturb_parameters perturb_type self = self /\
  (exists s, rebuild self = Ok s /\ self' = set_have_induced_pert s true) /\
  (forall perturb_type' cycle',
     induce_perturbation self' perturb_type' cycle' induce_pert_after_cycl
     = Ok (self', [])).
Proof.
  intros Hfire H1 H2 H3 H4 Hrun.
  assert (Hsame : perturb_parameters perturb_type self = self).
  { unfold perturb_parameters. rewrite !bool_decide_false by assumption. reflexivity. }
  destruct (induce_perturbation_fires_inv _ _ _ _ _ _ Hfire Hrun)
    as (rank & s1 & s2 & s3 & s4 & s5 & _ & E1 & E2 & E3 & E4 & E5 & -> & _).
  rewrite Hsame in E1.
  split; [exact Hsame |]. split.
  - exists s5. split; [| reflexivity].
    unfold rebuild. rewrite E1. cbn [mbind result_bind]. rewrite E2.
    cbn [mbind result_bind]. rewrite E3. cbn [mbind result_bind]. rewrite E4.
    exact E5.
  - intros perturb_type' cycle'. apply induce_perturbation_noop.
    intros (_ & Hflag & _). rewrite have_induced_pert_set in Hflag. discriminate.
Qed.

End Perturbation_type.

Lemma induce_perturbation_unknown_type_witness :
  exists self' log,
    induce_perturbation Demo.model "mitral" 3 2 = Ok (self', log) /\
    perturb_parameters "mitral" Demo.model = Demo.model /\
    (exists s, rebuild Demo.model = Ok s /\ self' = set_have_induced_pert s true) /\
    (forall perturb_type' cycle',
       induce_perturbation self' perturb_type' cycle' 2 = Ok (self', [])).
Proof.
  compute_eq (induce_perturbation (sympy_engine := Demo.sympy)
                (derived_model := Demo.derived) Demo.model "mitral" 3 2) Hrun.
  lazymatch type of Hrun with
  | _ = Ok (?s, ?l) =>
      exists s, l; split; [exact Hrun |];
      apply (induce_perturbation_unknown_type Demo.model s "mitral" 3 2 l);
        [repeat split; reflexivity | discriminate | discriminate | discriminate
        | discriminate | exact Hrun]
  end.
Defined.

(** ** Reading a file that is not in the written form *)

Lemma lines_initial_text_then (kvs : list (string * Q)) (rest : string) :
  (forall k, k ∈ kvs.*1 -> no_space k) ->
  PyText.lines (initial_text kvs +:+ rest)
  = ((fun kq => initial_line (kq.1 +:+ "_0") kq.2) <$> kvs) ++ PyText.lines rest.
Proof.
  induction kvs as [| [k q] kvs IH]; intros Hk; [reflexivity |].
  cbn [initial_text fmap list_fmap fst snd]. unfold initial_line at 1.
  rewrite app_assoc_s. rewrite lines_key_value.
  - rewrite IH; [reflexivity |]. intros k' Hk'. apply Hk. simpl. right. exact Hk'.
  - apply key_no_space, Hk. simpl. left.
  - apply no_space_format_16E.
Qed.

Lemma read_initial_lines_app (l1 l2 : list string) : forall d,
  read_initial_lines d (l1 ++ l2)
  = (d' ← read_initial_lines d l1; read_initial_lines d' l2).
Proof.
  induction l1 as [| l l1 IH]; intros d; [reflexivity |].
  cbn [app read_initial_lines].
  destruct (read_initial_line d l) as [d1 | e]; [| reflexivity].
  cbn [mbind result_bind]. apply IH.
Qed.

(** X25: [set_initial_from_file] does not skip blank lines: a file that
    holds well-formed lines, then an empty line, then anything at all,
    makes it raise [ValueError] (from unpacking the empty [line.split()]). *)
Theorem set_initial_from_file_blank_line (fs : gmap string string)
    (file : string) (kvs : list (string * Q)) (rest : string) :
  (forall k, k ∈ kvs.*1 -> no_space k) ->
  fs !! file = Some (initial_text kvs +:+ String "010"%char rest) ->
  set_initial_from_file fs file = Raise ValueError.
Proof.
  intros Hk Hf. unfold set_initial_from_file. rewrite Hf.
  rewrite lines_initial_text_then by exact Hk.
  rewrite read_initial_lines_app.
  rewrite read_initial_lines_written by exact Hk. cbn [mbind result_bind].
  unfold PyText.lines. cbn [PyText.lines_go].
  change (Ascii.eqb "010"%char "010"%char) with true. cbv iota.
  cbn [read_initial_lines]. reflexivity.
Qed.

Lemma set_initial_from_file_blank_line_witness :
  set_initial_from_file
    {["ini.txt" := initial_text [("q", 3%Q)] +:+ String "010"%char "p_0 1.0"]}
    "ini.txt" = Raise ValueError.
Proof.
  apply (set_initial_from_file_blank_line _ "ini.txt" [("q", 3%Q)] "p_0 1.0").
  - intros k Hk. apply elem_of_cons in Hk as [-> | Hk]; [vm_compute; repeat split |].
    apply elem_of_nil in Hk. contradiction.
  - reflexivity.
Defined.
